(** * vespalib::gp -- a shallow embedding of the genetic-programming core

    Sources embedded here:
    - [eval/src/vespa/eval/gp/gp.h] and [gp.cpp]: operation catalog, references,
      programs, populations;
    - [eval/src/tests/gp/ponder_nov2017/ponder_nov2017.cpp]: the test catalog
      ([my_repo]) and the hand-crafted program;
    - [searchlib/src/vespa/searchlib/util/rand48.h]: used as a concrete generator.

    Conventions.  [size_t] is a [Z] in [0, 2^64) and [int] a [Z] in
    [-2^31, 2^31); every conversion and every unsigned operation that can wrap
    is written with [size_t_wrap] / [int_wrap].  [double] is Rocq's primitive
    binary64 [float].  A [std::vector] is a [list]; [v[i]] out of range is
    undefined behaviour and is reported as [Undefined]; a violated [assert] is
    reported as [AssertFail].  A catalog entry is a function pointer and is
    taken to yield a [Value]; the functions of the test report signed overflow
    as [Undefined], and [call_defined] marks the calls that stay defined. *)

From Stdlib Require Import ZArith Lia Floats String Ascii DecimalString Sorted Permutation.
From stdpp Require Import base list.

Local Open Scope Z_scope.

(** ** Outcomes of running a piece of the program *)

Inductive outcome (A : Type) : Type :=
| Ok (a : A)      (* normal return *)
| AssertFail      (* an assert(...) did not hold *)
| Undefined       (* undefined behaviour of the C++ abstract machine *)
| OutOfFuel.      (* the iteration budget given to a loop of the model ran out *)

Arguments Ok {A} a.
Arguments AssertFail {A}.
Arguments Undefined {A}.
Arguments OutOfFuel {A}.

#[global] Instance outcome_ret : MRet outcome := fun A a => Ok a.
#[global] Instance outcome_bind : MBind outcome := fun A B k m =>
  match m with
  | Ok a => k a
  | AssertFail => AssertFail
  | Undefined => Undefined
  | OutOfFuel => OutOfFuel
  end.

Definition assert (b : bool) : outcome unit :=
  if b then Ok tt else AssertFail.

Definition from_outcome {A} (default : A) (o : outcome A) : A :=
  match o with Ok a => a | _ => default end.

Definition is_ok {A} (o : outcome A) : bool :=
  match o with Ok _ => true | _ => false end.

(** ** Machine integers *)

Definition size_t_wrap (z : Z) : Z := z mod 2 ^ 64.
Definition int_wrap (z : Z) : Z := (z + 2 ^ 31) mod 2 ^ 32 - 2 ^ 31.

Definition INT_MIN : Z := - 2 ^ 31.
Definition INT_MAX : Z := 2 ^ 31 - 1.

Definition is_int (z : Z) : Prop := INT_MIN <= z <= INT_MAX.
Definition is_size_t (z : Z) : Prop := 0 <= z < 2 ^ 64.

(** [v.size()] *)
Definition vsize {A} (v : list A) : Z := Z.of_nat (length v).

(** [v[i]] for a [size_t] index *)
Definition vec_at {A} (v : list A) (i : Z) : outcome A :=
  if (0 <=? i) && (i <? vsize v) then
    match v !! Z.to_nat i with
    | Some a => Ok a
    | None => Undefined
    end
  else Undefined.

(** ** gp.h: basic types *)

Definition Value := Z.          (* using Value = int *)
Definition Weakness := float.   (* using Weakness = double *)

Record Params := {
  in_cnt : Z;
  out_cnt : Z;
  op_cnt : Z;
  pop_cnt : Z
}.

Definition Input := list Value.
Definition Output := list Value.
Definition Result := list Output.
Definition Feedback := list Weakness.

(** ** struct Random

    [std::mt19937] and [std::uniform_int_distribution] are library code; the
    model keeps what the program relies on: a generator state and a draw that,
    for [min <= max], lands in [[min, max]].  A distribution built with
    [min > max] is undefined behaviour. *)

Class RandomGen := {
  rnd_state : Type;
  rnd_draw : rnd_state -> Z -> Z -> Z * rnd_state;
  rnd_draw_range : forall s lo hi, lo <= hi -> lo <= fst (rnd_draw s lo hi) <= hi
}.

Module Random.
Section WithGen.
Context `{RandomGen}.

(** [int get(int min, int max)] *)
Definition get (s : rnd_state) (min max : Z) : outcome (Z * rnd_state) :=
  if min <=? max then Ok (rnd_draw s min max) else Undefined.

Definition make_seed (s : rnd_state) : outcome (Z * rnd_state) :=
  get s INT_MIN INT_MAX.
End WithGen.
End Random.

(** ** rand48.h *)

Module Rand48.
Definition srand48 (seed : Z) : Z :=
  (Z.shiftl (Z.land seed 4294967295) 16 + 13070) mod 2 ^ 64.

Definition init : Z := srand48 305441741.

Definition iterate (_state : Z) : Z :=
  Z.land ((25214903917 * _state + 11) mod 2 ^ 64) 281474976710655.

Definition lrand48 (_state : Z) : Z * Z :=
  let s := iterate _state in (Z.shiftr s 17, s).
End Rand48.

(** A generator for concrete runs: Rand48 reduced into the requested range. *)
Definition rand48_draw (s lo hi : Z) : Z * Z :=
  let '(v, s') := Rand48.lrand48 s in (lo + v mod (hi - lo + 1), s').

Lemma rand48_draw_range s lo hi : lo <= hi -> lo <= fst (rand48_draw s lo hi) <= hi.
Proof.
  intros Hle. unfold rand48_draw. destruct (Rand48.lrand48 s) as [v s']. simpl.
  pose proof (Z.mod_pos_bound v (hi - lo + 1) ltac:(lia)). lia.
Qed.

#[global] Instance rand48_gen : RandomGen :=
  {| rnd_state := Z; rnd_draw := rand48_draw; rnd_draw_range := rand48_draw_range |}.

(** ** struct MultiFunction / struct Sim *)

Module MultiFunction.
Record t := mk {
  num_inputs : Z;
  num_outputs : Z;
  num_alternatives : Z;
  execute : Input -> outcome Result
}.
End MultiFunction.

(** ** struct OpRepo *)

Module OpRepo.
(** The hook is external code and may itself stop on a failed check. *)
Definition feedback_fun := MultiFunction.t -> outcome Feedback.
Definition value_op2 := Value -> Value -> Value.

Definition forward_op (lhs _rhs : Value) : Value := lhs.

Record Entry := {
  name : string;
  fun_ : value_op2;
  cost : Z
}.

Record t := {
  _find_weakness : feedback_fun;
  _list : list Entry
}.

(** [OpRepo(feedback_fun find_weakness_in)] *)
Definition new (find_weakness_in : feedback_fun) : t :=
  {| _find_weakness := find_weakness_in;
     _list := [ {| name := "forward"; fun_ := forward_op; cost := 0 |} ] |}.

Definition add (r : t) (name_in : string) (fun_in : value_op2) : t :=
  {| _find_weakness := _find_weakness r;
     _list := _list r ++ [ {| name := name_in; fun_ := fun_in; cost := 1 |} ] |}.

Definition name_of (r : t) (op : Z) : outcome string :=
  e ← vec_at (_list r) op; Ok (name e).

Definition cost_of (r : t) (op : Z) : outcome Z :=
  e ← vec_at (_list r) op; Ok (cost e).

Definition max_op (r : t) : Z := size_t_wrap (vsize (_list r) - 1).

Definition perform (r : t) (op : Z) (lhs rhs : Value) : outcome Value :=
  e ← vec_at (_list r) op; Ok (fun_ e lhs rhs).
End OpRepo.

(** Monadic left fold, for the [for (... : vec)] loops. *)
Fixpoint foldM {A B} (f : B -> A -> outcome B) (b : B) (l : list A) : outcome B :=
  match l with
  | [] => Ok b
  | a :: l' => b' ← f b a; foldM f b' l'
  end.

(** Unsigned division and remainder; a zero divisor is undefined behaviour. *)
Definition udiv (a b : Z) : outcome Z := if b =? 0 then Undefined else Ok (a / b).
Definition umod (a b : Z) : outcome Z := if b =? 0 then Undefined else Ok (a mod b).

(** [%zu] *)
Definition format_zu (n : Z) : string :=
  NilZero.string_of_uint (N.to_uint (Z.to_N n)).

(** ** struct Program *)

Module Program.

(** *** class Ref *)
Module Ref.
Record t := mk { idx : Z }.  (* negative: input, zero/positive: operation_result *)

Definition is_input (r : t) : bool := idx r <? 0.
Definition is_operation (r : t) : bool := 0 <=? idx r.
(** [-(idx + 1)] is computed in [int] (no overflow for [idx < INT_MAX]) and
    converted to [size_t]. *)
Definition in_idx (r : t) : Z := size_t_wrap (- (idx r + 1)).
Definition op_idx (r : t) : Z := size_t_wrap (idx r).
Definition eqb (a rhs : t) : bool := idx a =? idx rhs.
Definition in_ (idx_in : Z) : t := mk (- int_wrap (size_t_wrap (idx_in + 1))).
Definition op (idx_in : Z) : t := mk (int_wrap idx_in).
Definition nop : t := in_ 0.

Section WithGen.
Context `{RandomGen}.
(** [Ref(rnd_in.get(-in_cnt, op_cnt - 1))]: both bounds are [size_t]
    expressions narrowed to [int]. *)
Definition rnd (rnd_in : rnd_state) (in_cnt op_cnt : Z) : outcome (t * rnd_state) :=
  '(v, s) ← Random.get rnd_in (int_wrap (size_t_wrap (- in_cnt)))
                             (int_wrap (size_t_wrap (op_cnt - 1)));
  Ok (mk v, s).
End WithGen.
End Ref.

(** *** struct Op *)
Module Op.
Record t := mk { code : Z; lhs : Ref.t; rhs : Ref.t }.
End Op.

(** *** struct Stats *)
Module Stats.
Record t := mk { weakness : Weakness; cost : Z; born : Z }.

Definition new (gen : Z) : t := mk 0%float 0 gen.

(** [operator<] *)
Definition lt (a rhs : t) : bool :=
  if negb (weakness a =? weakness rhs)%float then
    (weakness a <? weakness rhs)%float
  else if negb (cost a =? cost rhs) then
    cost a <? cost rhs
  else
    born rhs <? born a. (* younger is better *)
End Stats.

Record t := mk {
  _repo : OpRepo.t;
  _stats : Stats.t;
  _in_cnt : Z;
  _out_cnt : Z;
  _program : list Op.t;
  _best_slot : Z
}.

Definition with_program (p : t) (ops : list Op.t) : t :=
  mk (_repo p) (_stats p) (_in_cnt p) (_out_cnt p) ops (_best_slot p).

Definition with_stats (p : t) (st : Stats.t) (slot : Z) : t :=
  mk (_repo p) st (_in_cnt p) (_out_cnt p) (_program p) slot.

(** [Program(repo, in_cnt, out_cnt, gen)] *)
Definition new (repo : OpRepo.t) (in_cnt out_cnt gen : Z) : t :=
  mk repo (Stats.new gen) in_cnt out_cnt [] 0.

(** The two file-local [get] overloads of gp.cpp. *)
Definition get_value (input : Input) (values : list Value) (ref : Ref.t) : outcome Value :=
  if Ref.is_input ref then vec_at input (Ref.in_idx ref)
  else vec_at values (Ref.op_idx ref).

Definition get_size (sizes : list Z) (ref : Ref.t) : outcome Z :=
  if Ref.is_input ref then Ok 1 else vec_at sizes (Ref.op_idx ref).

Definition assert_valid (p : t) (ref : Ref.t) (limit : Z) : outcome unit :=
  _ ← assert (negb (Bool.eqb (Ref.is_input ref) (Ref.is_operation ref)));
  _ ← (if Ref.is_input ref then assert (Ref.in_idx ref <? _in_cnt p) else Ok tt);
  if Ref.is_operation ref then assert (Ref.op_idx ref <? limit) else Ok tt.

Definition add_op (p : t) (code : Z) (lhs rhs : Ref.t) : outcome (Ref.t * t) :=
  let op_idx := vsize (_program p) in
  _ ← assert (code <=? OpRepo.max_op (_repo p));
  _ ← assert_valid p lhs op_idx;
  _ ← assert_valid p rhs op_idx;
  Ok (Ref.op op_idx, with_program p (_program p ++ [Op.mk code lhs rhs])).

Definition add_forward (p : t) (ref : Ref.t) : outcome (Ref.t * t) :=
  add_op p 0 ref Ref.nop.

Definition reborn (p : t) (gen : Z) : t :=
  with_stats p (Stats.mk (Stats.weakness (_stats p)) (Stats.cost (_stats p)) gen)
             (_best_slot p).

Definition stats (p : t) : Stats.t := _stats p.

(** [Program::operator<] *)
Definition lt (a rhs : t) : bool := Stats.lt (stats a) (stats rhs).

Definition num_inputs (p : t) : Z := _in_cnt p.
Definition num_outputs (p : t) : Z := _out_cnt p.
(* size_t num_alternatives() const override { return 1; } // HACK *)
Definition num_alternatives (p : t) : Z := 1.

(** *** get_cost *)

(** The [while (!todo.empty())] loop; the head of [todo] is [todo.back()]. *)
Fixpoint get_cost_loop (fuel : nat) (p : t) (todo : list Ref.t) (done : list bool)
    (cost : Z) : outcome Z :=
  match todo with
  | [] => Ok cost
  | ref :: todo =>
    match fuel with
    | O => OutOfFuel
    | S fuel =>
      if Ref.is_operation ref then
        d ← vec_at done (Ref.op_idx ref);
        if negb d then
          op ← vec_at (_program p) (Ref.op_idx ref);
          c ← OpRepo.cost_of (_repo p) (Op.code op);
          let cost := size_t_wrap (cost + c) in
          let todo := Op.lhs op :: todo in
          let todo := if 0 <? Op.code op then Op.rhs op :: todo else todo in
          get_cost_loop fuel p todo (<[Z.to_nat (Ref.op_idx ref) := true]> done) cost
        else get_cost_loop fuel p todo done cost
      else get_cost_loop fuel p todo done cost
    end
  end.

(** Every iteration pops one reference and at most two are pushed per
    operation, so [out_cnt + 2 * size + 1] iterations are never used up. *)
Definition get_cost (p : t) (slot : Z) : outcome Z :=
  let offset := size_t_wrap (slot * _out_cnt p) in
  _ ← assert (size_t_wrap (offset + _out_cnt p) <=? vsize (_program p));
  let done := replicate (length (_program p)) false in
  let todo := rev (map (fun i => Ref.op (size_t_wrap (offset + Z.of_nat i)))
                       (seq 0 (Z.to_nat (_out_cnt p)))) in
  get_cost_loop (Z.to_nat (_out_cnt p) + 2 * length (_program p) + 1) p todo done 0.

(** *** size_of *)

Definition size_step (sizes : list Z) (op : Op.t) : outcome (list Z) :=
  if Op.code op =? 0 then
    l ← get_size sizes (Op.lhs op);
    Ok (sizes ++ [l]) (* forward *)
  else
    l ← get_size sizes (Op.lhs op);
    r ← get_size sizes (Op.rhs op);
    Ok (sizes ++ [size_t_wrap (1 + l + r)]).

Definition size_of (p : t) (ref : Ref.t) : outcome Z :=
  _ ← assert_valid p ref (vsize (_program p));
  if Ref.is_input ref then Ok 1
  else
    (* for (size_t i = 0; i <= ref.op_idx(); ++i) over _program[i] *)
    sizes ← foldM size_step [] (take (Z.to_nat (Ref.op_idx ref) + 1) (_program p));
    match last sizes with
    | Some s => Ok s
    | None => Undefined
    end.

(** *** as_string

    The recursion follows operand references; [fuel] bounds its depth. *)
Fixpoint as_string (fuel : nat) (p : t) (ref : Ref.t) : outcome string :=
  match fuel with
  | O => OutOfFuel
  | S fuel =>
    _ ← assert_valid p ref (vsize (_program p));
    expr_size ← size_of p ref;
    if 9000 <? expr_size then
      (* its over 9000! *)
      Ok ("expr(" ++ format_zu expr_size ++ " nodes)")%string
    else if Ref.is_input ref then
      Ok ("i" ++ format_zu (Ref.in_idx ref))%string
    else
      my_op ← vec_at (_program p) (Ref.op_idx ref);
      if Op.code my_op =? 0 then
        as_string fuel p (Op.lhs my_op) (* forward *)
      else
        n ← OpRepo.name_of (_repo p) (Op.code my_op);
        l ← as_string fuel p (Op.lhs my_op);
        r ← as_string fuel p (Op.rhs my_op);
        Ok (n ++ "(" ++ l ++ "," ++ r ++ ")")%string
  end.

(** *** execute *)

Definition execute_step (p : t) (input : Input)
    (st : Result * list Value * list Value) (op : Op.t)
    : outcome (Result * list Value * list Value) :=
  let '(result, out, values) := st in
  l ← get_value input values (Op.lhs op);
  r ← get_value input values (Op.rhs op);
  value ← OpRepo.perform (_repo p) (Op.code op) l r;
  let values := values ++ [value] in
  let out := out ++ [value] in
  if vsize out =? _out_cnt p then
    (* HACK: only return last one *)
    let result := if vsize values =? vsize (_program p) then result ++ [out] else result in
    Ok (result, [], values)
  else Ok (result, out, values).

Definition execute (p : t) (input : Input) : outcome Result :=
  '(result, _, _) ← foldM (execute_step p input) ([], [], []) (_program p);
  Ok result.

(** The program seen through the [MultiFunction] interface. *)
Definition as_multi (p : t) : MultiFunction.t :=
  MultiFunction.mk (num_inputs p) (num_outputs p) (num_alternatives p) (execute p).

(** *** handle_feedback *)

Definition handle_feedback (p : t) (feedback : Feedback) : outcome t :=
  _ ← assert (vsize feedback =? num_alternatives p);
  if num_alternatives p =? 1 then
    best_slot ← udiv (size_t_wrap (vsize (_program p) - _out_cnt p)) (_out_cnt p);
    w ← vec_at feedback 0;
    c ← get_cost p best_slot;
    Ok (with_stats p (Stats.mk w c (Stats.born (_stats p))) best_slot)
  else
    w ← vec_at feedback 0;
    c ← get_cost p 0;
    let born := Stats.born (_stats p) in
    '(st, slot) ← foldM (fun '(st, slot) i =>
                          w ← vec_at feedback i;
                          c ← get_cost p i;
                          let stats := Stats.mk w c born in
                          if Stats.lt stats st then Ok (stats, i) else Ok (st, slot))
                       (Stats.mk w c born, 0)
                       (map Z.of_nat (seq 1 (length feedback - 1)));
    Ok (with_stats p st slot).

(** *** Randomised construction and mutation *)
Section WithGen.
Context `{RandomGen}.

(** [rnd.get(0, _repo.max_op())], the result widened back to [size_t] *)
Definition rnd_op (rnd : rnd_state) (p : t) : outcome (Z * rnd_state) :=
  '(v, rnd) ← Random.get rnd 0 (int_wrap (OpRepo.max_op (_repo p)));
  Ok (size_t_wrap v, rnd).

Definition rnd_ref (rnd : rnd_state) (p : t) (limit : Z) : outcome (Ref.t * rnd_state) :=
  Ref.rnd rnd (_in_cnt p) limit.

(** The [while (_program.size() < op_cnt)] loop of [grow].  The three
    draws are function arguments, whose evaluation order C++ leaves open;
    they are taken left to right. *)
Fixpoint grow_loop (fuel : nat) (rnd : rnd_state) (p : t) (op_cnt : Z)
    : outcome (t * rnd_state) :=
  if vsize (_program p) <? op_cnt then
    match fuel with
    | O => OutOfFuel
    | S fuel =>
      let op_idx := vsize (_program p) in
      '(code, rnd) ← rnd_op rnd p;
      '(lhs, rnd) ← rnd_ref rnd p op_idx;
      '(rhs, rnd) ← rnd_ref rnd p op_idx;
      '(_, p) ← add_op p code lhs rhs;
      grow_loop fuel rnd p op_cnt
    end
  else Ok (p, rnd).

Definition grow (rnd : rnd_state) (p : t) (op_cnt : Z) : outcome (t * rnd_state) :=
  q ← udiv op_cnt (_out_cnt p);
  _ ← assert (1 <=? q);
  m ← umod op_cnt (_out_cnt p);
  _ ← assert (m =? 0);
  grow_loop (Z.to_nat op_cnt) rnd p op_cnt.

Definition mutate (rnd : rnd_state) (p : t) : outcome (t * rnd_state) :=
  '(v, rnd) ← Random.get rnd 0 (int_wrap (size_t_wrap (vsize (_program p) - 1)));
  let mut_idx := size_t_wrap v in
  op ← vec_at (_program p) mut_idx;
  '(v, rnd) ← Random.get rnd 0 2;
  let sel := size_t_wrap v in
  if sel =? 0 then
    '(c, rnd) ← rnd_op rnd p;
    Ok (with_program p (<[Z.to_nat mut_idx := Op.mk c (Op.lhs op) (Op.rhs op)]>
                          (_program p)), rnd)
  else if sel =? 1 then
    '(r, rnd) ← rnd_ref rnd p mut_idx;
    Ok (with_program p (<[Z.to_nat mut_idx := Op.mk (Op.code op) r (Op.rhs op)]>
                          (_program p)), rnd)
  else
    _ ← assert (sel =? 2);
    '(r, rnd) ← rnd_ref rnd p mut_idx;
    Ok (with_program p (<[Z.to_nat mut_idx := Op.mk (Op.code op) (Op.lhs op) r]>
                          (_program p)), rnd).
End WithGen.

End Program.

(** [OpRepo::find_weakness(Sim &sim)], with [Program] as the [Sim]. *)
Definition find_weakness (repo : OpRepo.t) (sim : Program.t) : outcome Program.t :=
  feedback ← OpRepo._find_weakness repo (Program.as_multi sim);
  Program.handle_feedback sim feedback.

(** ** std::sort

    Library code.  It requires the comparison to be a strict weak ordering of
    the elements: irreflexive, transitive, and with a transitive
    incomparability.  The result is then the sorted permutation, fixed up to
    the order of equivalent elements; the model takes the one an insertion
    sort gives.  With any other comparison the behaviour is undefined. *)
Section Sort.
Context {A : Type} (less : A -> A -> bool).

Fixpoint sort_insert (x : A) (l : list A) : list A :=
  match l with
  | [] => [x]
  | y :: l' => if less x y then x :: l else y :: sort_insert x l'
  end.

Definition insertion_sort (l : list A) : list A := foldr sort_insert [] l.

Definition incomparable (a b : A) : bool := negb (less a b) && negb (less b a).

Definition strict_weak_on (l : list A) : bool :=
  forallb (fun a =>
    negb (less a a)
    && forallb (fun b =>
         forallb (fun c =>
           implb (less a b && less b c) (less a c)
           && implb (incomparable a b && incomparable b c) (incomparable a c)) l) l) l.

Definition std_sort (l : list A) : outcome (list A) :=
  if strict_weak_on l then Ok (insertion_sort l) else Undefined.
End Sort.

(** ** struct Population *)

Module Population.
Section WithGen.
Context `{RandomGen}.

Record t := mk {
  _rnd : rnd_state;
  _gen : Z;
  _params : Params;
  _repo : OpRepo.t;
  _programs : list Program.t
}.

Definition with_rnd (pop : t) (rnd : rnd_state) : t :=
  mk rnd (_gen pop) (_params pop) (_repo pop) (_programs pop).

Definition with_programs (pop : t) (ps : list Program.t) : t :=
  mk (_rnd pop) (_gen pop) (_params pop) (_repo pop) ps.

Definition with_gen (pop : t) (gen : Z) : t :=
  mk (_rnd pop) gen (_params pop) (_repo pop) (_programs pop).

Fixpoint grow_loop (fuel : nat) (pop : t) : outcome t :=
  if vsize (_programs pop) <? pop_cnt (_params pop) then
    match fuel with
    | O => OutOfFuel
    | S fuel =>
      let prog := Program.new (_repo pop) (in_cnt (_params pop))
                              (out_cnt (_params pop)) (_gen pop) in
      '(prog, rnd) ← Program.grow (_rnd pop) prog (op_cnt (_params pop));
      prog ← find_weakness (_repo pop) prog;
      grow_loop fuel (with_programs (with_rnd pop rnd) (_programs pop ++ [prog]))
    end
  else Ok pop.

Definition grow (pop : t) : outcome t :=
  pop ← grow_loop (Z.to_nat (pop_cnt (_params pop))) pop;
  ps ← std_sort Program.lt (_programs pop);
  Ok (with_programs pop ps).

(** [Population(params, repo, seed)]; the seeded generator is passed in. *)
Definition new (params : Params) (repo : OpRepo.t) (rnd : rnd_state) : outcome t :=
  pop ← grow (mk rnd 0 params repo []);
  _ ← assert (vsize (_programs pop) =? pop_cnt params);
  Ok pop.

(** The index computed inside [select]. *)
Definition select_index (rnd : rnd_state) (limit : Z) : outcome (Z * rnd_state) :=
  '(a, rnd) ← Random.get rnd 0 (int_wrap (size_t_wrap (limit - 1)));
  '(b, rnd) ← Random.get rnd 0 (int_wrap (size_t_wrap (limit - 1)));
  Ok (size_t_wrap (Z.min a b), rnd).

Definition select (pop : t) (limit : Z) : outcome (Program.t * t) :=
  '(i, rnd) ← select_index (_rnd pop) limit;
  p ← vec_at (_programs pop) i;
  Ok (p, with_rnd pop rnd).

(** The [do ... while (_rnd.get(0,99) < 66)] loop of [mutate]. *)
Fixpoint mutate_loop (fuel : nat) (rnd : rnd_state) (new_prog : Program.t)
    : outcome (Program.t * rnd_state) :=
  match fuel with
  | O => OutOfFuel
  | S fuel =>
    '(new_prog, rnd) ← Program.mutate rnd new_prog;
    '(v, rnd) ← Random.get rnd 0 99;
    if v <? 66 then mutate_loop fuel rnd new_prog else Ok (new_prog, rnd)
  end.

Definition mutate (fuel : nat) (pop : t) (a : Program.t) : outcome (Program.t * t) :=
  '(new_prog, rnd) ← mutate_loop fuel (_rnd pop) a;
  Ok (Program.reborn new_prog (_gen pop), with_rnd pop rnd).

(** [while (_programs.size() > apex_cnt) _programs.pop_back();] *)
Fixpoint pop_back_loop (n : nat) (ps : list Program.t) (apex_cnt : Z) : list Program.t :=
  match n with
  | O => ps
  | S n => if apex_cnt <? vsize ps then pop_back_loop n (removelast ps) apex_cnt else ps
  end.

(** [while (_programs.size() < _params.pop_cnt) { push_back(mutate(select(apex_cnt))); ... }] *)
Fixpoint refill_loop (fuel : nat) (n : nat) (pop : t) (apex_cnt : Z) : outcome t :=
  if vsize (_programs pop) <? pop_cnt (_params pop) then
    match n with
    | O => OutOfFuel
    | S n =>
      '(parent, pop) ← select pop apex_cnt;
      '(child, pop) ← mutate fuel pop parent;
      child ← find_weakness (_repo pop) child;
      refill_loop fuel n (with_programs pop (_programs pop ++ [child])) apex_cnt
    end
  else Ok pop.

(** [fuel] bounds the number of rounds of each [mutate] call. *)
Definition tick (fuel : nat) (pop : t) : outcome t :=
  let pop := with_gen pop (size_t_wrap (_gen pop + 1)) in
  let apex_cnt := pop_cnt (_params pop) / 10 in
  let pop := with_programs pop
               (pop_back_loop (length (_programs pop)) (_programs pop) apex_cnt) in
  pop ← refill_loop fuel (Z.to_nat (pop_cnt (_params pop))) pop apex_cnt;
  ps ← std_sort Program.lt (_programs pop);
  Ok (with_programs pop ps).
End WithGen.
End Population.

(** ** ponder_nov2017.cpp: the test catalog and fitness function *)

Module Ponder.

(* illegal div/mod will result in 0 *)
Definition div_ok (a b : Z) : bool :=
  if (a =? INT_MIN) && (b =? -1) then false else negb (b =? 0).

(** [int] addition, subtraction and multiplication: a result outside [int]
    is undefined behaviour. *)
Definition my_add (a b : Z) : outcome Z :=
  if (INT_MIN <=? a + b) && (a + b <=? INT_MAX) then Ok (a + b) else Undefined.
Definition my_sub (a b : Z) : outcome Z :=
  if (INT_MIN <=? a - b) && (a - b <=? INT_MAX) then Ok (a - b) else Undefined.
Definition my_mul (a b : Z) : outcome Z :=
  if (INT_MIN <=? a * b) && (a * b <=? INT_MAX) then Ok (a * b) else Undefined.
Definition my_div (a b : Z) : Z := if div_ok a b then Z.quot a b else 0.
Definition my_mod (a b : Z) : Z := if div_ok a b then Z.rem a b else 0.
Definition my_and (a b : Z) : Z := Z.land a b.
Definition my_or (a b : Z) : Z := Z.lor a b.
Definition my_xor (a b : Z) : Z := Z.lxor a b.

(** *** struct Dist *)
Definition Dist := list Z.
Definition Dist_new : Dist := replicate 24 0.

Definition sample (slots : Dist) (x y z : Z) : outcome Dist :=
  let post_x := Z.land x 1 in
  let post_y := Z.land y 1 in
  let post_z := int_wrap (size_t_wrap z mod 6) in
  _ ← assert (0 <=? post_x);
  _ ← assert (0 <=? post_y);
  _ ← assert (0 <=? post_z);
  _ ← assert (post_x <? 2);
  _ ← assert (post_y <? 2);
  _ ← assert (post_z <? 6);
  let slot := Z.lor (Z.lor (Z.shiftl post_z 2) (Z.shiftl post_y 1)) post_x in
  _ ← assert (size_t_wrap slot <? vsize slots);
  cnt ← vec_at slots slot;
  Ok (<[Z.to_nat slot := int_wrap (cnt + 1)]> slots).

Definition error (slots : Dist) : Z :=
  fold_left (fun err cnt => size_t_wrap (err + (Z.max cnt 9 - Z.min cnt 9))) slots 0.

Definition dice : list Z := [1; 2; 3; 4; 5; 6].

(** One round of the innermost loop body of [find_weakness]. *)
Definition find_weakness_round (fun_ : MultiFunction.t) (state : list Dist)
    (d : Z * Z * Z) : outcome (list Dist) :=
  let '(d1, d2, d3) := d in
  input ← std_sort Z.ltb [d1; d2; d3];
  let input :=
    if MultiFunction.num_inputs fun_ =? 6 then input ++ [2; 1502; 70677] else input in
  result ← MultiFunction.execute fun_ input;
  _ ← assert (vsize result =? vsize state);
  foldM (fun st i =>
           output ← vec_at result (Z.of_nat i);
           _ ← assert (vsize output =? 3);
           o0 ← vec_at output 0;
           o1 ← vec_at output 1;
           o2 ← vec_at output 2;
           dist ← vec_at st (Z.of_nat i);
           dist ← sample dist o0 o1 o2;
           Ok (<[i := dist]> st))
        state (seq 0 (length result)).

Definition find_weakness (fun_ : MultiFunction.t) : outcome Feedback :=
  let state := replicate (Z.to_nat (MultiFunction.num_alternatives fun_)) Dist_new in
  state ← foldM (find_weakness_round fun_) state
            (d1 ← dice; d2 ← dice; d3 ← dice; [(d1, d2, d3)]);
  Ok (map (fun dist => PrimFloat.of_uint63 (Uint63.of_Z (error dist))) state).

(** A catalog entry is a plain function pointer, and a call of it yields a
    [Value].  Where the behaviour of the function is undefined there is no
    such value: the entry built by [returned] gives 0 there, and
    [call_defined] below tells these calls apart. *)
Definition returned (f : Z -> Z -> outcome Z) (a b : Z) : Z := from_outcome 0 (f a b).

(** [pow] of libm followed by the conversion to [int] is not part of the
    sources; [my_pow] is taken as given. *)
Section Repo.
Variable my_pow : Z -> Z -> Z.

Definition my_repo : OpRepo.t :=
  let r := OpRepo.new find_weakness in
  let r := OpRepo.add r "add" (returned my_add) in (* 1 *)
  let r := OpRepo.add r "sub" (returned my_sub) in (* 2 *)
  let r := OpRepo.add r "mul" (returned my_mul) in (* 3 *)
  let r := OpRepo.add r "div" my_div in (* 4 *)
  let r := OpRepo.add r "mod" my_mod in (* 5 *)
  let r := OpRepo.add r "pow" my_pow in (* 6 *)
  let r := OpRepo.add r "and" my_and in (* 7 *)
  let r := OpRepo.add r "or" my_or in   (* 8 *)
  OpRepo.add r "xor" my_xor.            (* 9 *)
End Repo.

Definition add_id : Z := 1.
Definition sub_id : Z := 2.
Definition mul_id : Z := 3.
Definition div_id : Z := 4.
Definition pow_id : Z := 6.

(** The calls of the catalog whose behaviour is defined: the three
    arithmetic functions must not overflow, [pow_ok] says where the call of
    [pow] and the conversion of its result are defined, and the remaining
    functions are defined on all operands. *)
Definition call_defined (pow_ok : Z -> Z -> bool) (code a b : Z) : bool :=
  if code =? add_id then is_ok (my_add a b)
  else if code =? sub_id then is_ok (my_sub a b)
  else if code =? mul_id then is_ok (my_mul a b)
  else if code =? pow_id then pow_ok a b
  else true.

(** TEST("evaluating hand-crafted solution"): the program it builds. *)
Definition hand_crafted (my_pow : Z -> Z -> Z) : outcome Program.t :=
  (* constants are modeled as inputs *)
  let prog := Program.new (my_repo my_pow) 6 3 0 in
  let a := Program.Ref.in_ 0 in
  let b := Program.Ref.in_ 1 in
  let c := Program.Ref.in_ 2 in
  let k1 := Program.Ref.in_ 3 in
  let k2 := Program.Ref.in_ 4 in
  let k3 := Program.Ref.in_ 5 in
  (* --- slot 0 *)
  '(_1, prog) ← Program.add_op prog sub_id c a;
  '(_2, prog) ← Program.add_op prog add_id c a;
  '(_3, prog) ← Program.add_op prog mul_id _1 _2;
  (* --- slot 1 (zero-cost forward layer) *)
  '(_1, prog) ← Program.add_forward prog _1;
  '(_2, prog) ← Program.add_forward prog _2;
  '(_3, prog) ← Program.add_forward prog _3;
  (* --- slot 2 *)
  '(_4, prog) ← Program.add_op prog div_id _3 k1;
  '(d, prog) ← Program.add_op prog pow_id k1 _4;
  '(_5, prog) ← Program.add_op prog add_id a b;
  (* --- slot 3 *)
  '(x, prog) ← Program.add_op prog div_id k2 d;
  '(y, prog) ← Program.add_op prog div_id k3 d;
  '(z, prog) ← Program.add_op prog add_id _5 c;
  Ok prog.

Definition my_params : Params :=
  {| in_cnt := 3; out_cnt := 3; op_cnt := 33; pop_cnt := 100 |}.

End Ponder.

(** ** Specification-level definitions *)

(** An order-preserving key for the doubles that are numbers. *)
Definition sf_key (x : spec_float) : Z * Z * Z :=
  match x with
  | S754_nan => (0, 0, 0)
  | S754_zero _ => (0, 0, 0)
  | S754_infinity s => (if s then -2 else 2, 0, 0)
  | S754_finite s m e => if s then (-1, - e, Z.neg m) else (1, e, Z.pos m)
  end.

Definition key_lt (a b : Z * Z * Z) : Prop :=
  let '(a1, a2, a3) := a in
  let '(b1, b2, b3) := b in
  a1 < b1 \/ (a1 = b1 /\ (a2 < b2 \/ (a2 = b2 /\ a3 < b3))).

Definition sf_is_nan (x : spec_float) : bool :=
  match x with S754_nan => true | _ => false end.

Definition float_key (w : float) : Z * Z * Z := sf_key (Prim2SF w).


(** An instance of [my_pow] for concrete runs.  The power of two [int]s is
    taken as exact and the conversion truncates toward zero: a negative
    exponent gives 1 for base 1, 1 or -1 for base -1, and 0 for a base of
    magnitude 2 or more.  [int_pow_ok] holds where the result exists and fits
    an [int]; elsewhere (base 0 with a negative exponent, or a power beyond
    [int]) the conversion is undefined and [int_pow] gives 0. *)
Definition int_pow_ok (a b : Z) : bool :=
  if b <? 0 then negb (a =? 0)
  else if Z.abs a <=? 1 then true
  else if b <=? 31 then (INT_MIN <=? a ^ b) && (a ^ b <=? INT_MAX)
  else false.

Definition int_pow (a b : Z) : Z :=
  if negb (int_pow_ok a b) then 0
  else if a =? 1 then 1
  else if a =? -1 then (if Z.even b then 1 else -1)
  else if b <? 0 then 0
  else a ^ b.

(** The catalog of the test with that instance. *)
Definition test_repo : OpRepo.t := Ponder.my_repo int_pow.

(** ** Well-formedness

    What [add_op] checks when it appends at position [pos]: the code is in the
    catalog's range and each operand is an input index below [in_cnt] or an
    operation index below [pos]. *)
Definition operand_ok (in_cnt limit : Z) (r : Program.Ref.t) : Prop :=
  is_int (Program.Ref.idx r) /\
  ((Program.Ref.is_input r = true /\ 0 <= Program.Ref.in_idx r < in_cnt)
   \/ (Program.Ref.is_operation r = true /\ 0 <= Program.Ref.op_idx r < limit)).

Definition op_ok (p : Program.t) (pos : Z) (op : Program.Op.t) : Prop :=
  0 <= Program.Op.code op <= OpRepo.max_op (Program._repo p)
  /\ operand_ok (Program._in_cnt p) pos (Program.Op.lhs op)
  /\ operand_ok (Program._in_cnt p) pos (Program.Op.rhs op).

Definition valid_program (p : Program.t) : Prop :=
  forall (i : nat) (op : Program.Op.t),
    Program._program p !! i = Some op -> op_ok p (Z.of_nat i) op.

(** The same checks as a boolean, for concrete programs. *)
Definition is_intb (z : Z) : bool := (INT_MIN <=? z) && (z <=? INT_MAX).

Definition operand_okb (in_cnt limit : Z) (r : Program.Ref.t) : bool :=
  is_intb (Program.Ref.idx r)
  && (if Program.Ref.is_input r
      then (0 <=? Program.Ref.in_idx r) && (Program.Ref.in_idx r <? in_cnt)
      else (0 <=? Program.Ref.op_idx r) && (Program.Ref.op_idx r <? limit)).

Definition op_okb (p : Program.t) (pos : Z) (op : Program.Op.t) : bool :=
  (0 <=? Program.Op.code op)
  && (Program.Op.code op <=? OpRepo.max_op (Program._repo p))
  && operand_okb (Program._in_cnt p) pos (Program.Op.lhs op)
  && operand_okb (Program._in_cnt p) pos (Program.Op.rhs op).

Definition valid_programb (p : Program.t) : bool :=
  forallb (fun b : bool => b)
          (imap (fun i op => op_okb p (Z.of_nat i) op) (Program._program p)).

(** A catalog holds at least the forward entry, and its size is a [size_t]. *)
Definition repo_ok (r : OpRepo.t) : Prop := 1 <= vsize (OpRepo._list r) <= 2 ^ 64.

(** ** execute: the value of every operation

    The loop of [execute] without the grouping into outputs. *)
Definition value_step (p : Program.t) (input : Input) (values : list Value)
    (op : Program.Op.t) : outcome (list Value) :=
  l ← Program.get_value input values (Program.Op.lhs op);
  r ← Program.get_value input values (Program.Op.rhs op);
  value ← OpRepo.perform (Program._repo p) (Program.Op.code op) l r;
  Ok (values ++ [value]).

Definition all_values (p : Program.t) (input : Input) : outcome (list Value) :=
  foldM (value_step p input) [] (Program._program p).

(** The hand-crafted program of the test, over [test_repo]. *)
Definition hand_crafted_program : Program.t :=
  from_outcome (Program.new test_repo 6 3 0) (Ponder.hand_crafted int_pow).

(** Dice 1, 2, 3 followed by the three constants of the test. *)
Definition hand_crafted_input : Input := [1; 2; 3; 2; 1502; 70677].


(** What [mutate] may do to one operation: at most one field differs. *)
Definition one_field_edit (op op' : Program.Op.t) : Prop :=
  (Program.Op.lhs op' = Program.Op.lhs op /\ Program.Op.rhs op' = Program.Op.rhs op)
  \/ (Program.Op.code op' = Program.Op.code op /\ Program.Op.rhs op' = Program.Op.rhs op)
  \/ (Program.Op.code op' = Program.Op.code op /\ Program.Op.lhs op' = Program.Op.lhs op).

(** ** Population order *)

(** Non-decreasing from front to back: no later program is better than an
    earlier one. *)
Definition sorted_programs (ps : list Program.t) : Prop :=
  forall (i j : nat) a b,
    (i < j)%nat -> ps !! i = Some a -> ps !! j = Some b -> Program.lt b a = false.

(** The weakness is a number (not NaN). *)
Definition is_number (p : Program.t) : bool :=
  negb (PrimFloat.is_nan (Program.Stats.weakness (Program.stats p))).

Definition all_numbers (ps : list Program.t) : bool := forallb is_number ps.

(** The Stats order as a lexicographic order on integer keys. *)
Definition stats_key (s : Program.Stats.t) : Z * Z * Z * Z * Z :=
  (float_key (Program.Stats.weakness s), Program.Stats.cost s, - Program.Stats.born s).

Definition stats_key_lt (a b : Z * Z * Z * Z * Z) : Prop :=
  let '(wa, ca, ba) := a in
  let '(wb, cb, bb) := b in
  key_lt wa wb \/ (wa = wb /\ (ca < cb \/ (ca = cb /\ ba < bb))).


(** A small run: ten programs of six operations over the test catalog, and
    the population one tick later. *)
Definition small_params : Params :=
  {| in_cnt := 3; out_cnt := 3; op_cnt := 6; pop_cnt := 10 |}.

Definition small_start : Population.t :=
  Population.mk Rand48.init 0 small_params test_repo [].

Definition small_population : Population.t :=
  from_outcome small_start (Population.grow small_start).

Definition small_population_next : Population.t :=
  from_outcome small_start (Population.tick 64 small_population).

(** ** Expressions, their size and their tokens

    The expression a reference stands for, with forward operations skipped
    and shared operations expanded at every use. *)
Inductive expr : Type :=
| Leaf (input : Z)
| Node (code : Z) (l r : expr).

(** Number of nodes, without any wrap-around. *)
Fixpoint expr_nodes (e : expr) : Z :=
  match e with
  | Leaf _ => 1
  | Node _ l r => 1 + expr_nodes l + expr_nodes r
  end.

Definition expr_get (tbl : list expr) (r : Program.Ref.t) : expr :=
  if Program.Ref.is_input r then Leaf (Program.Ref.in_idx r)
  else default (Leaf 0) (tbl !! Z.to_nat (Program.Ref.op_idx r)).

Definition expr_entry (tbl : list expr) (op : Program.Op.t) : expr :=
  if Program.Op.code op =? 0 then expr_get tbl (Program.Op.lhs op)
  else Node (Program.Op.code op) (expr_get tbl (Program.Op.lhs op))
            (expr_get tbl (Program.Op.rhs op)).

Definition expr_table (ops : list Program.Op.t) : list expr :=
  fold_left (fun tbl op => tbl ++ [expr_entry tbl op]) ops [].

Definition expr_of (p : Program.t) (r : Program.Ref.t) : expr :=
  expr_get (expr_table (Program._program p)) r.

Definition op_name (repo : OpRepo.t) (code : Z) : string :=
  match OpRepo._list repo !! Z.to_nat code with
  | Some e => OpRepo.name e
  | None => EmptyString
  end.

Fixpoint render (repo : OpRepo.t) (e : expr) : string :=
  match e with
  | Leaf n => "i" ++ format_zu n
  | Node c l r => op_name repo c ++ "(" ++ render repo l ++ "," ++ render repo r ++ ")"
  end%string.

(** Tokens of a rendered string: maximal runs of characters other than
    [(], [,] and [)].  A token followed by [(] is an operation-name token when
    it is a name of the catalog; a token [iN] (N a decimal number) followed by
    [,], [)] or the end of the string is an input token. *)
Definition is_delim (c : ascii) : bool :=
  (c =? "(")%char || (c =? ",")%char || (c =? ")")%char.

Definition is_digit (c : ascii) : bool :=
  (48 <=? nat_of_ascii c)%nat && (nat_of_ascii c <=? 57)%nat.

Fixpoint all_digits (s : string) : bool :=
  match s with
  | EmptyString => true
  | String c s' => is_digit c && all_digits s'
  end.

Definition is_input_token (tok : string) : bool :=
  match tok with
  | String c ds => (c =? "i")%char && negb (ds =? "")%string && all_digits ds
  | EmptyString => false
  end.

Definition is_op_name (repo : OpRepo.t) (tok : string) : bool :=
  existsb (fun e => (OpRepo.name e =? tok)%string) (OpRepo._list repo).

Fixpoint count_tokens_from (repo : OpRepo.t) (s cur : string) : Z :=
  match s with
  | EmptyString => if is_input_token cur then 1 else 0
  | String c s' =>
    if (c =? "(")%char then
      (if is_op_name repo cur then 1 else 0) + count_tokens_from repo s' EmptyString
    else if (c =? ",")%char || (c =? ")")%char then
      (if is_input_token cur then 1 else 0) + count_tokens_from repo s' EmptyString
    else count_tokens_from repo s' (cur ++ String c EmptyString)
  end.

(** The size re-derived from a rendered string. *)
Definition count_tokens (repo : OpRepo.t) (s : string) : Z :=
  count_tokens_from repo s EmptyString.

Fixpoint no_delim (s : string) : bool :=
  match s with
  | EmptyString => true
  | String c s' => negb (is_delim c) && no_delim s'
  end.

(** No name of the catalog contains [(], [,] or [)]. *)
Definition names_ok (repo : OpRepo.t) : bool :=
  forallb (fun e => no_delim (OpRepo.name e)) (OpRepo._list repo).

(** A program whose expression sizes double at every operation:
    operation 0 is [add(i0,i0)], operation k (1 <= k <= 62) adds operation
    k-1 to itself, and operation 63 is [add(op62, i0)]. *)
Definition doubling_ops : list Program.Op.t :=
  Program.Op.mk 1 (Program.Ref.in_ 0) (Program.Ref.in_ 0)
  :: map (fun k => Program.Op.mk 1 (Program.Ref.op (Z.of_nat k - 1))
                                   (Program.Ref.op (Z.of_nat k - 1)))
         (seq 1 62)
  ++ [Program.Op.mk 1 (Program.Ref.op 62) (Program.Ref.in_ 0)].

Definition doubling_program : Program.t :=
  Program.mk test_repo (Program.Stats.new 0) 1 1 doubling_ops 0.

(** The codes of an expression are codes of the catalog. *)
Fixpoint expr_codes_ok (repo : OpRepo.t) (e : expr) : Prop :=
  match e with
  | Leaf _ => True
  | Node c l r =>
    0 <= c < vsize (OpRepo._list repo) /\ expr_codes_ok repo l /\ expr_codes_ok repo r
  end.

(** What ends an expression inside a rendered string. *)
Definition closes (rest : string) : Prop :=
  rest = EmptyString \/ exists rest', rest = String "," rest' \/ rest = String ")" rest'.


(** Number of operations not yet visited by the walk of [get_cost]. *)
Fixpoint count_undone (done : list bool) : nat :=
  match done with
  | [] => 0
  | b :: done' => (if b then 0 else 1) + count_undone done'
  end.

(** The catalog cost of an operation, and the cost still to be collected from
    the operations that are not marked. *)
Definition op_cost (p : Program.t) (op : Program.Op.t) : Z :=
  match OpRepo._list (Program._repo p) !! Z.to_nat (Program.Op.code op) with
  | Some e => OpRepo.cost e
  | None => 0
  end.

Fixpoint pending_cost (p : Program.t) (done : list bool) (ops : list Program.Op.t) : Z :=
  match done, ops with
  | d :: done', op :: ops' => (if d then 0 else op_cost p op) + pending_cost p done' ops'
  | _, _ => 0
  end.

Definition total_cost (p : Program.t) : Z :=
  pending_cost p (replicate (length (Program._program p)) false) (Program._program p).

Definition costs_nonneg (repo : OpRepo.t) : bool :=
  forallb (fun e => 0 <=? OpRepo.cost e) (OpRepo._list repo).

(** ** The individuals of a population

    What [Population::grow] builds and [tick] keeps: every program is
    well-formed, has [op_cnt] operations and carries the population's input
    count, output count and catalog. *)
Definition individual_ok (params : Params) (repo : OpRepo.t) (q : Program.t) : Prop :=
  valid_program q
  /\ vsize (Program._program q) = op_cnt params
  /\ Program._in_cnt q = in_cnt params
  /\ Program._out_cnt q = out_cnt params
  /\ Program._repo q = repo.

(** The sizes a population is built with fit the [int] draws. *)
Definition params_ok (params : Params) (repo : OpRepo.t) : Prop :=
  1 <= in_cnt params <= 2 ^ 31
  /\ 1 <= op_cnt params <= 2 ^ 31
  /\ 1 <= vsize (OpRepo._list repo) <= 2 ^ 31.

(** A program grown from the initial random state with the small parameters. *)
Definition grown_program : Program.t :=
  fst (from_outcome (Program.new test_repo 3 3 0, Rand48.init)
         (Program.grow Rand48.init (Program.new test_repo 3 3 0) 6)).

(** The hand-crafted program read with five outputs per slot: its twelve
    operations do not divide into groups of five. *)
Definition five_output_program : Program.t :=
  Program.mk test_repo (Program._stats hand_crafted_program) 6 5
             (Program._program hand_crafted_program) 0.

(** A catalog built by the constructor followed by one [add] per entry of
    [ops], in order. *)
Definition registered (hook : OpRepo.feedback_fun)
    (ops : list (string * OpRepo.value_op2)) : OpRepo.t :=
  fold_left (fun r e => OpRepo.add r (fst e) (snd e)) ops (OpRepo.new hook).

(** The sum of the distances of the counts from the target 9. *)
Definition deviation_sum (slots : list Z) : Z :=
  fold_right (fun cnt s => Z.abs (cnt - 9) + s) 0 slots.

(** The number of samples a histogram holds. *)
Definition total_count (slots : list Z) : Z := fold_right Z.add 0 slots.

(** The histograms [find_weakness] works on: 24 counts, none negative. *)
Definition histogram (dist : Ponder.Dist) : Prop :=
  vsize dist = 24 /\ Forall (fun cnt => 0 <= cnt) dist.

(** Parameters of the shape the test uses: three dice (and three constants
    in the hand-crafted case), three outputs per slot. *)
Definition ponder_params (params : Params) : Prop :=
  (in_cnt params = 3 \/ in_cnt params = 6)
  /\ out_cnt params = 3
  /\ (exists k, 1 <= k /\ op_cnt params = k * 3)
  /\ op_cnt params <= 2 ^ 31
  /\ 0 <= pop_cnt params.

(** A population in shape, over the catalog of the test. *)
Definition ponder_population `{RandomGen} (my_pow : Z -> Z -> Z) (params : Params)
    (pop : Population.t) : Prop :=
  Population._params pop = params
  /\ Population._repo pop = Ponder.my_repo my_pow
  /\ vsize (Population._programs pop) = pop_cnt params
  /\ Forall (individual_ok params (Ponder.my_repo my_pow)) (Population._programs pop)
  /\ all_numbers (Population._programs pop) = true
  /\ sorted_programs (Population._programs pop).

(** The operations of the hand-crafted program as a program over
    [test_repo], not yet evaluated. *)
Definition crafted_program : Program.t :=
  Program.mk test_repo (Program.Stats.new 0) 6 3 (Program._program hand_crafted_program) 0.

(** The inputs [find_weakness] runs a function of [in_cnt] inputs on: the 216
    rolls of three dice, each sorted, followed by the three constants when
    there are six inputs. *)
Definition ponder_inputs (in_cnt : Z) : list Input :=
  map (fun d : Z * Z * Z =>
         let '(d1, d2, d3) := d in
         let input := insertion_sort Z.ltb [d1; d2; d3] in
         if in_cnt =? 6 then input ++ [2; 1502; 70677] else input)
      (d1 ← Ponder.dice; d2 ← Ponder.dice; d3 ← Ponder.dice; [(d1, d2, d3)]).

(** Every catalog call of the run of [ops] on [input], continuing from
    [values], has defined behaviour. *)
Fixpoint calls_defined (pow_ok : Z -> Z -> bool) (p : Program.t) (input : Input)
    (values : list Value) (ops : list Program.Op.t) : bool :=
  match ops with
  | [] => true
  | op :: ops =>
    match Program.get_value input values (Program.Op.lhs op),
          Program.get_value input values (Program.Op.rhs op) with
    | Ok l, Ok r =>
      Ponder.call_defined pow_ok (Program.Op.code op) l r
      && match OpRepo.perform (Program._repo p) (Program.Op.code op) l r with
         | Ok v => calls_defined pow_ok p input (values ++ [v]) ops
         | _ => false
         end
    | _, _ => false
    end
  end.

Definition run_defined (pow_ok : Z -> Z -> bool) (p : Program.t) (input : Input) : bool :=
  calls_defined pow_ok p input [] (Program._program p).

(** The [do ... while (_rnd.get(0,99) < 66)] loop of [Population::mutate] as
    a relation: one or more rounds of [Program::mutate], each followed by a
    draw; the loop goes on while the draw is below 66. *)
Inductive mutations `{RandomGen} :
    rnd_state -> Program.t -> rnd_state -> Program.t -> Prop :=
| mutations_last rnd a q rnd1 v rnd2 :
    Program.mutate rnd a = Ok (q, rnd1) ->
    Random.get rnd1 0 99 = Ok (v, rnd2) ->
    66 <= v ->
    mutations rnd a rnd2 q
| mutations_more rnd a q rnd1 v rnd2 rnd3 c :
    Program.mutate rnd a = Ok (q, rnd1) ->
    Random.get rnd1 0 99 = Ok (v, rnd2) ->
    v < 66 ->
    mutations rnd2 q rnd3 c ->
    mutations rnd a rnd3 c.

(** A program appended by [tick]: a member of the population was copied,
    mutated at least once, stamped with the generation, and evaluated by the
    fitness hook, whose feedback [handle_feedback] stored. *)
Definition newcomer `{RandomGen} (repo : OpRepo.t) (gen : Z) (pool : list Program.t)
    (c : Program.t) : Prop :=
  exists parent (rnd rnd' : rnd_state) q feedback,
    parent ∈ pool
    /\ mutations rnd parent rnd' q
    /\ OpRepo._find_weakness repo (Program.as_multi (Program.reborn q gen)) = Ok feedback
    /\ Program.handle_feedback (Program.reborn q gen) feedback = Ok c.

(** Three squarings of the largest die in a row: the fourth product leaves
    [int] on a roll whose largest die shows 6. *)
Definition mul_chain_program : Program.t :=
  Program.mk test_repo (Program.Stats.new 0) 3 3
    [Program.Op.mk Ponder.mul_id (Program.Ref.in_ 2) (Program.Ref.in_ 2);
     Program.Op.mk Ponder.mul_id (Program.Ref.op 0) (Program.Ref.op 0);
     Program.Op.mk Ponder.mul_id (Program.Ref.op 1) (Program.Ref.op 1);
     Program.Op.mk Ponder.mul_id (Program.Ref.op 2) (Program.Ref.op 2);
     Program.Op.mk 0 (Program.Ref.in_ 0) Program.Ref.nop;
     Program.Op.mk 0 (Program.Ref.in_ 1) Program.Ref.nop] 0.

(** A full population of three programs, the middle one with a NaN
    weakness. *)
Definition nan_population : Population.t :=
  Population.mk Rand48.init 0
    {| in_cnt := 3; out_cnt := 3; op_cnt := 3; pop_cnt := 3 |} test_repo
    [Program.mk test_repo (Program.Stats.mk 1%float 3 0) 3 3 [] 0;
     Program.mk test_repo (Program.Stats.mk nan 3 0) 3 3 [] 0;
     Program.mk test_repo (Program.Stats.mk 2%float 3 0) 3 3 [] 0].
(** * Properties *)

(** ** Machine integers *)

Lemma size_t_wrap_small z : 0 <= z < 2 ^ 64 -> size_t_wrap z = z.
Proof. intros. unfold size_t_wrap. apply Z.mod_small. lia. Qed.

Lemma int_wrap_small z : - 2 ^ 31 <= z < 2 ^ 31 -> int_wrap z = z.
Proof. intros. unfold int_wrap. rewrite Z.mod_small; lia. Qed.

Lemma size_t_wrap_range z : 0 <= size_t_wrap z < 2 ^ 64.
Proof. unfold size_t_wrap. apply Z.mod_pos_bound. lia. Qed.

Lemma int_wrap_range z : - 2 ^ 31 <= int_wrap z < 2 ^ 31.
Proof.
  unfold int_wrap.
  pose proof (Z.mod_pos_bound (z + 2 ^ 31) (2 ^ 32) ltac:(lia)). lia.
Qed.

(** Narrowing a [size_t] to [int] only looks at the low 32 bits. *)
Lemma int_wrap_size_t_wrap z : int_wrap (size_t_wrap z) = int_wrap z.
Proof.
  unfold int_wrap, size_t_wrap. f_equal.
  replace (2 ^ 64) with (2 ^ 32 * 2 ^ 32) by lia.
  rewrite Z.rem_mul_r by lia.
  rewrite <- Z.add_assoc, (Z.add_comm (2 ^ 32 * _)), Z.add_assoc.
  rewrite (Z.mul_comm (2 ^ 32)), Z.mod_add by lia.
  rewrite <- Zplus_mod_idemp_l, Z.mod_mod by lia.
  rewrite Zplus_mod_idemp_l. reflexivity.
Qed.

Lemma vsize_nonneg {A} (v : list A) : 0 <= vsize v.
Proof. unfold vsize. lia. Qed.

Lemma vec_at_Ok {A} (v : list A) i a :
  vec_at v i = Ok a <-> 0 <= i /\ v !! Z.to_nat i = Some a.
Proof.
  unfold vec_at, vsize. split.
  - destruct (0 <=? i) eqn:E1, (i <? Z.of_nat (length v)) eqn:E2; simpl; try discriminate.
    destruct (v !! Z.to_nat i) eqn:E; [|discriminate]. intros [= ->]. split; [lia|done].
  - intros [Hi Hl]. pose proof (lookup_lt_Some _ _ _ Hl).
    replace (0 <=? i) with true by lia.
    replace (i <? Z.of_nat (length v)) with true by lia. simpl. by rewrite Hl.
Qed.

Lemma vec_at_in_range {A} (v : list A) i :
  0 <= i < vsize v -> exists a, vec_at v i = Ok a /\ v !! Z.to_nat i = Some a.
Proof.
  intros Hi. unfold vsize in Hi.
  destruct (lookup_lt_is_Some_2 v (Z.to_nat i) ltac:(lia)) as [a Ha].
  exists a. split; [|done]. apply vec_at_Ok. split; [lia|done].
Qed.

Lemma vec_at_out_of_range {A} (v : list A) i :
  vsize v <= i -> vec_at v i = Undefined.
Proof.
  intros Hi. unfold vec_at. replace (i <? vsize v) with false by lia.
  by rewrite andb_false_r.
Qed.

(** ** Comparison of doubles *)

Lemma SFltb_key x y :
  sf_is_nan x = false -> sf_is_nan y = false ->
  (SFltb x y = true <-> key_lt (sf_key x) (sf_key y)).
Proof.
  unfold SFltb.
  destruct x as [sx|sx| |sx mx ex], y as [sy|sy| |sy my ey]; try discriminate; intros _ _;
    repeat match goal with s : bool |- _ => destruct s end; simpl;
    try (split; [discriminate | lia]); try (split; [lia | reflexivity]).
  - destruct (Z.compare_spec ex ey); try rewrite Pos.compare_cont_spec; simpl;
      try destruct (Pos.compare_spec mx my); simpl;
      split; try discriminate; try reflexivity; lia.
  - destruct (Z.compare_spec ex ey); try rewrite Pos.compare_cont_spec; simpl;
      try destruct (Pos.compare_spec mx my); simpl;
      split; try discriminate; try reflexivity; lia.
Qed.

Lemma SFeqb_key x y :
  sf_is_nan x = false -> sf_is_nan y = false ->
  (SFeqb x y = true <-> sf_key x = sf_key y).
Proof.
  unfold SFeqb.
  destruct x as [sx|sx| |sx mx ex], y as [sy|sy| |sy my ey]; try discriminate; intros _ _;
    repeat match goal with s : bool |- _ => destruct s end; simpl;
    try (split; [discriminate | intros [=]; lia]); try (split; [congruence | reflexivity]).
  - destruct (Z.compare_spec ex ey); try rewrite Pos.compare_cont_spec; simpl;
      try destruct (Pos.compare_spec mx my); simpl;
      split; try discriminate; try reflexivity; try (intros [=]; lia); congruence.
  - destruct (Z.compare_spec ex ey); try rewrite Pos.compare_cont_spec; simpl;
      try destruct (Pos.compare_spec mx my); simpl;
      split; try discriminate; try reflexivity; try (intros [=]; lia); congruence.
Qed.

Lemma is_nan_spec (w : float) : PrimFloat.is_nan w = sf_is_nan (Prim2SF w).
Proof.
  unfold PrimFloat.is_nan. rewrite FloatAxioms.eqb_spec. unfold SFeqb.
  destruct (Prim2SF w) as [s|s| |s m e]; simpl; try reflexivity; try (by destruct s).
  destruct s; rewrite Z.compare_refl, Pos.compare_cont_refl; reflexivity.
Qed.

Lemma ltb_not_eqb (a b : float) : (a <? b)%float = true -> (a =? b)%float = false.
Proof.
  rewrite FloatAxioms.ltb_spec, FloatAxioms.eqb_spec. unfold SFltb, SFeqb.
  destruct (SFcompare (Prim2SF a) (Prim2SF b)) as [[]|]; congruence.
Qed.

Lemma ltb_key (a b : float) :
  PrimFloat.is_nan a = false -> PrimFloat.is_nan b = false ->
  ((a <? b)%float = true <-> key_lt (float_key a) (float_key b)).
Proof. rewrite !is_nan_spec, FloatAxioms.ltb_spec. apply SFltb_key. Qed.

Lemma eqb_key (a b : float) :
  PrimFloat.is_nan a = false -> PrimFloat.is_nan b = false ->
  ((a =? b)%float = true <-> float_key a = float_key b).
Proof. rewrite !is_nan_spec, FloatAxioms.eqb_spec. apply SFeqb_key. Qed.

(** ** Stats order *)

(** C3: [a < b] on Stats holds exactly when a's weakness is smaller, or the
    weaknesses compare equal and a's cost is smaller, or weaknesses and costs
    are equal and a was born later (the younger individual is preferred). *)
Theorem Stats_lt_lexicographic (a b : Program.Stats.t) :
  Program.Stats.lt a b = true <->
  (Program.Stats.weakness a <? Program.Stats.weakness b)%float = true
  \/ ((Program.Stats.weakness a =? Program.Stats.weakness b)%float = true
      /\ Program.Stats.cost a < Program.Stats.cost b)
  \/ ((Program.Stats.weakness a =? Program.Stats.weakness b)%float = true
      /\ Program.Stats.cost a = Program.Stats.cost b
      /\ Program.Stats.born a > Program.Stats.born b).
Proof.
  unfold Program.Stats.lt.
  destruct (Program.Stats.weakness a =? Program.Stats.weakness b)%float eqn:Ew; simpl.
  - destruct (Program.Stats.cost a =? Program.Stats.cost b) eqn:Ec; simpl.
    + apply Z.eqb_eq in Ec. rewrite Z.ltb_lt. split.
      * intros Hb. right. right. repeat split; [done|lia].
      * intros [Hw|[[_ Hc]|(_ & _ & Hb)]]; [|lia|lia].
        apply ltb_not_eqb in Hw. congruence.
    + apply Z.eqb_neq in Ec. rewrite Z.ltb_lt. split.
      * intros Hc. right. left. done.
      * intros [Hw|[[_ Hc]|(_ & Hc & _)]]; [|lia|lia].
        apply ltb_not_eqb in Hw. congruence.
  - split.
    + intros Hw. by left.
    + intros [Hw|[[Hw _]|(Hw & _)]]; congruence.
Qed.

(** ** Operation catalog *)

Lemma my_repo_list my_pow :
  OpRepo._list (Ponder.my_repo my_pow) =
  [ OpRepo.Build_Entry "forward" OpRepo.forward_op 0;
    OpRepo.Build_Entry "add" (Ponder.returned Ponder.my_add) 1;
    OpRepo.Build_Entry "sub" (Ponder.returned Ponder.my_sub) 1;
    OpRepo.Build_Entry "mul" (Ponder.returned Ponder.my_mul) 1;
    OpRepo.Build_Entry "div" Ponder.my_div 1;
    OpRepo.Build_Entry "mod" Ponder.my_mod 1;
    OpRepo.Build_Entry "pow" my_pow 1;
    OpRepo.Build_Entry "and" Ponder.my_and 1;
    OpRepo.Build_Entry "or" Ponder.my_or 1;
    OpRepo.Build_Entry "xor" Ponder.my_xor 1 ].
Proof. reflexivity. Qed.

Lemma div_ok_spec a b :
  Ponder.div_ok a b = negb ((b =? 0) || ((a =? INT_MIN) && (b =? -1))).
Proof.
  unfold Ponder.div_ok.
  by destruct (a =? INT_MIN), (b =? -1), (b =? 0).
Qed.

(** The quotient and remainder the two functions return fit an [int], so the
    C++ [/] and [%] they stand for do not overflow. *)
Lemma my_div_mod_is_int a b :
  is_int a -> is_int b -> is_int (Ponder.my_div a b) /\ is_int (Ponder.my_mod a b).
Proof.
  unfold is_int, INT_MIN, INT_MAX, Ponder.my_div, Ponder.my_mod. intros Ha Hb.
  rewrite div_ok_spec. unfold INT_MIN.
  destruct (b =? 0) eqn:E0; simpl; [lia|].
  destruct ((a =? - 2 ^ 31) && (b =? -1)) eqn:E1; simpl; [lia|].
  apply Z.eqb_neq in E0. apply andb_false_iff in E1.
  assert (Hq : Z.abs (Z.quot a b) <= Z.abs a).
  { rewrite <- Z.quot_abs by lia.
    apply Z.quot_le_upper_bound; [lia|]. nia. }
  assert (Hr : Z.abs (Z.rem a b) < Z.abs b) by (apply Z.rem_bound_abs; lia).
  split; [|lia].
  destruct (Z.eq_dec b (-1)) as [->|Hb1].
  - destruct E1 as [E1|E1]; [|lia]. apply Z.eqb_neq in E1.
    replace (Z.quot a (-1)) with (- a); [lia|].
    change (-1) with (- (1)). rewrite Z.quot_opp_r by lia. by rewrite Z.quot_1_r.
  - destruct (Z.eq_dec a (- 2 ^ 31)) as [->|Ha1]; [|lia].
    destruct (Z.eq_dec b 1) as [->|Hb2]; [rewrite Z.quot_1_r; lia|].
    assert (Z.abs (Z.quot (- 2 ^ 31) b) < 2 ^ 31); [|lia].
    rewrite <- Z.quot_abs by lia.
    apply Z.quot_lt_upper_bound; lia.
Qed.

(** C6: in the test catalog, [perform] on the division (code 4) and modulo
    (code 5) entries returns 0 when the right operand is 0 or the operands are
    (INT_MIN, -1), and the truncated quotient (remainder) otherwise; it returns
    normally for every operand pair, and the result is an [int] when the
    operands are. *)
Theorem perform_div_mod_total (my_pow : Z -> Z -> Z) (a b : Z) :
  let illegal := (b =? 0) || ((a =? INT_MIN) && (b =? -1)) in
  OpRepo.perform (Ponder.my_repo my_pow) Ponder.div_id a b
    = Ok (if illegal then 0 else Z.quot a b)
  /\ OpRepo.perform (Ponder.my_repo my_pow) 5 a b
    = Ok (if illegal then 0 else Z.rem a b)
  /\ (is_int a /\ is_int b ->
      is_int (Ponder.my_div a b) /\ is_int (Ponder.my_mod a b)).
Proof.
  cbv zeta. split; [|split].
  - change (OpRepo.perform (Ponder.my_repo my_pow) Ponder.div_id a b)
      with (Ok (Ponder.my_div a b)).
    unfold Ponder.my_div. rewrite div_ok_spec.
    by destruct ((b =? 0) || ((a =? INT_MIN) && (b =? -1))).
  - change (OpRepo.perform (Ponder.my_repo my_pow) 5 a b)
      with (Ok (Ponder.my_mod a b)).
    unfold Ponder.my_mod. rewrite div_ok_spec.
    by destruct ((b =? 0) || ((a =? INT_MIN) && (b =? -1))).
  - intros [Ha Hb]. by apply my_div_mod_is_int.
Qed.

(** C7 (as the code has it): for a code above [max_op()] the lookups
    [name_of] and [cost_of] index the entry vector out of range without any
    check, which is undefined behaviour and not an assertion failure; the
    range check [assert(code <= max_op())] is made by [Program::add_op]. *)
Theorem lookup_above_max_op_unchecked (r : OpRepo.t) (code : Z) :
  vsize (OpRepo._list r) <= 2 ^ 64 ->
  OpRepo.max_op r < code ->
  OpRepo.name_of r code = Undefined
  /\ OpRepo.cost_of r code = Undefined
  /\ forall p lhs rhs, Program._repo p = r -> Program.add_op p code lhs rhs = AssertFail.
Proof.
  intros Hsz Hcode. unfold OpRepo.max_op in Hcode.
  pose proof (vsize_nonneg (OpRepo._list r)) as H0.
  assert (Hout : vsize (OpRepo._list r) <= code).
  { destruct (Z.eq_dec (vsize (OpRepo._list r)) 0) as [E|E].
    - rewrite E in *. change (size_t_wrap (0 - 1)) with (2 ^ 64 - 1) in Hcode. lia.
    - rewrite size_t_wrap_small in Hcode; lia. }
  unfold OpRepo.name_of, OpRepo.cost_of. rewrite vec_at_out_of_range by done.
  repeat split; try reflexivity.
  intros p lhs rhs <-. unfold Program.add_op, OpRepo.max_op.
  replace (code <=? _) with false; [reflexivity|].
  symmetry. apply Z.leb_gt. exact Hcode.
Qed.

Lemma lookup_above_max_op_unchecked_witness :
  OpRepo.name_of test_repo 10 = Undefined
  /\ OpRepo.cost_of test_repo 10 = Undefined
  /\ forall p lhs rhs,
       Program._repo p = test_repo -> Program.add_op p 10 lhs rhs = AssertFail.
Proof.
  apply (lookup_above_max_op_unchecked test_repo 10).
  - vm_compute. discriminate.
  - vm_compute. reflexivity.
Defined.

(** C7 as stated fails: code 10 is above [max_op() = 9] of the test catalog,
    and [name_of] / [cost_of] do not stop on an assertion there. *)
Lemma lookup_above_max_op_no_assert :
  OpRepo.max_op test_repo = 9
  /\ OpRepo.name_of test_repo 10 = Undefined
  /\ OpRepo.cost_of test_repo 10 = Undefined
  /\ OpRepo.name_of test_repo 10 <> AssertFail
  /\ OpRepo.cost_of test_repo 10 <> AssertFail.
Proof. repeat split; try reflexivity; discriminate. Qed.

(** ** Generic facts about the loops *)

Lemma bind_Ok {A B} (a : A) (k : A -> outcome B) : (x ← Ok a; k x) = k a.
Proof. reflexivity. Qed.

Lemma Ok_inj {A} (a b : A) : Ok a = Ok b -> a = b.
Proof. by intros [= ->]. Qed.

Lemma foldM_nil {A B} (f : B -> A -> outcome B) b : foldM f b [] = Ok b.
Proof. reflexivity. Qed.

Lemma foldM_cons {A B} (f : B -> A -> outcome B) b a l :
  foldM f b (a :: l) = (b' ← f b a; foldM f b' l).
Proof. reflexivity. Qed.

Lemma bind_Ok_inv {A B} (m : outcome A) (k : A -> outcome B) b :
  (x ← m; k x) = Ok b -> exists a, m = Ok a /\ k a = Ok b.
Proof. destruct m; try discriminate. intros H. eauto. Qed.

Lemma foldM_app {A B} (f : B -> A -> outcome B) b l1 l2 :
  foldM f b (l1 ++ l2) = (b' ← foldM f b l1; foldM f b' l2).
Proof.
  revert b. induction l1 as [|a l1 IH]; intros b; simpl; [reflexivity|].
  destruct (f b a); simpl; auto.
Qed.

Lemma vsize_app {A} (l1 l2 : list A) : vsize (l1 ++ l2) = vsize l1 + vsize l2.
Proof. unfold vsize. rewrite length_app. lia. Qed.

Lemma vsize_cons {A} (a : A) (l : list A) : vsize (a :: l) = 1 + vsize l.
Proof. unfold vsize. simpl. lia. Qed.

Lemma vsize_nil {A} : vsize (@nil A) = 0.
Proof. reflexivity. Qed.

Ltac vsize_lia :=
  unfold vsize in *; repeat rewrite length_app in *; cbn [length] in *; lia.

(** ** Operands of a well-formed program *)

Lemma operand_ok_cases in_cnt limit r :
  operand_ok in_cnt limit r ->
  (Program.Ref.is_input r = true /\ Program.Ref.is_operation r = false
   /\ Program.Ref.in_idx r = - (Program.Ref.idx r + 1)
   /\ - in_cnt <= Program.Ref.idx r < 0)
  \/ (Program.Ref.is_input r = false /\ Program.Ref.is_operation r = true
      /\ Program.Ref.op_idx r = Program.Ref.idx r
      /\ 0 <= Program.Ref.idx r < limit).
Proof.
  unfold operand_ok, is_int, INT_MIN, INT_MAX.
  unfold Program.Ref.is_input, Program.Ref.is_operation, Program.Ref.in_idx,
    Program.Ref.op_idx.
  intros [Hint [[Hi Hr]|[Ho Hr]]].
  - left. apply Z.ltb_lt in Hi.
    rewrite size_t_wrap_small in * by lia.
    repeat split; try lia.
  - right. apply Z.leb_le in Ho.
    rewrite size_t_wrap_small in * by lia.
    repeat split; try lia.
Qed.

Lemma operand_ok_of_idx in_cnt limit r :
  is_int (Program.Ref.idx r) ->
  - in_cnt <= Program.Ref.idx r < limit ->
  operand_ok in_cnt limit r.
Proof.
  unfold operand_ok, is_int, INT_MIN, INT_MAX.
  unfold Program.Ref.is_input, Program.Ref.is_operation, Program.Ref.in_idx,
    Program.Ref.op_idx.
  intros Hint Hr. split; [done|].
  destruct (Z.ltb_spec (Program.Ref.idx r) 0).
  - left. rewrite size_t_wrap_small by lia. split; [done|lia].
  - right. rewrite size_t_wrap_small by lia. split; [lia|lia].
Qed.

Lemma operand_ok_mono in_cnt limit limit' r :
  limit <= limit' -> operand_ok in_cnt limit r -> operand_ok in_cnt limit' r.
Proof.
  unfold operand_ok. intros Hl [Hint [H|[Ho Hr]]]; (split; [done|]); [by left|].
  right. split; [done|lia].
Qed.

Lemma operand_okb_sound in_cnt limit r :
  operand_okb in_cnt limit r = true -> operand_ok in_cnt limit r.
Proof.
  unfold operand_okb, operand_ok, is_intb, is_int. intros H.
  apply andb_true_iff in H as [Hint H]. apply andb_true_iff in Hint as [H1 H2].
  split; [lia|].
  destruct (Program.Ref.is_input r) eqn:E.
  - left. apply andb_true_iff in H. split; [done|lia].
  - right. apply andb_true_iff in H.
    unfold Program.Ref.is_input, Program.Ref.is_operation in *. split; lia.
Qed.

Lemma valid_programb_sound p : valid_programb p = true -> valid_program p.
Proof.
  unfold valid_programb, valid_program. intros H i op Hop.
  rewrite forallb_forall in H.
  specialize (H (op_okb p (Z.of_nat i) op)).
  assert (Hb : op_okb p (Z.of_nat i) op = true).
  { apply H. apply list_elem_of_In. apply list_elem_of_lookup. exists i.
    rewrite list_lookup_imap, Hop. reflexivity. }
  unfold op_okb in Hb. repeat (apply andb_true_iff in Hb as [Hb ?]).
  unfold op_ok. split; [lia|]. split; by apply operand_okb_sound.
Qed.

(** [assert_valid] passes exactly on the operands that are in range. *)
Lemma assert_valid_ok p limit r :
  operand_ok (Program._in_cnt p) limit r -> Program.assert_valid p r limit = Ok tt.
Proof.
  intros H. apply operand_ok_cases in H.
  unfold Program.assert_valid.
  destruct H as [(Hi & Ho & Hidx & Hr)|(Hi & Ho & Hidx & Hr)]; rewrite Hi, Ho; simpl.
  - rewrite Hidx. replace (_ <? _) with true by lia. reflexivity.
  - rewrite Hidx. replace (_ <? _) with true by lia. reflexivity.
Qed.

Lemma get_value_ok in_cnt (input : Input) (values : list Value) r :
  operand_ok in_cnt (vsize values) r -> vsize input = in_cnt ->
  exists v, Program.get_value input values r = Ok v.
Proof.
  intros H Hin. apply operand_ok_cases in H. unfold Program.get_value.
  destruct H as [(Hi & Ho & Hidx & Hr)|(Hi & Ho & Hidx & Hr)]; rewrite Hi, Hidx.
  - destruct (vec_at_in_range input (- (Program.Ref.idx r + 1))) as (v & Hv & _); [lia|eauto].
  - destruct (vec_at_in_range values (Program.Ref.idx r)) as (v & Hv & _); [lia|eauto].
Qed.

Lemma perform_ok r code lhs rhs :
  repo_ok r -> 0 <= code <= OpRepo.max_op r ->
  exists v, OpRepo.perform r code lhs rhs = Ok v.
Proof.
  unfold repo_ok, OpRepo.max_op, OpRepo.perform. intros Hr Hc.
  rewrite size_t_wrap_small in Hc by lia.
  destruct (vec_at_in_range (OpRepo._list r) code) as (e & -> & _); [lia|].
  simpl. eauto.
Qed.

(** ** execute *)

Lemma value_step_unfold p input values op :
  value_step p input values op =
  (l ← Program.get_value input values (Program.Op.lhs op);
   r ← Program.get_value input values (Program.Op.rhs op);
   value ← OpRepo.perform (Program._repo p) (Program.Op.code op) l r;
   Ok (values ++ [value])).
Proof. reflexivity. Qed.

Lemma execute_step_unfold p input result out values op :
  Program.execute_step p input (result, out, values) op =
  (l ← Program.get_value input values (Program.Op.lhs op);
   r ← Program.get_value input values (Program.Op.rhs op);
   value ← OpRepo.perform (Program._repo p) (Program.Op.code op) l r;
   if vsize (out ++ [value]) =? Program._out_cnt p then
     Ok (if vsize (values ++ [value]) =? vsize (Program._program p)
         then result ++ [out ++ [value]] else result, [], values ++ [value])
   else Ok (result, out ++ [value], values ++ [value])).
Proof. reflexivity. Qed.

Lemma all_values_total p input :
  valid_program p -> repo_ok (Program._repo p) ->
  vsize input = Program._in_cnt p ->
  forall todo pre values,
    Program._program p = pre ++ todo -> vsize values = vsize pre ->
    exists vf, foldM (value_step p input) values todo = Ok vf
               /\ vsize vf = vsize values + vsize todo.
Proof.
  intros Hvalid Hrepo Hin. induction todo as [|op todo IH]; intros pre values Hp Hlen.
  - exists values. rewrite vsize_nil. split; [reflexivity|lia].
  - assert (Hop : Program._program p !! length pre = Some op).
    { rewrite Hp. by rewrite list_lookup_middle. }
    apply Hvalid in Hop as (Hcode & Hl & Hr).
    fold (vsize pre) in Hl, Hr. rewrite <- Hlen in Hl, Hr.
    destruct (get_value_ok _ input values _ Hl Hin) as [l El].
    destruct (get_value_ok _ input values _ Hr Hin) as [r Er].
    destruct (perform_ok _ _ l r Hrepo Hcode) as [v Ev].
    rewrite foldM_cons, value_step_unfold, El, Er, !bind_Ok, Ev, !bind_Ok.
    destruct (IH (pre ++ [op]) (values ++ [v])) as (vf & Hvf & Hsz).
    + rewrite Hp, <- app_assoc. reflexivity.
    + vsize_lia.
    + exists vf. split; [exact Hvf|]. vsize_lia.
Qed.

Lemma execute_loop_groups p input k :
  1 <= Program._out_cnt p ->
  vsize (Program._program p) = k * Program._out_cnt p ->
  forall todo result out values pre q vf,
    vsize values + vsize todo = vsize (Program._program p) ->
    values = pre ++ out -> vsize pre = q * Program._out_cnt p ->
    vsize out < Program._out_cnt p ->
    result = (if vsize values <? vsize (Program._program p) then []
              else [drop (Z.to_nat (vsize (Program._program p) - Program._out_cnt p)) values]) ->
    foldM (value_step p input) values todo = Ok vf ->
    exists out',
      foldM (Program.execute_step p input) (result, out, values) todo
      = Ok ([drop (Z.to_nat (vsize (Program._program p) - Program._out_cnt p)) vf], out', vf).
Proof.
  intros Hoc Hn.
  set (n := vsize (Program._program p)) in *. set (oc := Program._out_cnt p) in *.
  induction todo as [|op todo IH]; intros result out values pre q vf Hlen Hval Hpre Hout Hres Hfold.
  - rewrite foldM_nil in *. injection Hfold as <-. rewrite vsize_nil in Hlen.
    replace (vsize values <? n) with false in Hres by lia. subst result. eauto.
  - rewrite foldM_cons, value_step_unfold in Hfold.
    rewrite foldM_cons, execute_step_unfold.
    apply bind_Ok_inv in Hfold as (values' & Hfold & Hrest).
    apply bind_Ok_inv in Hfold as (l & El & Hfold).
    apply bind_Ok_inv in Hfold as (r & Er & Hfold).
    apply bind_Ok_inv in Hfold as (v & Ev & Hfold).
    injection Hfold as <-. rewrite El, bind_Ok, Er, bind_Ok, Ev, bind_Ok. fold oc. fold n.
    rewrite vsize_cons in Hlen. pose proof (vsize_nonneg todo) as Hs.
    pose proof (vsize_nonneg out) as Ho0.
    assert (Hvs : vsize values = q * oc + vsize out) by (subst values; rewrite vsize_app; lia).
    replace (vsize values <? n) with true in Hres by lia. subst result.
    destruct (Z.eqb_spec (vsize (out ++ [v])) oc) as [Eoc|Eoc].
    + rewrite vsize_app, vsize_cons, vsize_nil in Eoc.
      assert (Hv' : vsize (values ++ [v]) = (q + 1) * oc).
      { rewrite vsize_app, vsize_cons, vsize_nil. lia. }
      rewrite bind_Ok.
      eapply (IH _ [] (values ++ [v]) (values ++ [v]) (q + 1)); try eassumption.
      * rewrite vsize_app, vsize_cons, vsize_nil. lia.
      * by rewrite app_nil_r.
      * rewrite vsize_nil. lia.
      * destruct (Z.eqb_spec (vsize (values ++ [v])) n) as [En|En].
        -- replace (vsize (values ++ [v]) <? n) with false by lia.
           simpl. f_equal. subst values. rewrite <- app_assoc.
           rewrite drop_app_length'; [reflexivity|].
           rewrite !vsize_app, vsize_cons, vsize_nil in En.
           unfold vsize in *. lia.
        -- replace (vsize (values ++ [v]) <? n) with true; [reflexivity|].
           rewrite vsize_app, vsize_cons, vsize_nil in *. lia.
    + rewrite vsize_app, vsize_cons, vsize_nil in Eoc.
      rewrite bind_Ok.
      eapply (IH _ (out ++ [v]) (values ++ [v]) pre q); try eassumption.
      * rewrite vsize_app, vsize_cons, vsize_nil. lia.
      * subst values. by rewrite app_assoc.
      * rewrite vsize_app, vsize_cons, vsize_nil. lia.
      * replace (vsize (values ++ [v]) <? n) with true; [reflexivity|].
        rewrite vsize_app, vsize_cons, vsize_nil.
        symmetry. apply Z.ltb_lt.
        assert (vsize values + 1 <> n); [|lia].
        intros E. assert (Hk : (k - q) * oc = vsize out + 1) by lia.
        assert (k - q = 0 \/ 1 <= k - q \/ k - q <= -1) as [Hz|[Hz|Hz]] by lia; nia.
Qed.

(** C1: for a well-formed program whose length is a positive multiple of
    [out_cnt], run on [in_cnt] inputs, [execute] returns exactly one output
    vector: the values of the last [out_cnt] operations, whatever the number
    of slots; and [num_alternatives()] is 1. *)
Theorem execute_returns_last_slot (p : Program.t) (input : Input) (k : Z) :
  valid_program p -> repo_ok (Program._repo p) ->
  vsize input = Program._in_cnt p ->
  1 <= k -> 1 <= Program._out_cnt p ->
  vsize (Program._program p) = k * Program._out_cnt p ->
  exists values,
    all_values p input = Ok values
    /\ vsize values = vsize (Program._program p)
    /\ Program.execute p input
       = Ok [drop (Z.to_nat (vsize (Program._program p) - Program._out_cnt p)) values]
    /\ Program.num_alternatives p = 1
    /\ MultiFunction.num_alternatives (Program.as_multi p) = 1.
Proof.
  intros Hvalid Hrepo Hin Hk Hoc Hn.
  destruct (all_values_total p input Hvalid Hrepo Hin (Program._program p) [] [])
    as (vf & Hvf & Hsz); [reflexivity|reflexivity|].
  exists vf. rewrite vsize_nil in Hsz. repeat split; try done.
  unfold Program.execute.
  destruct (execute_loop_groups p input k Hoc Hn (Program._program p) [] [] [] [] 0 vf)
    as (out' & Hex); try done.
  - rewrite vsize_nil. lia.
  - rewrite vsize_nil. replace (0 <? _) with true by nia. reflexivity.
  - match goal with |- mbind _ ?m = _ => replace m with
      (Ok ([drop (Z.to_nat (vsize (Program._program p) - Program._out_cnt p)) vf], out', vf))
    end. reflexivity.
Qed.

Lemma from_outcome_is_ok {A} (d : A) (o : outcome A) :
  is_ok o = true -> o = Ok (from_outcome d o).
Proof. destruct o; simpl; congruence. Qed.

Lemma hand_crafted_built : Ponder.hand_crafted int_pow = Ok hand_crafted_program.
Proof. apply from_outcome_is_ok. vm_compute. reflexivity. Qed.

Lemma hand_crafted_valid : valid_program hand_crafted_program.
Proof. apply valid_programb_sound. vm_compute. reflexivity. Qed.

Lemma test_repo_ok : repo_ok test_repo.
Proof. unfold repo_ok. vm_compute. split; discriminate. Qed.

(** The test's own expectations on the hand-crafted program. *)
Example hand_crafted_execute :
  Program.execute hand_crafted_program hand_crafted_input = Ok [[93; 4417; 6]].
Proof. vm_compute. reflexivity. Qed.

Example hand_crafted_costs :
  Program.get_cost hand_crafted_program 0 = Ok 3
  /\ Program.get_cost hand_crafted_program 1 = Ok 3
  /\ Program.get_cost hand_crafted_program 2 = Ok 6
  /\ Program.get_cost hand_crafted_program 3 = Ok 9.
Proof. vm_compute. repeat split. Qed.

Example hand_crafted_feedback :
  (p ← find_weakness test_repo hand_crafted_program;
   Ok (Program._stats p, Program._best_slot p))
  = Ok (Program.Stats.mk 0%float 9 0, 3).
Proof. vm_compute. reflexivity. Qed.

Lemma execute_returns_last_slot_witness :
  exists values,
    all_values hand_crafted_program hand_crafted_input = Ok values
    /\ vsize values = vsize (Program._program hand_crafted_program)
    /\ Program.execute hand_crafted_program hand_crafted_input
       = Ok [drop (Z.to_nat (vsize (Program._program hand_crafted_program)
                             - Program._out_cnt hand_crafted_program)) values]
    /\ Program.num_alternatives hand_crafted_program = 1
    /\ MultiFunction.num_alternatives (Program.as_multi hand_crafted_program) = 1.
Proof.
  apply (execute_returns_last_slot hand_crafted_program hand_crafted_input 4).
  - apply valid_programb_sound. vm_compute. reflexivity.
  - unfold repo_ok. vm_compute. split; discriminate.
  - vm_compute. reflexivity.
  - lia.
  - vm_compute. discriminate.
  - vm_compute. reflexivity.
Defined.

(** ** Random draws *)

Section Draws.
Context `{RandomGen}.

Lemma Random_get_ok (s : rnd_state) lo hi :
  lo <= hi -> exists v s', Random.get s lo hi = Ok (v, s') /\ lo <= v <= hi.
Proof.
  intros Hle. unfold Random.get. replace (lo <=? hi) with true by lia.
  pose proof (rnd_draw_range s lo hi Hle) as Hr.
  destruct (rnd_draw s lo hi) as [v s']. simpl in Hr. eauto.
Qed.

Lemma Random_get_inv (s : rnd_state) lo hi v s' :
  Random.get s lo hi = Ok (v, s') -> lo <= v <= hi.
Proof.
  unfold Random.get. destruct (Z.leb_spec lo hi) as [Hle|]; [|discriminate].
  intros [= E]. pose proof (rnd_draw_range s lo hi Hle) as Hr.
  rewrite E in Hr. exact Hr.
Qed.

(** The randomised [Ref] constructor draws from
    [{-in_cnt .. -1} ∪ {0 .. limit-1}]. *)
Lemma Ref_rnd_range (s : rnd_state) in_cnt limit :
  0 <= in_cnt <= 2 ^ 31 -> 0 <= limit <= 2 ^ 31 -> 1 <= in_cnt + limit ->
  exists r s', Program.Ref.rnd s in_cnt limit = Ok (r, s')
               /\ - in_cnt <= Program.Ref.idx r <= limit - 1
               /\ operand_ok in_cnt limit r.
Proof.
  intros Hin Hlim Hne. unfold Program.Ref.rnd.
  rewrite !int_wrap_size_t_wrap, !int_wrap_small by lia.
  destruct (Random_get_ok s (- in_cnt) (limit - 1)) as (v & s' & -> & Hv); [lia|].
  rewrite bind_Ok. exists (Program.Ref.mk v), s'. split; [reflexivity|].
  split; [simpl; lia|].
  apply operand_ok_of_idx; unfold is_int, INT_MIN, INT_MAX; simpl; lia.
Qed.

Lemma rnd_op_range (s : rnd_state) p :
  1 <= vsize (OpRepo._list (Program._repo p)) <= 2 ^ 31 ->
  exists c s', Program.rnd_op s p = Ok (c, s')
               /\ 0 <= c <= OpRepo.max_op (Program._repo p).
Proof.
  intros Hr. unfold Program.rnd_op, OpRepo.max_op.
  rewrite int_wrap_size_t_wrap, int_wrap_small, size_t_wrap_small by lia.
  destruct (Random_get_ok s 0 (vsize (OpRepo._list (Program._repo p)) - 1))
    as (v & s' & -> & Hv); [lia|].
  rewrite bind_Ok, size_t_wrap_small by lia. eauto.
Qed.

End Draws.

(** ** Program::mutate *)

Section Mutate.
Context `{RandomGen}.


(** On a well-formed, non-empty program whose sizes fit an [int], [mutate]
    returns, and the operation it writes is well-formed at its position. *)
Lemma mutate_total (rnd : rnd_state) (p : Program.t) :
  valid_program p ->
  1 <= vsize (Program._program p) <= 2 ^ 31 ->
  0 <= Program._in_cnt p <= 2 ^ 31 ->
  1 <= vsize (OpRepo._list (Program._repo p)) <= 2 ^ 31 ->
  exists (k : nat) op op' rnd',
    Program._program p !! k = Some op
    /\ Program.mutate rnd p
       = Ok (Program.with_program p (<[k := op']> (Program._program p)), rnd')
    /\ op_ok p (Z.of_nat k) op'
    /\ one_field_edit op op'.
Proof.
  intros Hvalid Hsz Hin Hrepo. unfold Program.mutate.
  rewrite int_wrap_size_t_wrap, int_wrap_small by lia.
  destruct (Random_get_ok rnd 0 (vsize (Program._program p) - 1))
    as (v & s1 & -> & Hv); [lia|].
  rewrite bind_Ok. cbv beta iota. rewrite size_t_wrap_small by lia.
  destruct (vec_at_in_range (Program._program p) v) as (op & -> & Hop); [lia|].
  rewrite bind_Ok.
  destruct (Random_get_ok s1 0 2) as (sel & s2 & -> & Hsel); [lia|].
  rewrite bind_Ok. cbv beta iota. rewrite size_t_wrap_small by lia.
  pose proof (Hvalid _ _ Hop) as (Hcode & Hl & Hr).
  rewrite Z2Nat.id in Hl, Hr by lia.
  assert (Hne : 1 <= Program._in_cnt p + v).
  { apply operand_ok_cases in Hl. lia. }
  exists (Z.to_nat v), op. rewrite Z2Nat.id by lia.
  destruct (Z.eqb_spec sel 0) as [E0|E0].
  - destruct (rnd_op_range s2 p Hrepo) as (c & s3 & -> & Hc).
    rewrite bind_Ok. cbv beta iota.
    eexists _, s3. split; [done|]. split; [reflexivity|].
    split; [|left; done]. split; [done|]. split; done.
  - unfold Program.rnd_ref.
    destruct (Ref_rnd_range s2 (Program._in_cnt p) v) as (r & s3 & Er & _ & Hrok);
      [lia|lia|lia|].
    destruct (Z.eqb_spec sel 1) as [E1|E1].
    + rewrite Er, bind_Ok. cbv beta iota.
      eexists _, s3. split; [done|]. split; [reflexivity|].
      split; [|right; left; done]. split; [done|]. split; done.
    + replace (sel =? 2) with true by lia.
      unfold assert. rewrite bind_Ok, Er, bind_Ok. cbv beta iota.
      eexists _, s3. split; [done|]. split; [reflexivity|].
      split; [|right; right; done]. split; [done|]. split; done.
Qed.

End Mutate.

(** C2: on a well-formed, non-empty program (sizes within [int]), for every
    generator and generator state, [mutate] returns a program in which every
    operand of every operation is an input index in [0, in_cnt) or the index of
    a strictly earlier operation; the randomised [Ref] constructor it uses
    draws from [{-in_cnt .. -1} ∪ {0 .. limit-1}]. *)
Theorem mutate_keeps_operands_earlier `{RandomGen} (rnd : rnd_state) (p : Program.t) :
  valid_program p ->
  1 <= vsize (Program._program p) <= 2 ^ 31 ->
  0 <= Program._in_cnt p <= 2 ^ 31 ->
  1 <= vsize (OpRepo._list (Program._repo p)) <= 2 ^ 31 ->
  (exists p' rnd',
     Program.mutate rnd p = Ok (p', rnd')
     /\ valid_program p'
     /\ forall (i : nat) op,
          Program._program p' !! i = Some op ->
          operand_ok (Program._in_cnt p') (Z.of_nat i) (Program.Op.lhs op)
          /\ operand_ok (Program._in_cnt p') (Z.of_nat i) (Program.Op.rhs op))
  /\ (forall (s : rnd_state) limit,
        0 <= limit <= 2 ^ 31 -> 1 <= Program._in_cnt p + limit ->
        exists r s', Program.Ref.rnd s (Program._in_cnt p) limit = Ok (r, s')
                     /\ - Program._in_cnt p <= Program.Ref.idx r <= limit - 1).
Proof.
  intros Hvalid Hsz Hin Hrepo. split.
  - destruct (mutate_total rnd p Hvalid Hsz Hin Hrepo)
      as (k & op & op' & rnd' & Hop & Hm & Hok & _).
    eexists _, rnd'. split; [exact Hm|].
    assert (Hv' : valid_program
                    (Program.with_program p (<[k := op']> (Program._program p)))).
    { intros i o Ho. simpl in Ho.
      destruct (decide (k = i)) as [->|Hne].
      - rewrite list_lookup_insert_eq in Ho by (by eapply lookup_lt_Some).
        injection Ho as <-. exact Hok.
      - rewrite list_lookup_insert_ne in Ho by done. exact (Hvalid _ _ Ho). }
    split; [exact Hv'|].
    intros i o Ho. destruct (Hv' _ _ Ho) as (_ & Hl & Hr). split; assumption.
  - intros s limit Hlim Hne.
    destruct (Ref_rnd_range s (Program._in_cnt p) limit Hin Hlim Hne)
      as (r & s' & Hr & Hidx & _).
    eauto.
Qed.

Lemma mutate_keeps_operands_earlier_witness :
  (exists p' rnd',
     Program.mutate Rand48.init hand_crafted_program = Ok (p', rnd')
     /\ valid_program p'
     /\ forall (i : nat) op,
          Program._program p' !! i = Some op ->
          operand_ok (Program._in_cnt p') (Z.of_nat i) (Program.Op.lhs op)
          /\ operand_ok (Program._in_cnt p') (Z.of_nat i) (Program.Op.rhs op))
  /\ (forall (s : Z) limit,
        0 <= limit <= 2 ^ 31 -> 1 <= Program._in_cnt hand_crafted_program + limit ->
        exists r s',
          Program.Ref.rnd s (Program._in_cnt hand_crafted_program) limit = Ok (r, s')
          /\ - Program._in_cnt hand_crafted_program <= Program.Ref.idx r <= limit - 1).
Proof.
  apply (@mutate_keeps_operands_earlier rand48_gen Rand48.init hand_crafted_program).
  - apply valid_programb_sound. vm_compute. reflexivity.
  - vm_compute. split; discriminate.
  - vm_compute. split; discriminate.
  - vm_compute. split; discriminate.
Defined.




(** ** std::sort *)

Section SortFacts.
Context {A : Type} (less : A -> A -> bool) (P : A -> Prop).

(** On the elements that satisfy [P] the comparison is a strict weak order. *)
Hypothesis less_asym : forall a b, P a -> P b -> less a b = true -> less b a = false.
Hypothesis less_negtrans :
  forall a b c, P a -> P b -> P c -> less b a = false -> less c b = false -> less c a = false.

Lemma sort_insert_perm x l : Permutation (sort_insert less x l) (x :: l).
Proof.
  induction l as [|y l IH]; simpl; [reflexivity|].
  destruct (less x y); [reflexivity|].
  rewrite IH. apply perm_swap.
Qed.

Lemma insertion_sort_perm l : Permutation (insertion_sort less l) l.
Proof.
  induction l as [|x l IH]; simpl; [reflexivity|].
  rewrite sort_insert_perm. by constructor.
Qed.

Lemma insertion_sort_length l : length (insertion_sort less l) = length l.
Proof. apply Permutation_length, insertion_sort_perm. Qed.

Lemma sort_insert_sorted x l :
  P x -> Forall P l ->
  StronglySorted (fun a b => less b a = false) l ->
  StronglySorted (fun a b => less b a = false) (sort_insert less x l).
Proof.
  intros Hx Hl Hs. induction Hs as [|y l Hs IH Hy]; simpl.
  - repeat constructor.
  - apply Forall_cons in Hl as [Py Pl].
    destruct (less x y) eqn:E.
    + constructor; [by constructor|].
      assert (Hyx : less y x = false) by (by apply less_asym).
      constructor; [exact Hyx|].
      rewrite Forall_forall in Hy, Pl. apply Forall_forall. intros z Hz.
      apply (less_negtrans x y z); auto.
    + constructor; [by apply IH|].
      rewrite (sort_insert_perm x l). constructor; assumption.
Qed.

Lemma insertion_sort_sorted l :
  Forall P l -> StronglySorted (fun a b => less b a = false) (insertion_sort less l).
Proof.
  induction l as [|x l IH]; intros Hl; simpl; [constructor|].
  apply Forall_cons in Hl as [Px Pl].
  apply sort_insert_sorted; [done| |by apply IH].
  by rewrite (insertion_sort_perm l).
Qed.

End SortFacts.

Lemma StronglySorted_lookup {A} (R : A -> A -> Prop) l (i j : nat) a b :
  StronglySorted R l -> (i < j)%nat -> l !! i = Some a -> l !! j = Some b -> R a b.
Proof.
  intros Hs. revert i j. induction Hs as [|x l Hs IH Hx]; intros i j Hij Hi Hj.
  - by rewrite lookup_nil in Hi.
  - destruct i as [|i], j as [|j]; try lia; simpl in *.
    + injection Hi as <-. rewrite Forall_forall in Hx. apply Hx.
      by eapply list_elem_of_lookup_2.
    + apply (IH i j); [lia|done|done].
Qed.

Section CheckedSort.
Context {A : Type} (less : A -> A -> bool).

Lemma strict_weak_on_spec (l : list A) :
  strict_weak_on less l = true <->
  (forall a, In a l -> less a a = false)
  /\ (forall a b c, In a l -> In b l -> In c l ->
        (less a b = true -> less b c = true -> less a c = true)
        /\ (incomparable less a b = true -> incomparable less b c = true ->
            incomparable less a c = true)).
Proof.
  unfold strict_weak_on. rewrite forallb_forall. split.
  - intros Hall. split.
    + intros a Ha. specialize (Hall a Ha). apply andb_true_iff in Hall as [Hi _].
      by apply negb_true_iff.
    + intros a b c Ha Hb Hc. specialize (Hall a Ha).
      apply andb_true_iff in Hall as [_ Hall].
      rewrite forallb_forall in Hall. specialize (Hall b Hb).
      rewrite forallb_forall in Hall. specialize (Hall c Hc).
      apply andb_true_iff in Hall as [H1 H2]. split.
      * intros E1 E2. by rewrite E1, E2 in H1.
      * intros E1 E2. by rewrite E1, E2 in H2.
  - intros [Hi Ht] a Ha. apply andb_true_iff. split; [by rewrite Hi|].
    apply forallb_forall. intros b Hb. apply forallb_forall. intros c Hc.
    destruct (Ht a b c Ha Hb Hc) as [H1 H2]. apply andb_true_iff. split.
    + destruct (less a b) eqn:E1, (less b c) eqn:E2; simpl; try done. by apply H1.
    + destruct (incomparable less a b) eqn:E1, (incomparable less b c) eqn:E2;
        simpl; try done. by apply H2.
Qed.

Lemma strict_weak_asym (l : list A) a b :
  strict_weak_on less l = true -> In a l -> In b l ->
  less a b = true -> less b a = false.
Proof.
  intros [Hi Ht]%strict_weak_on_spec Ha Hb Hab.
  destruct (less b a) eqn:Hba; [|done].
  destruct (Ht a b a Ha Hb Ha) as [Htr _].
  rewrite (Hi a Ha) in Htr. symmetry. by apply Htr.
Qed.

Lemma strict_weak_negtrans (l : list A) a b c :
  strict_weak_on less l = true -> In a l -> In b l -> In c l ->
  less b a = false -> less c b = false -> less c a = false.
Proof.
  intros Hs Ha Hb Hc Hba Hcb.
  pose proof Hs as [Hi Ht]%strict_weak_on_spec.
  destruct (less c a) eqn:Hca; [|done].
  destruct (less a b) eqn:Hab.
  - destruct (Ht c a b Hc Ha Hb) as [Htr _]. rewrite Htr in Hcb; done.
  - destruct (less b c) eqn:Hbc.
    + destruct (Ht b c a Hb Hc Ha) as [Htr _]. rewrite Htr in Hba; done.
    + destruct (Ht a b c Ha Hb Hc) as [_ Hin]. unfold incomparable in Hin.
      rewrite Hab, Hba, Hbc, Hcb, Hca in Hin. simpl in Hin.
      rewrite andb_false_r in Hin. symmetry. by apply Hin.
Qed.

Lemma std_sort_Ok_inv (l l' : list A) :
  std_sort less l = Ok l' ->
  strict_weak_on less l = true /\ l' = insertion_sort less l.
Proof.
  unfold std_sort. destruct (strict_weak_on less l); [|discriminate].
  by intros [= <-].
Qed.

Lemma std_sort_of_strict_weak (l : list A) :
  strict_weak_on less l = true -> std_sort less l = Ok (insertion_sort less l).
Proof. unfold std_sort. by intros ->. Qed.

Lemma strict_weak_sorted (l : list A) :
  strict_weak_on less l = true ->
  StronglySorted (fun a b => less b a = false) (insertion_sort less l).
Proof.
  intros Hs. apply (insertion_sort_sorted less (fun a => In a l)).
  - intros a b. by apply strict_weak_asym.
  - intros a b c. by apply strict_weak_negtrans.
  - apply Forall_forall. intros a Ha. by apply list_elem_of_In.
Qed.

End CheckedSort.

Lemma strict_weak_Z_ltb (l : list Z) : strict_weak_on Z.ltb l = true.
Proof.
  apply strict_weak_on_spec. split; [intros; lia|].
  intros a b c _ _ _. unfold incomparable. split.
  - intros. lia.
  - intros E1 E2. apply andb_true_iff in E1 as [E1 E1'], E2 as [E2 E2'].
    apply andb_true_iff. split; apply negb_true_iff; lia.
Qed.

Lemma std_sort_Z_ltb (l : list Z) : std_sort Z.ltb l = Ok (insertion_sort Z.ltb l).
Proof. apply std_sort_of_strict_weak, strict_weak_Z_ltb. Qed.

(** ** The Stats order on numbers is a strict weak order *)

Lemma Stats_lt_key (a b : Program.Stats.t) :
  PrimFloat.is_nan (Program.Stats.weakness a) = false ->
  PrimFloat.is_nan (Program.Stats.weakness b) = false ->
  (Program.Stats.lt a b = true <-> stats_key_lt (stats_key a) (stats_key b)).
Proof.
  intros Ha Hb. unfold Program.Stats.lt, stats_key, stats_key_lt.
  pose proof (ltb_key _ _ Ha Hb) as Hlt. pose proof (eqb_key _ _ Ha Hb) as Heq.
  destruct (float_key (Program.Stats.weakness a)) as [[a1 a2] a3] eqn:Ka.
  destruct (float_key (Program.Stats.weakness b)) as [[b1 b2] b3] eqn:Kb.
  unfold key_lt in *.
  destruct (Program.Stats.weakness a =? Program.Stats.weakness b)%float; simpl.
  - assert (E : (a1, a2, a3) = (b1, b2, b3)) by (by apply Heq).
    injection E as -> -> ->.
    destruct (Z.eqb_spec (Program.Stats.cost a) (Program.Stats.cost b)); simpl.
    + rewrite Z.ltb_lt. split; [intros; right; split; [done|]; lia|].
      intros [?|[_ ?]]; lia.
    + rewrite Z.ltb_lt. split; [intros; right; split; [done|]; lia|].
      intros [?|[_ ?]]; lia.
  - assert (E : (a1, a2, a3) <> (b1, b2, b3)).
    { intros E. apply Heq in E. discriminate. }
    rewrite Hlt. split; [by left|].
    intros [?|[E' _]]; [done|]. by destruct E.
Qed.

Lemma triple_eq (a1 a2 a3 b1 b2 b3 : Z) :
  (a1, a2, a3) = (b1, b2, b3) <-> a1 = b1 /\ a2 = b2 /\ a3 = b3.
Proof. split; [intros [= -> -> ->]; done|intros (-> & -> & ->); done]. Qed.

Lemma stats_key_eq (w w' : Z * Z * Z) (c b c' b' : Z) :
  (w, c, b) = (w', c', b') <-> w = w' /\ c = c' /\ b = b'.
Proof. split; [intros [= -> -> ->]; done|intros (-> & -> & ->); done]. Qed.

Ltac key_lia :=
  repeat match goal with
         | a : (Z * Z * Z * Z * Z)%type |- _ => destruct a as [[[[? ?] ?] ?] ?]
         end;
  unfold stats_key_lt, key_lt in *;
  rewrite ?stats_key_eq, ?triple_eq in *; lia.

Lemma stats_key_lt_asym a b : stats_key_lt a b -> ~ stats_key_lt b a.
Proof. intros H1 H2. key_lia. Qed.

Lemma stats_key_lt_total a b : stats_key_lt a b \/ a = b \/ stats_key_lt b a.
Proof. key_lia. Qed.

Lemma stats_key_lt_trans a b c : stats_key_lt a b -> stats_key_lt b c -> stats_key_lt a c.
Proof. intros H1 H2. key_lia. Qed.

Lemma Program_lt_asym a b :
  is_number a = true -> is_number b = true ->
  Program.lt a b = true -> Program.lt b a = false.
Proof.
  unfold is_number, Program.lt. intros Ha Hb Hab.
  apply negb_true_iff in Ha, Hb.
  apply Stats_lt_key in Hab; [|done|done].
  destruct (Program.Stats.lt (Program.stats b) (Program.stats a)) eqn:E; [|done].
  apply Stats_lt_key in E; [|done|done]. by destruct (stats_key_lt_asym _ _ Hab).
Qed.

Lemma Program_lt_negtrans a b c :
  is_number a = true -> is_number b = true -> is_number c = true ->
  Program.lt b a = false -> Program.lt c b = false -> Program.lt c a = false.
Proof.
  unfold is_number, Program.lt. intros Ha Hb Hc Hba Hcb.
  apply negb_true_iff in Ha, Hb, Hc.
  destruct (Program.Stats.lt (Program.stats c) (Program.stats a)) eqn:E; [|done].
  apply Stats_lt_key in E; [|done|done].
  assert (Nba : ~ stats_key_lt (stats_key (Program.stats b)) (stats_key (Program.stats a))).
  { intros K. apply Stats_lt_key in K; [|done|done]. congruence. }
  assert (Ncb : ~ stats_key_lt (stats_key (Program.stats c)) (stats_key (Program.stats b))).
  { intros K. apply Stats_lt_key in K; [|done|done]. congruence. }
  destruct (stats_key_lt_total (stats_key (Program.stats b)) (stats_key (Program.stats a)))
    as [?|[Eab|Hab]]; [done| |].
  - rewrite Eab in Ncb. done.
  - destruct Ncb. by eapply stats_key_lt_trans.
Qed.

Lemma strict_weak_numbers (ps : list Program.t) :
  all_numbers ps = true -> strict_weak_on Program.lt ps = true.
Proof.
  intros Hn. unfold all_numbers in Hn. rewrite forallb_forall in Hn.
  assert (Hnum : forall a, In a ps ->
            PrimFloat.is_nan (Program.Stats.weakness (Program.stats a)) = false).
  { intros a Ha. apply Hn in Ha. by apply negb_true_iff in Ha. }
  apply strict_weak_on_spec. split.
  - intros a Ha. destruct (Program.lt a a) eqn:E; [|done].
    apply Stats_lt_key in E; [|by apply Hnum|by apply Hnum].
    by destruct (stats_key_lt_asym _ _ E).
  - intros a b c Ha Hb Hc.
    pose proof (Stats_lt_key _ _ (Hnum a Ha) (Hnum b Hb)) as Kab.
    pose proof (Stats_lt_key _ _ (Hnum b Hb) (Hnum a Ha)) as Kba.
    pose proof (Stats_lt_key _ _ (Hnum b Hb) (Hnum c Hc)) as Kbc.
    pose proof (Stats_lt_key _ _ (Hnum c Hc) (Hnum b Hb)) as Kcb.
    pose proof (Stats_lt_key _ _ (Hnum a Ha) (Hnum c Hc)) as Kac.
    pose proof (Stats_lt_key _ _ (Hnum c Hc) (Hnum a Ha)) as Kca.
    unfold Program.lt, incomparable. split.
    + intros Hab Hbc. apply Kac. eapply stats_key_lt_trans; [by apply Kab|by apply Kbc].
    + intros E1 E2. apply andb_true_iff in E1 as [E1 E1'], E2 as [E2 E2'].
      apply negb_true_iff in E1, E1', E2, E2'.
      assert (Eab : stats_key (Program.stats a) = stats_key (Program.stats b)).
      { destruct (stats_key_lt_total (stats_key (Program.stats a))
                                     (stats_key (Program.stats b))) as [K|[K|K]];
          [apply Kab in K; congruence|done|apply Kba in K; congruence]. }
      assert (Ebc : stats_key (Program.stats b) = stats_key (Program.stats c)).
      { destruct (stats_key_lt_total (stats_key (Program.stats b))
                                     (stats_key (Program.stats c))) as [K|[K|K]];
          [apply Kbc in K; congruence|done|apply Kcb in K; congruence]. }
      rewrite Eab, Ebc in Kac. rewrite Eab, Ebc in Kca.
      pose proof (stats_key_lt_asym (stats_key (Program.stats c))
                                    (stats_key (Program.stats c))) as Icc.
      apply andb_true_iff. split; apply negb_true_iff.
      * destruct (Program.Stats.lt (Program.stats a) (Program.stats c)); [|done].
        destruct Icc; by apply Kac.
      * destruct (Program.Stats.lt (Program.stats c) (Program.stats a)); [|done].
        destruct Icc; by apply Kca.
Qed.

Lemma std_sort_programs_sorted (ps ps' : list Program.t) :
  std_sort Program.lt ps = Ok ps' ->
  sorted_programs ps' /\ ps' = insertion_sort Program.lt ps.
Proof.
  intros [Hs ->]%std_sort_Ok_inv. split; [|reflexivity].
  pose proof (strict_weak_sorted Program.lt ps Hs) as Hsorted.
  intros i j a b Hij Hi Hj.
  exact (StronglySorted_lookup _ _ i j a b Hsorted Hij Hi Hj).
Qed.

Lemma sorted_after_insertion_sort (ps : list Program.t) :
  all_numbers ps = true -> sorted_programs (insertion_sort Program.lt ps).
Proof.
  intros Hn. unfold all_numbers in Hn. rewrite forallb_forall in Hn.
  assert (Hs : StronglySorted (fun a b => Program.lt b a = false)
                              (insertion_sort Program.lt ps)).
  { apply (insertion_sort_sorted Program.lt (fun p => is_number p = true)).
    - apply Program_lt_asym.
    - apply Program_lt_negtrans.
    - apply Forall_forall. intros p Hp. apply Hn. by apply list_elem_of_In. }
  intros i j a b Hij Hi Hj.
  exact (StronglySorted_lookup _ _ i j a b Hs Hij Hi Hj).
Qed.

(** ** Population *)

Section PopulationFacts.
Context `{RandomGen}.

Lemma pop_back_loop_take (n : nat) ps apex_cnt :
  0 <= apex_cnt -> (length ps <= n)%nat ->
  Population.pop_back_loop n ps apex_cnt = take (Z.to_nat apex_cnt) ps.
Proof.
  intros Ha. revert ps. induction n as [|n IH]; intros ps Hn; simpl.
  - destruct ps; [|simpl in Hn; lia]. by rewrite take_nil.
  - unfold vsize. destruct (Z.ltb_spec apex_cnt (Z.of_nat (length ps))) as [Hlt|Hge].
    + rewrite IH.
      * rewrite removelast_firstn_len, take_take. f_equal. lia.
      * rewrite removelast_firstn_len, length_take. lia.
    + rewrite take_ge; [done|lia].
Qed.




Lemma handle_feedback_frame p feedback p' :
  Program.handle_feedback p feedback = Ok p' ->
  Program.Stats.born (Program._stats p') = Program.Stats.born (Program._stats p)
  /\ Program._program p' = Program._program p
  /\ Program._in_cnt p' = Program._in_cnt p
  /\ Program._out_cnt p' = Program._out_cnt p
  /\ Program._repo p' = Program._repo p.
Proof.
  unfold Program.handle_feedback. intros Hf.
  apply bind_Ok_inv in Hf as (_ & _ & Hf).
  change (Program.num_alternatives p =? 1) with true in Hf. cbv iota in Hf.
  apply bind_Ok_inv in Hf as (slot & _ & Hf).
  apply bind_Ok_inv in Hf as (w & _ & Hf).
  apply bind_Ok_inv in Hf as (c & _ & Hf).
  injection Hf as <-. simpl. done.
Qed.

Lemma find_weakness_frame repo sim sim' :
  find_weakness repo sim = Ok sim' ->
  Program.Stats.born (Program._stats sim') = Program.Stats.born (Program._stats sim)
  /\ Program._program sim' = Program._program sim.
Proof.
  unfold find_weakness. intros Hf.
  apply bind_Ok_inv in Hf as (fb & _ & Hf).
  apply handle_feedback_frame in Hf as (? & ? & _). done.
Qed.

Lemma Population_mutate_inv fuel pop a c pop' :
  Population.mutate fuel pop a = Ok (c, pop') ->
  Program.Stats.born (Program._stats c) = Population._gen pop
  /\ exists rnd', pop' = Population.with_rnd pop rnd'.
Proof.
  unfold Population.mutate. intros Hm.
  apply bind_Ok_inv in Hm as ([q rnd'] & _ & Hm). injection Hm as <- <-.
  split; [reflexivity|eauto].
Qed.

Lemma select_inv pop limit p pop' :
  Population.select pop limit = Ok (p, pop') ->
  exists rnd', pop' = Population.with_rnd pop rnd'.
Proof.
  unfold Population.select. intros Hs.
  apply bind_Ok_inv in Hs as ([i rnd'] & _ & Hs).
  apply bind_Ok_inv in Hs as (q & _ & Hs). injection Hs as <- <-. eauto.
Qed.

(** The refill loop only appends, each appended program is stamped with the
    current generation, and it stops exactly at the target size. *)
Lemma refill_loop_inv fuel (n : nat) apex_cnt : forall pop pop',
  Population.refill_loop fuel n pop apex_cnt = Ok pop' ->
  exists news,
    Population._programs pop' = Population._programs pop ++ news
    /\ Population._gen pop' = Population._gen pop
    /\ Population._params pop' = Population._params pop
    /\ Population._repo pop' = Population._repo pop
    /\ Forall (fun c => Program.Stats.born (Program.stats c) = Population._gen pop) news
    /\ (vsize (Population._programs pop) <= pop_cnt (Population._params pop) ->
        vsize (Population._programs pop') = pop_cnt (Population._params pop)).
Proof.
  induction n as [|n IH]; intros pop pop'; simpl.
  - destruct (Z.ltb_spec (vsize (Population._programs pop))
                         (pop_cnt (Population._params pop))); [discriminate|].
    intros [= <-]. exists []. rewrite app_nil_r. repeat split; try done. lia.
  - destruct (Z.ltb_spec (vsize (Population._programs pop))
                         (pop_cnt (Population._params pop))) as [Hlt|Hge].
    + intros Hr.
      apply bind_Ok_inv in Hr as ([parent pop1] & Hsel & Hr).
      apply bind_Ok_inv in Hr as ([child pop2] & Hmut & Hr).
      apply bind_Ok_inv in Hr as (child' & Hfw & Hr).
      apply select_inv in Hsel as (r1 & ->).
      apply Population_mutate_inv in Hmut as (Hborn & r2 & ->).
      apply find_weakness_frame in Hfw as (Hborn' & _).
      apply IH in Hr as (news & Hps & Hg & Hpa & Hre & Hnews & Hsz).
      simpl in *. exists (child' :: news).
      rewrite Hps, <- app_assoc. repeat split; try done.
      * constructor; [|done]. unfold Program.stats. congruence.
      * intros _. rewrite app_assoc, <- Hps. apply Hsz. vsize_lia.
    + intros [= <-]. exists []. rewrite app_nil_r. repeat split; try done. lia.
Qed.

Lemma tick_inv fuel pop pop' :
  0 <= pop_cnt (Population._params pop) ->
  Population.tick fuel pop = Ok pop' ->
  let apex_cnt := pop_cnt (Population._params pop) / 10 in
  let gen := size_t_wrap (Population._gen pop + 1) in
  exists news,
    Population._programs pop'
    = insertion_sort Program.lt (take (Z.to_nat apex_cnt) (Population._programs pop) ++ news)
    /\ Forall (fun c => Program.Stats.born (Program.stats c) = gen) news
    /\ vsize (take (Z.to_nat apex_cnt) (Population._programs pop) ++ news)
       = pop_cnt (Population._params pop)
    /\ Population._gen pop' = gen
    /\ Population._params pop' = Population._params pop.
Proof.
  intros Hpc. unfold Population.tick. intros Ht.
  apply bind_Ok_inv in Ht as (pop1 & Hr & Ht).
  apply bind_Ok_inv in Ht as (ps & [_ ->]%std_sort_Ok_inv & Ht). injection Ht as <-.
  apply refill_loop_inv in Hr as (news & Hps & Hg & Hpa & Hre & Hnews & Hsz).
  simpl in *.
  assert (Ha : 0 <= pop_cnt (Population._params pop) / 10) by (apply Z.div_pos; lia).
  rewrite pop_back_loop_take in * by (done || lia).
  exists news. rewrite Hps. repeat split; try done.
  rewrite <- Hps. apply Hsz.
  unfold vsize. rewrite length_take.
  assert (pop_cnt (Population._params pop) / 10 <= pop_cnt (Population._params pop)).
  { apply Z.div_le_upper_bound; lia. }
  lia.
Qed.

Lemma Population_grow_loop_inv (n : nat) : forall pop pop',
  Population.grow_loop n pop = Ok pop' ->
  exists news,
    Population._programs pop' = Population._programs pop ++ news
    /\ Population._params pop' = Population._params pop
    /\ (vsize (Population._programs pop) <= pop_cnt (Population._params pop) ->
        vsize (Population._programs pop') = pop_cnt (Population._params pop)).
Proof.
  induction n as [|n IH]; intros pop pop'; simpl.
  - destruct (Z.ltb_spec (vsize (Population._programs pop))
                         (pop_cnt (Population._params pop))); [discriminate|].
    intros [= <-]. exists []. rewrite app_nil_r. repeat split; try done. lia.
  - destruct (Z.ltb_spec (vsize (Population._programs pop))
                         (pop_cnt (Population._params pop))) as [Hlt|Hge].
    + intros Hr.
      apply bind_Ok_inv in Hr as ([prog rnd] & _ & Hr).
      apply bind_Ok_inv in Hr as (prog' & _ & Hr).
      apply IH in Hr as (news & Hps & Hpa & Hsz).
      simpl in *. exists (prog' :: news).
      rewrite Hps, <- app_assoc. repeat split; try done.
      intros _. rewrite app_assoc, <- Hps. apply Hsz. vsize_lia.
    + intros [= <-]. exists []. rewrite app_nil_r. repeat split; try done. lia.
Qed.

End PopulationFacts.

Lemma all_numbers_perm ps qs :
  Permutation ps qs -> all_numbers ps = true -> all_numbers qs = true.
Proof.
  unfold all_numbers. rewrite !forallb_forall. intros Hp Hn x Hx.
  apply Hn. apply list_elem_of_In. rewrite Hp. by apply list_elem_of_In.
Qed.

Lemma sorted_insertion_sort_of_numbers ps :
  all_numbers (insertion_sort Program.lt ps) = true ->
  sorted_programs (insertion_sort Program.lt ps).
Proof.
  intros Hn. apply sorted_after_insertion_sort.
  eapply all_numbers_perm; [|exact Hn]. apply insertion_sort_perm.
Qed.

Section Newcomers.
Context `{RandomGen}.

Lemma mutate_loop_unfold fuel (rnd : rnd_state) new_prog :
  Population.mutate_loop (S fuel) rnd new_prog =
  ('(new_prog, rnd) ← Program.mutate rnd new_prog;
   '(v, rnd) ← Random.get rnd 0 99;
   if v <? 66 then Population.mutate_loop fuel rnd new_prog else Ok (new_prog, rnd)).
Proof. reflexivity. Qed.

(** What the loop returns was reached by one or more mutation rounds. *)
Lemma mutate_loop_mutations (fuel : nat) : forall (rnd rnd' : rnd_state) a c,
  Population.mutate_loop fuel rnd a = Ok (c, rnd') -> mutations rnd a rnd' c.
Proof.
  induction fuel as [|fuel IH]; intros rnd rnd' a c Hm; [discriminate|].
  rewrite mutate_loop_unfold in Hm.
  apply bind_Ok_inv in Hm as ([q rnd1] & Hq & Hm).
  apply bind_Ok_inv in Hm as ([v rnd2] & Hv & Hm).
  destruct (Z.ltb_spec v 66) as [Hlt|Hge].
  - eapply mutations_more; [exact Hq|exact Hv|exact Hlt|]. by apply IH.
  - apply Ok_inj in Hm. injection Hm as <- <-.
    eapply mutations_last; [exact Hq|exact Hv|exact Hge].
Qed.

(** And with enough fuel the loop returns what the rounds reach. *)
Lemma mutations_mutate_loop (rnd rnd' : rnd_state) a c :
  mutations rnd a rnd' c ->
  exists fuel, forall fuel', (fuel <= fuel')%nat ->
    Population.mutate_loop fuel' rnd a = Ok (c, rnd').
Proof.
  induction 1 as [rnd a q rnd1 v rnd2 Hq Hv Hge
                 |rnd a q rnd1 v rnd2 rnd3 c Hq Hv Hlt _ [fuel IH]].
  - exists 1%nat. intros [|fuel'] Hf; [lia|].
    rewrite mutate_loop_unfold, Hq, bind_Ok. cbv beta iota. rewrite Hv, bind_Ok.
    cbv beta iota. by replace (v <? 66) with false by lia.
  - exists (S fuel). intros [|fuel'] Hf; [lia|].
    rewrite mutate_loop_unfold, Hq, bind_Ok. cbv beta iota. rewrite Hv, bind_Ok.
    cbv beta iota. replace (v <? 66) with true by lia. apply IH. lia.
Qed.

Lemma refill_loop_newcomers fuel (n : nat) apex_cnt : forall pop pop',
  Population.refill_loop fuel n pop apex_cnt = Ok pop' ->
  exists news,
    Population._programs pop' = Population._programs pop ++ news
    /\ Forall (newcomer (Population._repo pop) (Population._gen pop)
                        (Population._programs pop')) news.
Proof.
  induction n as [|n IH]; intros pop pop'; simpl.
  - destruct (_ <? _); [discriminate|]. intros [= <-].
    exists []. by rewrite app_nil_r.
  - destruct (_ <? _); [|intros [= <-]; exists []; by rewrite app_nil_r].
    intros Hr.
    apply bind_Ok_inv in Hr as ([parent pop1] & Hsel & Hr).
    apply bind_Ok_inv in Hr as ([child pop2] & Hmut & Hr).
    apply bind_Ok_inv in Hr as (child' & Hfw & Hr).
    assert (Hparent : parent ∈ Population._programs pop).
    { unfold Population.select in Hsel.
      apply bind_Ok_inv in Hsel as ([i s] & _ & Hsel).
      apply bind_Ok_inv in Hsel as (q & Hq & Hsel). injection Hsel as <- _.
      apply vec_at_Ok in Hq as [_ Hq]. by eapply list_elem_of_lookup_2. }
    apply select_inv in Hsel as (r1 & ->).
    unfold Population.mutate in Hmut.
    apply bind_Ok_inv in Hmut as ([q rnd'] & Hloop & Hmut). injection Hmut as <- <-.
    apply mutate_loop_mutations in Hloop.
    unfold find_weakness in Hfw. apply bind_Ok_inv in Hfw as (feedback & Hhook & Hfb).
    apply IH in Hr as (news & Hps & Hnews). simpl in *.
    exists (child' :: news). split; [by rewrite Hps, <- app_assoc|].
    constructor; [|exact Hnews].
    exists parent, r1, rnd', q, feedback. split; [|done].
    rewrite Hps. apply elem_of_app. left. apply elem_of_app. by left.
Qed.

End Newcomers.

(** C4: a population returned by [grow()] or by [tick()] is non-decreasing in
    Stats order from front to back.  A tick keeps the first [pop_cnt/10]
    programs, appends programs until there are exactly [pop_cnt], each of them
    a copy of a member of the population that went through one or more rounds
    of [Program::mutate], was stamped with the new generation and was
    evaluated by the fitness hook and [handle_feedback]; and it sorts the
    whole.  ([std::sort] returns only for a comparison that is a strict weak
    ordering of the elements, which a NaN weakness beside two programs of
    different rank breaks.) *)
Theorem population_sorted_after_grow_and_tick `{RandomGen} (pop : Population.t) :
  0 <= pop_cnt (Population._params pop) ->
  (forall pop',
     Population.grow pop = Ok pop' ->
     sorted_programs (Population._programs pop')
     /\ (vsize (Population._programs pop) <= pop_cnt (Population._params pop) ->
         vsize (Population._programs pop') = pop_cnt (Population._params pop)))
  /\ (forall fuel pop',
        Population.tick fuel pop = Ok pop' ->
        let gen := size_t_wrap (Population._gen pop + 1) in
        let elite := take (Z.to_nat (pop_cnt (Population._params pop) / 10))
                          (Population._programs pop) in
        sorted_programs (Population._programs pop')
        /\ vsize (Population._programs pop') = pop_cnt (Population._params pop)
        /\ Population._gen pop' = gen
        /\ exists news,
             Population._programs pop' = insertion_sort Program.lt (elite ++ news)
             /\ Permutation (Population._programs pop') (elite ++ news)
             /\ vsize (elite ++ news) = pop_cnt (Population._params pop)
             /\ Forall (fun c => Program.Stats.born (Program.stats c) = gen) news
             /\ Forall (newcomer (Population._repo pop) gen (elite ++ news)) news).
Proof.
  intros Hpc. split.
  - intros pop' Hg. unfold Population.grow in Hg.
    apply bind_Ok_inv in Hg as (pop1 & Hl & Hg).
    apply bind_Ok_inv in Hg as (ps & Hs & Hg). injection Hg as <-. simpl.
    apply std_sort_programs_sorted in Hs as [Hsorted ->].
    split; [exact Hsorted|].
    apply Population_grow_loop_inv in Hl as (news & Hps & Hpa & Hsz).
    intros Hle. unfold vsize. rewrite insertion_sort_length.
    fold (vsize (Population._programs pop1)). by apply Hsz.
  - intros fuel pop' Ht gen elite.
    assert (Ha : 0 <= pop_cnt (Population._params pop) / 10) by (apply Z.div_pos; lia).
    unfold Population.tick in Ht.
    apply bind_Ok_inv in Ht as (pop1 & Hr & Ht).
    apply bind_Ok_inv in Ht as (ps & Hs & Ht). injection Ht as <-.
    apply std_sort_programs_sorted in Hs as [Hsorted ->].
    pose proof (refill_loop_inv _ _ _ _ _ Hr) as (news & Hps & Hg & Hpa & Hre & Hborn & Hsz).
    apply refill_loop_newcomers in Hr as (news' & Hps' & Hnew).
    simpl in *. rewrite pop_back_loop_take in * by (done || lia).
    fold elite in Hps, Hps', Hsz. fold gen in Hborn, Hnew, Hg.
    assert (news' = news) as -> by (apply (app_inv_head elite); congruence).
    assert (Hlen : vsize (Population._programs pop1) = pop_cnt (Population._params pop)).
    { apply Hsz. unfold vsize, elite. rewrite length_take.
      assert (pop_cnt (Population._params pop) / 10 <= pop_cnt (Population._params pop)).
      { apply Z.div_le_upper_bound; lia. }
      lia. }
    split; [exact Hsorted|].
    split; [unfold vsize in *; by rewrite insertion_sort_length|].
    split; [exact Hg|].
    exists news. rewrite Hps in *. split; [reflexivity|].
    split; [apply insertion_sort_perm|]. split; [exact Hlen|]. split; done.
Qed.

Lemma population_sorted_after_grow_and_tick_witness :
  sorted_programs (Population._programs small_population)
  /\ sorted_programs (Population._programs small_population_next)
  /\ vsize (Population._programs small_population_next)
     = pop_cnt (Population._params small_population).
Proof.
  assert (Hpc : 0 <= pop_cnt (Population._params small_start))
    by (vm_compute; discriminate).
  assert (Hpc' : 0 <= pop_cnt (Population._params small_population))
    by (vm_compute; discriminate).
  destruct (@population_sorted_after_grow_and_tick rand48_gen small_start Hpc)
    as [Hgrow _].
  destruct (@population_sorted_after_grow_and_tick rand48_gen small_population Hpc')
    as [_ Htick].
  assert (Hg : Population.grow small_start = Ok small_population).
  { apply from_outcome_is_ok. vm_compute. reflexivity. }
  assert (Ht : Population.tick 64 small_population = Ok small_population_next).
  { apply from_outcome_is_ok. vm_compute. reflexivity. }
  split; [|split].
  - apply (Hgrow _ Hg).
  - apply (Htick _ _ Ht).
  - apply (Htick _ _ Ht).
Defined.

(** With a NaN weakness beside two programs of different rank the Stats
    order is no strict weak ordering of the programs (the NaN is incomparable
    to both, which are comparable), and the sort of [grow] is undefined. *)
Example grow_undefined_with_nan :
  strict_weak_on Program.lt (Population._programs nan_population) = false
  /\ Population.grow nan_population = Undefined.
Proof.
  assert (Hs : strict_weak_on Program.lt (Population._programs nan_population) = false)
    by (vm_compute; reflexivity).
  split; [exact Hs|]. unfold Population.grow.
  change (Population.grow_loop (Z.to_nat (pop_cnt (Population._params nan_population)))
            nan_population) with (Ok nan_population).
  rewrite bind_Ok. unfold std_sort. rewrite Hs. reflexivity.
Qed.

(** ** tick and the elite prefix *)

Lemma refill_loop_empty_zero `{RandomGen} fuel (n : nat) (pop : Population.t) :
  Population._programs pop = [] -> 0 < pop_cnt (Population._params pop) ->
  Population.refill_loop fuel (S n) pop 0 = Undefined.
Proof.
  intros Hps Hpc.
  change (Population.refill_loop fuel (S n) pop 0)
    with (if vsize (Population._programs pop) <? pop_cnt (Population._params pop)
          then '(parent, pop) ← Population.select pop 0;
               '(child, pop) ← Population.mutate fuel pop parent;
               child ← find_weakness (Population._repo pop) child;
               Population.refill_loop fuel n
                 (Population.with_programs pop (Population._programs pop ++ [child])) 0
          else Ok pop).
  rewrite Hps, vsize_nil. replace (0 <? _) with true by lia. reflexivity.
Qed.

Lemma tick_undefined_below_ten `{RandomGen} fuel (pop : Population.t) :
  1 <= pop_cnt (Population._params pop) < 10 ->
  Population.tick fuel pop = Undefined.
Proof.
  intros Hpc. unfold Population.tick.
  assert (Ha : pop_cnt (Population._params pop) / 10 = 0) by (apply Z.div_small; lia).
  simpl. rewrite Ha. rewrite pop_back_loop_take by lia.
  destruct (Z.to_nat (pop_cnt (Population._params pop))) as [|n] eqn:En; [lia|].
  rewrite refill_loop_empty_zero; [reflexivity|reflexivity|simpl; lia].
Qed.




(** A population of target size 9 cannot tick. *)
Example tick_undefined_for_nine :
  Population.tick 8
    (Population.mk Rand48.init 0
       {| in_cnt := 3; out_cnt := 3; op_cnt := 3; pop_cnt := 9 |} test_repo [])
  = Undefined.
Proof. apply (@tick_undefined_below_ten rand48_gen). simpl. lia. Qed.

(** ** The expression table *)

Lemma expr_fold_extends suf : forall tbl,
  exists ext, fold_left (fun tbl op => tbl ++ [expr_entry tbl op]) suf tbl = tbl ++ ext.
Proof.
  induction suf as [|op suf IH]; intros tbl; simpl.
  - exists []. by rewrite app_nil_r.
  - destruct (IH (tbl ++ [expr_entry tbl op])) as [ext ->].
    exists (expr_entry tbl op :: ext). by rewrite <- app_assoc.
Qed.

Lemma expr_table_app pre suf :
  exists ext, expr_table (pre ++ suf) = expr_table pre ++ ext.
Proof. unfold expr_table. rewrite fold_left_app. apply expr_fold_extends. Qed.

Lemma expr_table_snoc pre op :
  expr_table (pre ++ [op]) = expr_table pre ++ [expr_entry (expr_table pre) op].
Proof. unfold expr_table. by rewrite fold_left_app. Qed.

Lemma expr_table_length ops : length (expr_table ops) = length ops.
Proof.
  induction ops as [|op ops IH] using rev_ind; [reflexivity|].
  rewrite expr_table_snoc, !length_app, IH. reflexivity.
Qed.

Lemma expr_get_prefix in_cnt tbl ext r :
  operand_ok in_cnt (vsize tbl) r -> expr_get (tbl ++ ext) r = expr_get tbl r.
Proof.
  intros H. apply operand_ok_cases in H. unfold expr_get.
  destruct H as [(Hi & _)|(Hi & _ & Hidx & Hr)]; rewrite Hi; [done|].
  rewrite Hidx. unfold vsize in Hr. rewrite lookup_app_l by lia. done.
Qed.

Lemma expr_nodes_pos e : 1 <= expr_nodes e.
Proof. induction e; simpl; lia. Qed.

(** The expression of an operation reference, one level unfolded. *)
Lemma expr_of_op p (k : nat) op r :
  valid_program p -> Program._program p !! k = Some op ->
  Program.Ref.is_input r = false -> Program.Ref.op_idx r = Z.of_nat k ->
  expr_of p r =
  (if Program.Op.code op =? 0 then expr_of p (Program.Op.lhs op)
   else Node (Program.Op.code op) (expr_of p (Program.Op.lhs op))
             (expr_of p (Program.Op.rhs op))).
Proof.
  intros Hvalid Hop Hi Hidx.
  pose proof (Hvalid _ _ Hop) as (_ & Hl & Hr).
  pose proof (take_drop_middle _ _ _ Hop) as Hsplit.
  pose proof (lookup_lt_Some _ _ _ Hop) as Hk.
  set (pre := take k (Program._program p)) in *.
  assert (Hlen : length (expr_table pre) = k).
  { rewrite expr_table_length. unfold pre. rewrite length_take. lia. }
  destruct (expr_table_app (pre ++ [op]) (drop (S k) (Program._program p))) as [ext Hext].
  rewrite <- app_assoc in Hext. simpl in Hext. rewrite Hsplit in Hext.
  rewrite expr_table_snoc, <- app_assoc in Hext.
  unfold expr_of. rewrite Hext.
  assert (Hl' : operand_ok (Program._in_cnt p) (vsize (expr_table pre)) (Program.Op.lhs op))
    by (unfold vsize; by rewrite Hlen).
  assert (Hr' : operand_ok (Program._in_cnt p) (vsize (expr_table pre)) (Program.Op.rhs op))
    by (unfold vsize; by rewrite Hlen).
  rewrite !(expr_get_prefix _ _ _ _ Hl'), !(expr_get_prefix _ _ _ _ Hr').
  unfold expr_get at 1. rewrite Hi, Hidx, Nat2Z.id.
  rewrite lookup_app_r by lia. rewrite Hlen, Nat.sub_diag. reflexivity.
Qed.

(** ** size_of *)

Lemma size_t_wrap_sum a b :
  size_t_wrap (1 + size_t_wrap a + size_t_wrap b) = size_t_wrap (1 + a + b).
Proof.
  unfold size_t_wrap.
  rewrite Zplus_mod_idemp_r.
  replace (1 + a mod 2 ^ 64 + b) with (a mod 2 ^ 64 + (1 + b)) by lia.
  rewrite Zplus_mod_idemp_l. f_equal. lia.
Qed.

Lemma get_size_table in_cnt tbl r :
  operand_ok in_cnt (vsize tbl) r ->
  Program.get_size (map (fun e => size_t_wrap (expr_nodes e)) tbl) r
  = Ok (size_t_wrap (expr_nodes (expr_get tbl r))).
Proof.
  intros H. apply operand_ok_cases in H. unfold Program.get_size, expr_get.
  destruct H as [(Hi & _)|(Hi & _ & Hidx & Hr)]; rewrite Hi; [reflexivity|].
  rewrite Hidx. unfold vsize in Hr.
  destruct (lookup_lt_is_Some_2 tbl (Z.to_nat (Program.Ref.idx r)) ltac:(lia)) as [e He].
  rewrite He. simpl. apply vec_at_Ok. split; [lia|].
  by rewrite list_lookup_fmap, He.
Qed.

Lemma size_table_of_prefix p pre : forall suf,
  valid_program p -> Program._program p = pre ++ suf ->
  foldM Program.size_step [] pre
  = Ok (map (fun e => size_t_wrap (expr_nodes e)) (expr_table pre)).
Proof.
  induction pre as [|op pre IH] using rev_ind; intros suf Hvalid Hp; [reflexivity|].
  rewrite foldM_app, (IH ([op] ++ suf)), bind_Ok by (done || by rewrite app_assoc).
  assert (Hop : Program._program p !! length pre = Some op).
  { rewrite Hp, <- app_assoc. simpl. by apply list_lookup_middle. }
  apply Hvalid in Hop as (_ & Hl & Hr).
  rewrite <- (expr_table_length pre) in Hl, Hr. fold (vsize (expr_table pre)) in Hl, Hr.
  rewrite foldM_cons, expr_table_snoc, map_app. simpl map.
  unfold Program.size_step, expr_entry.
  rewrite (get_size_table _ _ _ Hl).
  destruct (Program.Op.code op =? 0).
  - rewrite !bind_Ok. reflexivity.
  - rewrite bind_Ok, (get_size_table _ _ _ Hr), !bind_Ok. simpl expr_nodes.
    by rewrite size_t_wrap_sum.
Qed.

(** [size_of] is the node count of the expression, reduced to [size_t]. *)
Lemma size_of_expr p r :
  valid_program p ->
  operand_ok (Program._in_cnt p) (vsize (Program._program p)) r ->
  Program.size_of p r = Ok (size_t_wrap (expr_nodes (expr_of p r))).
Proof.
  intros Hvalid Hr. unfold Program.size_of.
  rewrite (assert_valid_ok _ _ _ Hr), bind_Ok.
  pose proof Hr as Hc. apply operand_ok_cases in Hc.
  destruct Hc as [(Hi & _)|(Hi & _ & Hidx & Hrange)]; rewrite Hi.
  - unfold expr_of, expr_get. rewrite Hi. reflexivity.
  - rewrite Hidx. unfold vsize in Hrange.
    set (k := Z.to_nat (Program.Ref.idx r)).
    destruct (lookup_lt_is_Some_2 (Program._program p) k ltac:(lia)) as [op Hop].
    pose proof (take_drop_middle _ _ _ Hop) as Hsplit.
    assert (Htake : take (k + 1) (Program._program p) = take k (Program._program p) ++ [op]).
    { rewrite Nat.add_1_r. by apply take_S_r. }
    rewrite Htake.
    rewrite (size_table_of_prefix p _ (drop (S k) (Program._program p)) Hvalid)
      by (rewrite <- app_assoc; simpl; by rewrite Hsplit).
    rewrite bind_Ok, expr_table_snoc, map_app. simpl map. rewrite last_snoc.
    f_equal. f_equal. f_equal.
    rewrite (expr_of_op p k op r Hvalid Hop) by (done || (rewrite Hidx; unfold k; lia)).
    pose proof (Hvalid _ _ Hop) as (_ & Hl & Hr').
    assert (Hlen : length (expr_table (take k (Program._program p))) = k).
    { rewrite expr_table_length, length_take. lia. }
    destruct (expr_table_app (take k (Program._program p))
                             (op :: drop (S k) (Program._program p))) as [ext Hext].
    rewrite Hsplit in Hext. unfold expr_of, expr_entry. rewrite Hext.
    rewrite !(expr_get_prefix (Program._in_cnt p)) by (unfold vsize; by rewrite Hlen).
    reflexivity.
Qed.

(** ** as_string *)

Lemma name_of_ok repo code :
  repo_ok repo -> 0 <= code <= OpRepo.max_op repo ->
  OpRepo.name_of repo code = Ok (op_name repo code).
Proof.
  unfold repo_ok, OpRepo.max_op, OpRepo.name_of, op_name. intros Hr Hc.
  rewrite size_t_wrap_small in Hc by lia.
  destruct (vec_at_in_range (OpRepo._list repo) code) as (e & -> & ->); [lia|].
  reflexivity.
Qed.

Lemma as_string_S fuel p ref :
  Program.as_string (S fuel) p ref =
  (_ ← Program.assert_valid p ref (vsize (Program._program p));
   expr_size ← Program.size_of p ref;
   if 9000 <? expr_size then
     Ok ("expr(" ++ format_zu expr_size ++ " nodes)")%string
   else if Program.Ref.is_input ref then
     Ok ("i" ++ format_zu (Program.Ref.in_idx ref))%string
   else
     my_op ← vec_at (Program._program p) (Program.Ref.op_idx ref);
     if Program.Op.code my_op =? 0 then
       Program.as_string fuel p (Program.Op.lhs my_op)
     else
       n ← OpRepo.name_of (Program._repo p) (Program.Op.code my_op);
       l ← Program.as_string fuel p (Program.Op.lhs my_op);
       r ← Program.as_string fuel p (Program.Op.rhs my_op);
       Ok (n ++ "(" ++ l ++ "," ++ r ++ ")")%string).
Proof. reflexivity. Qed.

(** With enough fuel, an expression of at most 9000 nodes is rendered in
    full. *)
Lemma as_string_expr p :
  valid_program p -> repo_ok (Program._repo p) ->
  forall (fuel : nat) r,
    operand_ok (Program._in_cnt p) (vsize (Program._program p)) r ->
    expr_nodes (expr_of p r) <= 9000 ->
    (Z.to_nat (Z.max 1 (Program.Ref.idx r + 2)) <= fuel)%nat ->
    Program.as_string fuel p r = Ok (render (Program._repo p) (expr_of p r)).
Proof.
  intros Hvalid Hrepo. induction fuel as [|fuel IH]; intros r Hr Hn Hf; [lia|].
  rewrite as_string_S, (assert_valid_ok _ _ _ Hr), bind_Ok.
  rewrite (size_of_expr p r Hvalid Hr), bind_Ok.
  pose proof (expr_nodes_pos (expr_of p r)) as Hpos.
  rewrite size_t_wrap_small by lia.
  replace (9000 <? _) with false by lia.
  pose proof Hr as Hc. apply operand_ok_cases in Hc.
  destruct Hc as [(Hi & _)|(Hi & _ & Hidx & Hrange)]; rewrite Hi.
  - unfold expr_of, expr_get. rewrite Hi. reflexivity.
  - rewrite Hidx.
    destruct (vec_at_in_range (Program._program p) (Program.Ref.idx r))
      as (op & -> & Hop); [lia|].
    rewrite bind_Ok.
    assert (Hk : Program.Ref.op_idx r = Z.of_nat (Z.to_nat (Program.Ref.idx r)))
      by (rewrite Hidx; lia).
    rewrite (expr_of_op p _ op r Hvalid Hop Hi Hk) in Hn |- *.
    pose proof (Hvalid _ _ Hop) as (Hcode & Hl & Hr').
    rewrite Z2Nat.id in Hl, Hr' by lia.
    assert (Hlv : operand_ok (Program._in_cnt p) (vsize (Program._program p))
                             (Program.Op.lhs op))
      by (eapply operand_ok_mono; [|exact Hl]; lia).
    assert (Hrv : operand_ok (Program._in_cnt p) (vsize (Program._program p))
                             (Program.Op.rhs op))
      by (eapply operand_ok_mono; [|exact Hr']; lia).
    assert (Hlf : (Z.to_nat (Z.max 1 (Program.Ref.idx (Program.Op.lhs op) + 2)) <= fuel)%nat).
    { apply operand_ok_cases in Hl. lia. }
    assert (Hrf : (Z.to_nat (Z.max 1 (Program.Ref.idx (Program.Op.rhs op) + 2)) <= fuel)%nat).
    { apply operand_ok_cases in Hr'. lia. }
    destruct (Program.Op.code op =? 0).
    + by apply IH.
    + simpl in Hn.
      pose proof (expr_nodes_pos (expr_of p (Program.Op.lhs op))).
      pose proof (expr_nodes_pos (expr_of p (Program.Op.rhs op))).
      rewrite (name_of_ok _ _ Hrepo Hcode), bind_Ok.
      rewrite (IH _ Hlv) by (lia || done). rewrite bind_Ok.
      rewrite (IH _ Hrv) by (lia || done). rewrite bind_Ok.
      reflexivity.
Qed.

(** ** Counting the tokens of a rendered expression *)

Lemma string_app_nil_r (s : string) : (s ++ "")%string = s.
Proof. induction s as [|c s IH]; simpl; [reflexivity|by rewrite IH]. Qed.

Lemma string_app_assoc (a b c : string) : ((a ++ b) ++ c)%string = (a ++ b ++ c)%string.
Proof. induction a as [|x a IH]; simpl; [reflexivity|by rewrite IH]. Qed.

Lemma count_token_run repo tok :
  no_delim tok = true ->
  forall cur rest,
    count_tokens_from repo (tok ++ rest) cur = count_tokens_from repo rest (cur ++ tok).
Proof.
  induction tok as [|c tok IH]; intros Hnd cur rest; simpl.
  - by rewrite string_app_nil_r.
  - simpl in Hnd. apply andb_true_iff in Hnd as [Hc Hnd].
    unfold is_delim in Hc. apply negb_true_iff in Hc.
    apply orb_false_iff in Hc as [Hc H3]. apply orb_false_iff in Hc as [H1 H2].
    rewrite H1, H2, H3. simpl. rewrite IH by done.
    by rewrite string_app_assoc.
Qed.

Lemma digits_of_uint d :
  all_digits (NilEmpty.string_of_uint d) = true
  /\ no_delim (NilEmpty.string_of_uint d) = true.
Proof. induction d; simpl; try done; destruct IHd as [-> ->]; done. Qed.

Lemma format_zu_digits n :
  all_digits (format_zu n) = true /\ no_delim (format_zu n) = true
  /\ format_zu n <> EmptyString.
Proof.
  unfold format_zu, NilZero.string_of_uint.
  destruct (N.to_uint (Z.to_N n)) as [|d|d|d|d|d|d|d|d|d|d] eqn:E;
    try (split; [reflexivity|split; [reflexivity|discriminate]]);
    simpl; destruct (digits_of_uint d) as [-> ->]; (split; [done|split; [done|discriminate]]).
Qed.

Lemma leaf_is_input_token n : is_input_token ("i" ++ format_zu n) = true.
Proof.
  destruct (format_zu_digits n) as (Hd & _ & Hne). simpl.
  rewrite Hd. destruct (format_zu n); [done|reflexivity].
Qed.

Lemma op_name_is_op_name repo code :
  0 <= code < vsize (OpRepo._list repo) -> is_op_name repo (op_name repo code) = true.
Proof.
  intros Hc. unfold is_op_name, op_name.
  destruct (vec_at_in_range (OpRepo._list repo) code Hc) as (e & _ & He). rewrite He.
  apply existsb_exists. exists e. split; [|apply String.eqb_refl].
  apply list_elem_of_In. by eapply list_elem_of_lookup_2.
Qed.

Lemma op_name_no_delim repo code :
  names_ok repo = true -> no_delim (op_name repo code) = true.
Proof.
  unfold names_ok, op_name. rewrite forallb_forall. intros Hn.
  destruct (OpRepo._list repo !! Z.to_nat code) as [e|] eqn:He; [|reflexivity].
  apply Hn. apply list_elem_of_In. by eapply list_elem_of_lookup_2.
Qed.

Lemma count_after_leaf repo tok rest :
  no_delim tok = true -> is_input_token tok = true -> closes rest ->
  count_tokens_from repo (tok ++ rest) "" = 1 + count_tokens_from repo rest "".
Proof.
  intros Hnd Htok Hrest. rewrite count_token_run by done. simpl.
  destruct Hrest as [->|[rest' [->| ->]]]; simpl; rewrite Htok; lia.
Qed.

Lemma render_count repo e :
  names_ok repo = true -> expr_codes_ok repo e ->
  forall rest, closes rest ->
    count_tokens_from repo (render repo e ++ rest) ""
    = expr_nodes e + count_tokens_from repo rest "".
Proof.
  intros Hnames. induction e as [n|c l IHl r IHr]; intros Hcodes rest Hrest.
  - simpl render. simpl expr_nodes. apply count_after_leaf; [|apply leaf_is_input_token|done].
    destruct (format_zu_digits n) as (_ & Hnd & _). simpl. exact Hnd.
  - destruct Hcodes as (Hc & Hl & Hr). simpl render. simpl expr_nodes.
    rewrite string_app_assoc, count_token_run by (by apply op_name_no_delim).
    simpl. rewrite (op_name_is_op_name _ _ Hc).
    rewrite string_app_assoc, (IHl Hl) by (right; eexists; left; reflexivity).
    simpl. rewrite string_app_assoc, (IHr Hr) by (right; eexists; right; reflexivity).
    simpl. destruct Hrest as [->|[rest' [->| ->]]]; simpl; lia.
Qed.

Lemma expr_get_codes_ok repo tbl r :
  Forall (expr_codes_ok repo) tbl -> expr_codes_ok repo (expr_get tbl r).
Proof.
  intros Htbl. unfold expr_get. destruct (Program.Ref.is_input r); [exact I|].
  destruct (tbl !! Z.to_nat (Program.Ref.op_idx r)) as [e|] eqn:He; simpl; [|exact I].
  rewrite Forall_forall in Htbl. apply Htbl. by eapply list_elem_of_lookup_2.
Qed.

Lemma expr_table_codes_ok p pre : forall suf,
  valid_program p -> repo_ok (Program._repo p) ->
  Program._program p = pre ++ suf ->
  Forall (expr_codes_ok (Program._repo p)) (expr_table pre).
Proof.
  induction pre as [|op pre IH] using rev_ind; intros suf Hvalid Hrepo Hp; [constructor|].
  rewrite expr_table_snoc. apply Forall_app. split.
  - apply (IH ([op] ++ suf)); [done|done|by rewrite app_assoc].
  - constructor; [|constructor].
    assert (Hop : Program._program p !! length pre = Some op).
    { rewrite Hp, <- app_assoc. simpl. by apply list_lookup_middle. }
    apply Hvalid in Hop as (Hcode & _).
    assert (Htbl : Forall (expr_codes_ok (Program._repo p)) (expr_table pre)).
    { apply (IH ([op] ++ suf)); [done|done|by rewrite app_assoc]. }
    unfold expr_entry. destruct (Program.Op.code op =? 0); [by apply expr_get_codes_ok|].
    simpl. split; [|split; by apply expr_get_codes_ok].
    unfold repo_ok, OpRepo.max_op in *. rewrite size_t_wrap_small in Hcode; lia.
Qed.

Lemma expr_of_codes_ok p r :
  valid_program p -> repo_ok (Program._repo p) ->
  expr_codes_ok (Program._repo p) (expr_of p r).
Proof.
  intros Hvalid Hrepo. apply expr_get_codes_ok.
  apply (expr_table_codes_ok p _ []); [done|done|by rewrite app_nil_r].
Qed.

(** X1: Rendering and size agree: for a well-formed program over a catalog whose
    names hold none of [(], [,], [)], and a reference whose expanded
    expression has at most 9000 nodes, [as_string] (given fuel for the depth)
    renders the whole expression, [size_of] is its node count, and counting
    the operation-name and input tokens of the string gives back [size_of]. *)
Theorem as_string_tokens_match_size_of (p : Program.t) (r : Program.Ref.t) (fuel : nat) :
  valid_program p -> repo_ok (Program._repo p) ->
  names_ok (Program._repo p) = true ->
  operand_ok (Program._in_cnt p) (vsize (Program._program p)) r ->
  expr_nodes (expr_of p r) <= 9000 ->
  (Z.to_nat (Z.max 1 (Program.Ref.idx r + 2)) <= fuel)%nat ->
  exists s n,
    Program.as_string fuel p r = Ok s
    /\ Program.size_of p r = Ok n
    /\ count_tokens (Program._repo p) s = n
    /\ n = expr_nodes (expr_of p r)
    /\ s = render (Program._repo p) (expr_of p r).
Proof.
  intros Hvalid Hrepo Hnames Hr Hn Hf.
  exists (render (Program._repo p) (expr_of p r)), (expr_nodes (expr_of p r)).
  pose proof (expr_nodes_pos (expr_of p r)) as Hpos.
  split; [by apply as_string_expr|].
  split; [rewrite size_of_expr, size_t_wrap_small by (done || lia); reflexivity|].
  split; [|done]. unfold count_tokens.
  rewrite <- (string_app_nil_r (render _ _)).
  rewrite render_count; [simpl; lia|done|by apply expr_of_codes_ok|by left].
Qed.

Lemma as_string_tokens_match_size_of_witness :
  exists s n,
    Program.as_string 20 hand_crafted_program (Program.Ref.op 9) = Ok s
    /\ Program.size_of hand_crafted_program (Program.Ref.op 9) = Ok n
    /\ count_tokens (Program._repo hand_crafted_program) s = n
    /\ n = expr_nodes (expr_of hand_crafted_program (Program.Ref.op 9))
    /\ s = render (Program._repo hand_crafted_program)
                  (expr_of hand_crafted_program (Program.Ref.op 9)).
Proof.
  apply (as_string_tokens_match_size_of hand_crafted_program (Program.Ref.op 9) 20).
  - apply valid_programb_sound. vm_compute. reflexivity.
  - unfold repo_ok. vm_compute. split; discriminate.
  - vm_compute. reflexivity.
  - apply operand_okb_sound. vm_compute. reflexivity.
  - vm_compute. discriminate.
  - vm_compute. lia.
Defined.

(** The size table wraps: in the doubling program the expression of operation
    62 has 2^64 - 1 nodes, operation 63 adds two more, and [size_of] reports 1
    for it; its rendering holds a placeholder and two countable tokens. *)
Example size_of_wraps_in_doubling_program :
  valid_programb doubling_program = true
  /\ Program.size_of doubling_program (Program.Ref.op 62) = Ok (2 ^ 64 - 1)
  /\ Program.size_of doubling_program (Program.Ref.op 63) = Ok 1
  /\ Program.as_string 3 doubling_program (Program.Ref.op 63)
     = Ok "add(expr(18446744073709551615 nodes),i0)"%string
  /\ count_tokens test_repo "add(expr(18446744073709551615 nodes),i0)" = 2.
Proof. vm_compute. repeat split. Qed.

(** The first slot of the hand-crafted program: [(c-a)*(c+a)]. *)
Example hand_crafted_mul_string :
  Program.as_string 3 hand_crafted_program (Program.Ref.op 2)
  = Ok "mul(sub(i2,i0),add(i2,i0))"%string
  /\ Program.size_of hand_crafted_program (Program.Ref.op 2) = Ok 7.
Proof. vm_compute. repeat split. Qed.

(** ** size_of and as_string, one level at a time *)

Lemma operand_ok_operation in_cnt limit r :
  is_int (Program.Ref.idx r) -> 0 <= Program.Ref.idx r < limit ->
  operand_ok in_cnt limit r.
Proof.
  unfold operand_ok, is_int, INT_MIN, INT_MAX, Program.Ref.is_operation, Program.Ref.op_idx.
  intros Hint Hr. split; [done|]. right.
  rewrite size_t_wrap_small by lia. split; lia.
Qed.

(** X2: The forward pass of [size_of] computes the recursion over the operands:
    a forward operation has the size of its left operand, any other operation
    one more than the sizes of both operands, reduced to [size_t]. *)
Theorem size_of_unfolds (p : Program.t) (k : nat) (op : Program.Op.t) (r : Program.Ref.t) :
  valid_program p ->
  Program._program p !! k = Some op ->
  is_int (Program.Ref.idx r) -> Program.Ref.idx r = Z.of_nat k ->
  Program.size_of p r =
  (if Program.Op.code op =? 0 then Program.size_of p (Program.Op.lhs op)
   else l ← Program.size_of p (Program.Op.lhs op);
        r ← Program.size_of p (Program.Op.rhs op);
        Ok (size_t_wrap (1 + l + r))).
Proof.
  intros Hvalid Hop Hint Hidx.
  pose proof (lookup_lt_Some _ _ _ Hop) as Hk.
  assert (Hr : operand_ok (Program._in_cnt p) (vsize (Program._program p)) r).
  { apply operand_ok_operation; [done|]. unfold vsize. lia. }
  pose proof Hr as Hc. apply operand_ok_cases in Hc.
  destruct Hc as [(_ & _ & _ & Hneg)|(Hi & _ & Hopidx & _)]; [lia|].
  pose proof (Hvalid _ _ Hop) as (_ & Hl & Hr').
  assert (Hlv : operand_ok (Program._in_cnt p) (vsize (Program._program p))
                           (Program.Op.lhs op))
    by (eapply operand_ok_mono; [|exact Hl]; unfold vsize; lia).
  assert (Hrv : operand_ok (Program._in_cnt p) (vsize (Program._program p))
                           (Program.Op.rhs op))
    by (eapply operand_ok_mono; [|exact Hr']; unfold vsize; lia).
  rewrite (size_of_expr p r Hvalid Hr), (size_of_expr p _ Hvalid Hlv),
    (size_of_expr p _ Hvalid Hrv).
  rewrite (expr_of_op p k op r Hvalid Hop Hi) by lia.
  destruct (Program.Op.code op =? 0); [reflexivity|].
  rewrite !bind_Ok. simpl expr_nodes. by rewrite size_t_wrap_sum.
Qed.

Lemma size_of_unfolds_witness :
  Program.size_of hand_crafted_program (Program.Ref.op 9) =
  (l ← Program.size_of hand_crafted_program (Program.Ref.in_ 4);
   r ← Program.size_of hand_crafted_program (Program.Ref.op 7);
   Ok (size_t_wrap (1 + l + r))).
Proof.
  apply (size_of_unfolds hand_crafted_program 9
           (Program.Op.mk 4 (Program.Ref.in_ 4) (Program.Ref.op 7)) (Program.Ref.op 9)).
  - apply valid_programb_sound. vm_compute. reflexivity.
  - vm_compute. reflexivity.
  - vm_compute. split; discriminate.
  - vm_compute. reflexivity.
Defined.

(** X3: A forward operation is transparent: it has the size of the operand it
    forwards, and [as_string] renders it as that operand (also when the size is
    over the threshold and both render as the same placeholder). *)
Theorem forward_is_transparent (p : Program.t) (k : nat) (op : Program.Op.t)
    (r : Program.Ref.t) (fuel : nat) :
  valid_program p ->
  Program._program p !! k = Some op -> Program.Op.code op = 0 ->
  is_int (Program.Ref.idx r) -> Program.Ref.idx r = Z.of_nat k ->
  Program.size_of p r = Program.size_of p (Program.Op.lhs op)
  /\ Program.as_string (S (S fuel)) p r = Program.as_string (S fuel) p (Program.Op.lhs op).
Proof.
  intros Hvalid Hop Hcode Hint Hidx.
  pose proof (lookup_lt_Some _ _ _ Hop) as Hk.
  pose proof (Hvalid _ _ Hop) as (_ & Hl & _).
  assert (Hr : operand_ok (Program._in_cnt p) (vsize (Program._program p)) r).
  { apply operand_ok_operation; [done|]. unfold vsize. lia. }
  assert (Hlv : operand_ok (Program._in_cnt p) (vsize (Program._program p))
                           (Program.Op.lhs op))
    by (eapply operand_ok_mono; [|exact Hl]; unfold vsize; lia).
  assert (Hsz : Program.size_of p r = Program.size_of p (Program.Op.lhs op)).
  { pose proof Hr as Hc. apply operand_ok_cases in Hc.
    destruct Hc as [(_ & _ & _ & Hneg)|(Hi & _ & Hopidx & _)]; [lia|].
    rewrite (size_of_expr p r Hvalid Hr), (size_of_expr p _ Hvalid Hlv).
    rewrite (expr_of_op p k op r Hvalid Hop Hi) by lia.
    rewrite Hcode. reflexivity. }
  split; [exact Hsz|].
  rewrite (as_string_S (S fuel)), (assert_valid_ok _ _ _ Hr), bind_Ok, Hsz.
  rewrite (size_of_expr p _ Hvalid Hlv), bind_Ok.
  destruct (9000 <? size_t_wrap (expr_nodes (expr_of p (Program.Op.lhs op)))) eqn:E.
  - rewrite (as_string_S fuel), (assert_valid_ok _ _ _ Hlv), bind_Ok.
    rewrite (size_of_expr p _ Hvalid Hlv), bind_Ok, E. reflexivity.
  - pose proof Hr as Hc. apply operand_ok_cases in Hc.
    destruct Hc as [(_ & _ & _ & Hneg)|(Hi & _ & Hopidx & _)]; [lia|].
    rewrite Hi, Hopidx, Hidx.
    assert (Hat : vec_at (Program._program p) (Z.of_nat k) = Ok op).
    { apply vec_at_Ok. split; [lia|]. by rewrite Nat2Z.id. }
    rewrite Hat, bind_Ok, Hcode. reflexivity.
Qed.

Lemma forward_is_transparent_witness :
  Program.size_of hand_crafted_program (Program.Ref.op 5)
  = Program.size_of hand_crafted_program (Program.Ref.op 2)
  /\ Program.as_string 6 hand_crafted_program (Program.Ref.op 5)
     = Program.as_string 5 hand_crafted_program (Program.Ref.op 2).
Proof.
  apply (forward_is_transparent hand_crafted_program 5
           (Program.Op.mk 0 (Program.Ref.op 2) Program.Ref.nop) (Program.Ref.op 5) 4).
  - apply valid_programb_sound. vm_compute. reflexivity.
  - vm_compute. reflexivity.
  - reflexivity.
  - vm_compute. split; discriminate.
  - vm_compute. reflexivity.
Defined.

(** ** References *)

(** X4: The two constructors and the accessors are inverse to each other on the
    indices an [int] can encode, and an input reference never equals an
    operation reference. *)
Theorem Ref_constructors_roundtrip (k : Z) :
  0 <= k < 2 ^ 31 - 1 ->
  Program.Ref.is_input (Program.Ref.in_ k) = true
  /\ Program.Ref.is_operation (Program.Ref.in_ k) = false
  /\ Program.Ref.in_idx (Program.Ref.in_ k) = k
  /\ Program.Ref.is_operation (Program.Ref.op k) = true
  /\ Program.Ref.is_input (Program.Ref.op k) = false
  /\ Program.Ref.op_idx (Program.Ref.op k) = k
  /\ is_int (Program.Ref.idx (Program.Ref.in_ k))
  /\ is_int (Program.Ref.idx (Program.Ref.op k))
  /\ forall k', 0 <= k' < 2 ^ 31 ->
       Program.Ref.eqb (Program.Ref.in_ k) (Program.Ref.op k') = false.
Proof.
  intros Hk.
  unfold Program.Ref.is_input, Program.Ref.is_operation, Program.Ref.in_idx,
    Program.Ref.op_idx, Program.Ref.in_, Program.Ref.op, Program.Ref.eqb, is_int,
    INT_MIN, INT_MAX. simpl.
  rewrite (size_t_wrap_small (k + 1)) by lia.
  rewrite (int_wrap_small (k + 1)), (int_wrap_small k) by lia.
  rewrite !size_t_wrap_small by lia.
  repeat split; try lia.
  intros k' Hk'. rewrite int_wrap_small by lia. lia.
Qed.

Lemma Ref_constructors_roundtrip_witness :
  Program.Ref.is_input (Program.Ref.in_ 5) = true
  /\ Program.Ref.is_operation (Program.Ref.in_ 5) = false
  /\ Program.Ref.in_idx (Program.Ref.in_ 5) = 5
  /\ Program.Ref.is_operation (Program.Ref.op 5) = true
  /\ Program.Ref.is_input (Program.Ref.op 5) = false
  /\ Program.Ref.op_idx (Program.Ref.op 5) = 5
  /\ is_int (Program.Ref.idx (Program.Ref.in_ 5))
  /\ is_int (Program.Ref.idx (Program.Ref.op 5))
  /\ forall k', 0 <= k' < 2 ^ 31 ->
       Program.Ref.eqb (Program.Ref.in_ 5) (Program.Ref.op k') = false.
Proof. apply (Ref_constructors_roundtrip 5). lia. Defined.

(** X5: [assert_valid] never runs into undefined behaviour: it passes exactly on
    the references that address an input below [in_cnt] or an operation below
    [limit], and stops on an assertion on every other one. *)
Theorem assert_valid_checks_range (p : Program.t) (r : Program.Ref.t) (limit : Z) :
  is_int (Program.Ref.idx r) ->
  (Program.assert_valid p r limit = Ok tt
   /\ operand_ok (Program._in_cnt p) limit r)
  \/ (Program.assert_valid p r limit = AssertFail
      /\ ~ operand_ok (Program._in_cnt p) limit r).
Proof.
  intros Hint. pose proof Hint as Hint'. unfold is_int, INT_MIN, INT_MAX in Hint'.
  unfold Program.assert_valid, operand_ok, Program.Ref.is_input,
    Program.Ref.is_operation, Program.Ref.in_idx, Program.Ref.op_idx.
  destruct (Z.ltb_spec (Program.Ref.idx r) 0) as [Hneg|Hpos].
  - replace (0 <=? Program.Ref.idx r) with false by lia. simpl.
    rewrite size_t_wrap_small by lia.
    destruct (Z.ltb_spec (- (Program.Ref.idx r + 1)) (Program._in_cnt p)).
    + left. split; [reflexivity|]. split; [done|]. left. split; [done|lia].
    + right. split; [reflexivity|]. intros [_ [[_ ?]|[? _]]]; lia.
  - replace (0 <=? Program.Ref.idx r) with true by lia. simpl.
    rewrite size_t_wrap_small by lia.
    destruct (Z.ltb_spec (Program.Ref.idx r) limit).
    + left. split; [reflexivity|]. split; [done|]. right. split; [done|lia].
    + right. split; [reflexivity|]. intros [_ [[? _]|[_ ?]]]; [done|lia].
Qed.

Lemma assert_valid_checks_range_witness :
  (Program.assert_valid hand_crafted_program (Program.Ref.op 12) 12 = Ok tt
   /\ operand_ok (Program._in_cnt hand_crafted_program) 12 (Program.Ref.op 12))
  \/ (Program.assert_valid hand_crafted_program (Program.Ref.op 12) 12 = AssertFail
      /\ ~ operand_ok (Program._in_cnt hand_crafted_program) 12 (Program.Ref.op 12)).
Proof.
  apply (assert_valid_checks_range hand_crafted_program (Program.Ref.op 12) 12).
  vm_compute. split; discriminate.
Defined.

(** X6: An input reference has size 1 and is rendered as [iN]; one at or beyond
    [in_cnt] stops both functions on an assertion. *)
Theorem input_reference_size_and_string (p : Program.t) (r : Program.Ref.t) (fuel : nat) :
  is_int (Program.Ref.idx r) -> Program.Ref.is_input r = true ->
  (Program.Ref.in_idx r < Program._in_cnt p ->
     Program.size_of p r = Ok 1
     /\ Program.as_string (S fuel) p r
        = Ok ("i" ++ format_zu (Program.Ref.in_idx r))%string)
  /\ (Program._in_cnt p <= Program.Ref.in_idx r ->
        Program.size_of p r = AssertFail
        /\ Program.as_string (S fuel) p r = AssertFail).
Proof.
  intros Hint Hi.
  assert (Ho : Program.Ref.is_operation r = false).
  { unfold Program.Ref.is_input, Program.Ref.is_operation in *. lia. }
  rewrite as_string_S. unfold Program.size_of, Program.assert_valid.
  rewrite Hi, Ho. simpl. split; intros Hr.
  - replace (_ <? _) with true by lia. simpl. done.
  - replace (_ <? _) with false by lia. simpl. done.
Qed.

Lemma input_reference_size_and_string_witness :
  (Program.Ref.in_idx (Program.Ref.in_ 4) < Program._in_cnt hand_crafted_program ->
     Program.size_of hand_crafted_program (Program.Ref.in_ 4) = Ok 1
     /\ Program.as_string 1 hand_crafted_program (Program.Ref.in_ 4)
        = Ok ("i" ++ format_zu (Program.Ref.in_idx (Program.Ref.in_ 4)))%string)
  /\ (Program._in_cnt hand_crafted_program <= Program.Ref.in_idx (Program.Ref.in_ 4) ->
        Program.size_of hand_crafted_program (Program.Ref.in_ 4) = AssertFail
        /\ Program.as_string 1 hand_crafted_program (Program.Ref.in_ 4) = AssertFail).
Proof.
  apply (input_reference_size_and_string hand_crafted_program (Program.Ref.in_ 4) 0).
  - vm_compute. split; discriminate.
  - reflexivity.
Defined.

(** ** add_op *)

Lemma assert_valid_Ok_inv p r limit :
  is_int (Program.Ref.idx r) ->
  Program.assert_valid p r limit = Ok tt -> operand_ok (Program._in_cnt p) limit r.
Proof.
  intros Hint. pose proof Hint as Hint'. unfold is_int, INT_MIN, INT_MAX in Hint'.
  unfold Program.assert_valid, operand_ok, Program.Ref.is_input,
    Program.Ref.is_operation, Program.Ref.in_idx, Program.Ref.op_idx.
  destruct (Z.ltb_spec (Program.Ref.idx r) 0) as [Hneg|Hpos].
  - replace (0 <=? Program.Ref.idx r) with false by lia. simpl.
    rewrite size_t_wrap_small by lia.
    destruct (Z.ltb_spec (- (Program.Ref.idx r + 1)) (Program._in_cnt p)); [|discriminate].
    intros _. split; [done|]. left. split; [done|lia].
  - replace (0 <=? Program.Ref.idx r) with true by lia. simpl.
    rewrite size_t_wrap_small by lia.
    destruct (Z.ltb_spec (Program.Ref.idx r) limit); [|discriminate].
    intros _. split; [done|]. right. split; [done|lia].
Qed.

Lemma assert_valid_two_outcomes p r limit :
  Program.assert_valid p r limit = Ok tt \/ Program.assert_valid p r limit = AssertFail.
Proof.
  unfold Program.assert_valid, assert.
  destruct (Program.Ref.is_input r), (Program.Ref.is_operation r); simpl; auto;
    repeat match goal with |- context [if ?b then _ else _] => destruct b; simpl; auto end.
Qed.

Lemma valid_program_snoc p op :
  valid_program p -> op_ok p (vsize (Program._program p)) op ->
  valid_program (Program.with_program p (Program._program p ++ [op])).
Proof.
  intros Hvalid Hop i o Ho. simpl in Ho.
  apply lookup_app_Some in Ho as [Hi|[Hlen Hi]].
  - exact (Hvalid _ _ Hi).
  - destruct (i - length (Program._program p))%nat as [|n] eqn:E; [|by destruct n].
    injection Hi as <-. replace (Z.of_nat i) with (vsize (Program._program p)); [exact Hop|].
    unfold vsize. lia.
Qed.

(** X7: [add_op] either appends the operation at the end and returns a reference
    to it, keeping the program well-formed, or stops on an assertion; it
    appends exactly when the code is in the catalog and both operands address
    an input or an earlier operation.  It never runs into undefined
    behaviour. *)
Theorem add_op_appends_or_asserts (p : Program.t) (code : Z) (lhs rhs : Program.Ref.t) :
  valid_program p -> 0 <= code ->
  is_int (Program.Ref.idx lhs) -> is_int (Program.Ref.idx rhs) ->
  let size := vsize (Program._program p) in
  let accepted :=
    code <= OpRepo.max_op (Program._repo p)
    /\ operand_ok (Program._in_cnt p) size lhs
    /\ operand_ok (Program._in_cnt p) size rhs in
  match Program.add_op p code lhs rhs with
  | Ok (ref, p') =>
      accepted
      /\ ref = Program.Ref.op size
      /\ Program._program p' = Program._program p ++ [Program.Op.mk code lhs rhs]
      /\ valid_program p'
      /\ Program._repo p' = Program._repo p
      /\ Program._stats p' = Program._stats p
      /\ Program._in_cnt p' = Program._in_cnt p
      /\ Program._out_cnt p' = Program._out_cnt p
  | AssertFail => ~ accepted
  | Undefined | OutOfFuel => False
  end.
Proof.
  intros Hvalid Hcode Hl Hr. cbv zeta. unfold Program.add_op.
  destruct (Z.leb_spec code (OpRepo.max_op (Program._repo p))) as [Hc|Hc]; simpl;
    [|intros (? & _); lia].
  destruct (assert_valid_two_outcomes p lhs (vsize (Program._program p))) as [El|El];
    rewrite El; simpl.
  - pose proof (assert_valid_Ok_inv _ _ _ Hl El) as Hlok.
    destruct (assert_valid_two_outcomes p rhs (vsize (Program._program p))) as [Er|Er];
      rewrite Er; simpl.
    + pose proof (assert_valid_Ok_inv _ _ _ Hr Er) as Hrok.
      split; [split; [done|split; done]|]. split; [done|]. split; [done|].
      split; [|done].
      apply valid_program_snoc; [done|]. split; [simpl; lia|]. split; done.
    + intros (_ & _ & Hrok). apply (assert_valid_ok p) in Hrok. congruence.
  - intros (_ & Hlok & _). apply (assert_valid_ok p) in Hlok. congruence.
Qed.

Lemma add_op_appends_or_asserts_witness :
  match Program.add_op hand_crafted_program 3 (Program.Ref.op 11) (Program.Ref.in_ 5) with
  | Ok (ref, p') =>
      (3 <= OpRepo.max_op (Program._repo hand_crafted_program)
       /\ operand_ok (Program._in_cnt hand_crafted_program)
                     (vsize (Program._program hand_crafted_program)) (Program.Ref.op 11)
       /\ operand_ok (Program._in_cnt hand_crafted_program)
                     (vsize (Program._program hand_crafted_program)) (Program.Ref.in_ 5))
      /\ ref = Program.Ref.op (vsize (Program._program hand_crafted_program))
      /\ Program._program p'
         = Program._program hand_crafted_program
           ++ [Program.Op.mk 3 (Program.Ref.op 11) (Program.Ref.in_ 5)]
      /\ valid_program p'
      /\ Program._repo p' = Program._repo hand_crafted_program
      /\ Program._stats p' = Program._stats hand_crafted_program
      /\ Program._in_cnt p' = Program._in_cnt hand_crafted_program
      /\ Program._out_cnt p' = Program._out_cnt hand_crafted_program
  | AssertFail =>
      ~ (3 <= OpRepo.max_op (Program._repo hand_crafted_program)
         /\ operand_ok (Program._in_cnt hand_crafted_program)
                       (vsize (Program._program hand_crafted_program)) (Program.Ref.op 11)
         /\ operand_ok (Program._in_cnt hand_crafted_program)
                       (vsize (Program._program hand_crafted_program)) (Program.Ref.in_ 5))
  | Undefined | OutOfFuel => False
  end.
Proof.
  apply (add_op_appends_or_asserts hand_crafted_program 3
           (Program.Ref.op 11) (Program.Ref.in_ 5)).
  - apply valid_programb_sound. vm_compute. reflexivity.
  - lia.
  - vm_compute. split; discriminate.
  - vm_compute. split; discriminate.
Defined.

(** ** Program::grow *)

Lemma add_op_ok p code lhs rhs :
  0 <= code <= OpRepo.max_op (Program._repo p) ->
  operand_ok (Program._in_cnt p) (vsize (Program._program p)) lhs ->
  operand_ok (Program._in_cnt p) (vsize (Program._program p)) rhs ->
  Program.add_op p code lhs rhs
  = Ok (Program.Ref.op (vsize (Program._program p)),
        Program.with_program p (Program._program p ++ [Program.Op.mk code lhs rhs])).
Proof.
  intros Hc Hl Hr. unfold Program.add_op.
  replace (code <=? _) with true by lia. simpl.
  rewrite (assert_valid_ok _ _ _ Hl), bind_Ok, (assert_valid_ok _ _ _ Hr), bind_Ok.
  reflexivity.
Qed.

Section Grow.
Context `{RandomGen}.

Lemma grow_loop_unfold fuel (rnd : rnd_state) p op_cnt :
  Program.grow_loop (S fuel) rnd p op_cnt =
  (if vsize (Program._program p) <? op_cnt then
     '(code, rnd) ← Program.rnd_op rnd p;
     '(lhs, rnd) ← Program.rnd_ref rnd p (vsize (Program._program p));
     '(rhs, rnd) ← Program.rnd_ref rnd p (vsize (Program._program p));
     '(_, p) ← Program.add_op p code lhs rhs;
     Program.grow_loop fuel rnd p op_cnt
   else Ok (p, rnd)).
Proof. reflexivity. Qed.

Lemma grow_loop_done fuel (rnd : rnd_state) p op_cnt :
  op_cnt <= vsize (Program._program p) ->
  Program.grow_loop fuel rnd p op_cnt = Ok (p, rnd).
Proof.
  intros Hle. destruct fuel; simpl;
    replace (vsize (Program._program p) <? op_cnt) with false by lia; reflexivity.
Qed.

Lemma grow_loop_total op_cnt (fuel : nat) : forall (rnd : rnd_state) p,
  valid_program p ->
  1 <= Program._in_cnt p <= 2 ^ 31 ->
  1 <= vsize (OpRepo._list (Program._repo p)) <= 2 ^ 31 ->
  op_cnt <= 2 ^ 31 ->
  op_cnt - vsize (Program._program p) <= Z.of_nat fuel ->
  exists p' rnd' news,
    Program.grow_loop fuel rnd p op_cnt = Ok (p', rnd')
    /\ valid_program p'
    /\ p' = Program.with_program p (Program._program p ++ news)
    /\ vsize (Program._program p') = Z.max (vsize (Program._program p)) op_cnt.
Proof.
  induction fuel as [|fuel IH]; intros rnd p Hvalid Hin Hrepo Hop Hfuel.
  - exists p, rnd, []. rewrite grow_loop_done by lia.
    split; [done|]. split; [done|]. split; [|lia].
    destruct p; unfold Program.with_program; simpl. by rewrite app_nil_r.
  - destruct (Z.ltb_spec (vsize (Program._program p)) op_cnt) as [Hlt|Hge].
    + rewrite grow_loop_unfold. replace (_ <? _) with true by lia.
      pose proof (vsize_nonneg (Program._program p)) as Hsz.
      destruct (rnd_op_range rnd p Hrepo) as (c & s1 & -> & Hc). rewrite bind_Ok.
      cbv beta iota. unfold Program.rnd_ref.
      destruct (Ref_rnd_range s1 (Program._in_cnt p) (vsize (Program._program p)))
        as (l & s2 & -> & _ & Hl); [lia|lia|lia|]. rewrite bind_Ok. cbv beta iota.
      destruct (Ref_rnd_range s2 (Program._in_cnt p) (vsize (Program._program p)))
        as (r & s3 & -> & _ & Hr); [lia|lia|lia|]. rewrite bind_Ok. cbv beta iota.
      rewrite (add_op_ok p c l r Hc Hl Hr), bind_Ok. cbv beta iota.
      set (p1 := Program.with_program p (Program._program p ++ [Program.Op.mk c l r])).
      destruct (IH s3 p1) as (p' & rnd' & news & Hg & Hv' & Hp' & Hsz').
      * apply valid_program_snoc; [done|]. split; [done|]. split; done.
      * done.
      * done.
      * done.
      * unfold p1. simpl. rewrite vsize_app, vsize_cons, vsize_nil. lia.
      * exists p', rnd', (Program.Op.mk c l r :: news).
        split; [exact Hg|]. split; [done|]. split.
        -- rewrite Hp'. unfold p1, Program.with_program. simpl.
           by rewrite <- app_assoc.
        -- rewrite Hsz'. unfold p1. simpl. rewrite vsize_app, vsize_cons, vsize_nil. lia.
    + exists p, rnd, []. rewrite grow_loop_done by lia.
      split; [done|]. split; [done|]. split; [|lia].
      destruct p; unfold Program.with_program; simpl. by rewrite app_nil_r.
Qed.

Lemma grow_total (rnd : rnd_state) (p : Program.t) (op_cnt : Z) :
  valid_program p ->
  1 <= Program._in_cnt p <= 2 ^ 31 ->
  1 <= vsize (OpRepo._list (Program._repo p)) <= 2 ^ 31 ->
  1 <= Program._out_cnt p <= op_cnt -> op_cnt <= 2 ^ 31 ->
  op_cnt mod Program._out_cnt p = 0 ->
  vsize (Program._program p) <= op_cnt ->
  exists p' rnd' news,
    Program.grow rnd p op_cnt = Ok (p', rnd')
    /\ valid_program p'
    /\ Program._program p' = Program._program p ++ news
    /\ vsize (Program._program p') = op_cnt
    /\ Program._in_cnt p' = Program._in_cnt p
    /\ Program._out_cnt p' = Program._out_cnt p
    /\ Program._repo p' = Program._repo p
    /\ Program._stats p' = Program._stats p.
Proof.
  intros Hvalid Hin Hrepo Hout Hop Hmod Hsz. unfold Program.grow, udiv, umod.
  replace (Program._out_cnt p =? 0) with false by lia. rewrite !bind_Ok.
  assert (Hq : 1 <= op_cnt / Program._out_cnt p).
  { apply Z.div_le_lower_bound; lia. }
  replace (1 <=? _) with true by lia. rewrite Hmod. simpl assert. rewrite !bind_Ok.
  pose proof (vsize_nonneg (Program._program p)).
  destruct (grow_loop_total op_cnt (Z.to_nat op_cnt) rnd p)
    as (p' & rnd' & news & Hg & Hv' & Hp' & Hsz'); try done; [lia|].
  exists p', rnd', news. split; [exact Hg|]. split; [done|].
  rewrite Hsz'. subst p'. simpl. repeat split; lia.
Qed.

(** X8: [grow] brings a well-formed program to exactly [op_cnt] operations by
    appending, and the result is well-formed: every drawn code is in the
    catalog and every drawn operand addresses an input or an earlier
    operation, so no [add_op] assertion fires. *)
Theorem grow_reaches_target (rnd : rnd_state) (p : Program.t) (op_cnt : Z) :
  valid_program p ->
  1 <= Program._in_cnt p <= 2 ^ 31 ->
  1 <= vsize (OpRepo._list (Program._repo p)) <= 2 ^ 31 ->
  1 <= Program._out_cnt p <= op_cnt -> op_cnt <= 2 ^ 31 ->
  op_cnt mod Program._out_cnt p = 0 ->
  vsize (Program._program p) <= op_cnt ->
  exists p' rnd' news,
    Program.grow rnd p op_cnt = Ok (p', rnd')
    /\ valid_program p'
    /\ Program._program p' = Program._program p ++ news
    /\ vsize (Program._program p') = op_cnt
    /\ Program._in_cnt p' = Program._in_cnt p
    /\ Program._out_cnt p' = Program._out_cnt p
    /\ Program._repo p' = Program._repo p
    /\ Program._stats p' = Program._stats p.
Proof. apply grow_total. Qed.

(** X9: Edge cases of [grow]: a zero [out_cnt] divides by zero; an [op_cnt] that
    is smaller than [out_cnt] or not a multiple of it stops on an assertion;
    and an empty program without inputs cannot grow, its first operand being
    drawn from the empty range [0, -1]. *)
Theorem grow_edge_cases (rnd : rnd_state) (p : Program.t) (op_cnt : Z) :
  0 <= op_cnt ->
  (Program._out_cnt p = 0 -> Program.grow rnd p op_cnt = Undefined)
  /\ (1 <= Program._out_cnt p ->
      op_cnt < Program._out_cnt p \/ op_cnt mod Program._out_cnt p <> 0 ->
      Program.grow rnd p op_cnt = AssertFail)
  /\ (1 <= Program._out_cnt p <= op_cnt -> op_cnt mod Program._out_cnt p = 0 ->
      Program._in_cnt p = 0 -> Program._program p = [] ->
      1 <= vsize (OpRepo._list (Program._repo p)) <= 2 ^ 31 ->
      Program.grow rnd p op_cnt = Undefined).
Proof.
  intros Hop. unfold Program.grow, udiv, umod. split; [|split].
  - intros ->. reflexivity.
  - intros Hout Hbad. replace (Program._out_cnt p =? 0) with false by lia.
    rewrite !bind_Ok.
    destruct (Z.leb_spec 1 (op_cnt / Program._out_cnt p)) as [Hq|Hq]; [|reflexivity].
    simpl assert. rewrite !bind_Ok.
    destruct Hbad as [Hlt|Hmod].
    + rewrite Z.div_small in Hq by lia. lia.
    + replace (_ =? 0) with false by lia. reflexivity.
  - intros Hout Hmod Hin Hnil Hrepo.
    replace (Program._out_cnt p =? 0) with false by lia. rewrite !bind_Ok.
    assert (Hq : 1 <= op_cnt / Program._out_cnt p).
    { apply Z.div_le_lower_bound; lia. }
    replace (1 <=? _) with true by lia. rewrite Hmod. simpl assert. rewrite !bind_Ok.
    destruct (Z.to_nat op_cnt) as [|fuel] eqn:E; [lia|].
    rewrite grow_loop_unfold, Hnil, vsize_nil. replace (0 <? op_cnt) with true by lia.
    destruct (rnd_op_range rnd p Hrepo) as (c & s1 & -> & Hc). rewrite bind_Ok.
    cbv beta iota. unfold Program.rnd_ref, Program.Ref.rnd. rewrite Hin. reflexivity.
Qed.

End Grow.

Lemma grow_reaches_target_witness :
  exists p' rnd' news,
    Program.grow Rand48.init (Program.new test_repo 3 3 0) 33 = Ok (p', rnd')
    /\ valid_program p'
    /\ Program._program p' = Program._program (Program.new test_repo 3 3 0) ++ news
    /\ vsize (Program._program p') = 33
    /\ Program._in_cnt p' = Program._in_cnt (Program.new test_repo 3 3 0)
    /\ Program._out_cnt p' = Program._out_cnt (Program.new test_repo 3 3 0)
    /\ Program._repo p' = Program._repo (Program.new test_repo 3 3 0)
    /\ Program._stats p' = Program._stats (Program.new test_repo 3 3 0).
Proof.
  apply (@grow_reaches_target rand48_gen Rand48.init (Program.new test_repo 3 3 0) 33).
  - apply valid_programb_sound. reflexivity.
  - simpl. lia.
  - vm_compute. split; discriminate.
  - simpl. lia.
  - lia.
  - reflexivity.
  - vm_compute. discriminate.
Defined.

Lemma grow_edge_cases_witness :
  (Program._out_cnt (Program.new test_repo 0 3 0) = 0 ->
   Program.grow Rand48.init (Program.new test_repo 0 3 0) 33 = Undefined)
  /\ (1 <= Program._out_cnt (Program.new test_repo 0 3 0) ->
      33 < Program._out_cnt (Program.new test_repo 0 3 0)
      \/ 33 mod Program._out_cnt (Program.new test_repo 0 3 0) <> 0 ->
      Program.grow Rand48.init (Program.new test_repo 0 3 0) 33 = AssertFail)
  /\ (1 <= Program._out_cnt (Program.new test_repo 0 3 0) <= 33 ->
      33 mod Program._out_cnt (Program.new test_repo 0 3 0) = 0 ->
      Program._in_cnt (Program.new test_repo 0 3 0) = 0 ->
      Program._program (Program.new test_repo 0 3 0) = [] ->
      1 <= vsize (OpRepo._list (Program._repo (Program.new test_repo 0 3 0))) <= 2 ^ 31 ->
      Program.grow Rand48.init (Program.new test_repo 0 3 0) 33 = Undefined).
Proof.
  apply (@grow_edge_cases rand48_gen Rand48.init (Program.new test_repo 0 3 0) 33). lia.
Defined.

(** ** get_cost *)

Lemma count_undone_mark (done : list bool) (k : nat) :
  done !! k = Some false ->
  (count_undone (<[k := true]> done) + 1 = count_undone done)%nat.
Proof.
  revert k. induction done as [|b done IH]; intros k Hk.
  - by rewrite lookup_nil in Hk.
  - destruct k as [|k]; simpl in *.
    + injection Hk as ->. lia.
    + specialize (IH k Hk). lia.
Qed.

Lemma count_undone_replicate (n : nat) : count_undone (replicate n false) = n.
Proof. induction n as [|n IH]; simpl; [reflexivity|by rewrite IH]. Qed.

Lemma get_cost_loop_unfold fuel p ref todo done cost :
  Program.get_cost_loop (S fuel) p (ref :: todo) done cost =
  (if Program.Ref.is_operation ref then
     d ← vec_at done (Program.Ref.op_idx ref);
     if negb d then
       op ← vec_at (Program._program p) (Program.Ref.op_idx ref);
       c ← OpRepo.cost_of (Program._repo p) (Program.Op.code op);
       Program.get_cost_loop fuel p
         (if 0 <? Program.Op.code op
          then Program.Op.rhs op :: Program.Op.lhs op :: todo
          else Program.Op.lhs op :: todo)
         (<[Z.to_nat (Program.Ref.op_idx ref) := true]> done)
         (size_t_wrap (cost + c))
     else Program.get_cost_loop fuel p todo done cost
   else Program.get_cost_loop fuel p todo done cost).
Proof. reflexivity. Qed.

Lemma cost_of_ok repo code :
  repo_ok repo -> 0 <= code <= OpRepo.max_op repo ->
  exists c, OpRepo.cost_of repo code = Ok c.
Proof.
  unfold repo_ok, OpRepo.max_op, OpRepo.cost_of. intros Hr Hc.
  rewrite size_t_wrap_small in Hc by lia.
  destruct (vec_at_in_range (OpRepo._list repo) code) as (e & -> & _); [lia|].
  rewrite bind_Ok. eauto.
Qed.

(** The walk ends within [length todo + 2 * undone] iterations. *)
Lemma get_cost_loop_total p :
  valid_program p -> repo_ok (Program._repo p) ->
  forall (fuel : nat) todo done cost,
    length done = length (Program._program p) ->
    Forall (operand_ok (Program._in_cnt p) (vsize (Program._program p))) todo ->
    (length todo + 2 * count_undone done <= fuel)%nat ->
    exists c, Program.get_cost_loop fuel p todo done cost = Ok c.
Proof.
  intros Hvalid Hrepo. induction fuel as [|fuel IH]; intros todo done cost Hlen Htodo Hfuel.
  - destruct todo; [simpl; eauto|simpl in Hfuel; lia].
  - destruct todo as [|ref todo]; [simpl; eauto|].
    apply Forall_cons in Htodo as [Href Htodo]. simpl in Hfuel.
    rewrite get_cost_loop_unfold.
    apply operand_ok_cases in Href.
    destruct Href as [(_ & Ho & _)|(_ & Ho & Hidx & Hr)]; rewrite Ho.
    + apply IH; [done|done|lia].
    + rewrite Hidx. unfold vsize in Hr.
      destruct (vec_at_in_range done (Program.Ref.idx ref)) as (d & -> & Hd);
        [unfold vsize; lia|].
      rewrite bind_Ok. destruct d; simpl negb; cbv iota.
      * apply IH; [done|done|lia].
      * destruct (vec_at_in_range (Program._program p) (Program.Ref.idx ref))
          as (op & -> & Hop); [unfold vsize; lia|].
        rewrite bind_Ok.
        pose proof (Hvalid _ _ Hop) as (Hcode & Hl & Hr').
        destruct (cost_of_ok _ _ Hrepo Hcode) as [c ->]. rewrite bind_Ok.
        pose proof (count_undone_mark _ _ Hd) as Hmark.
        assert (Hlv : operand_ok (Program._in_cnt p) (vsize (Program._program p))
                                 (Program.Op.lhs op))
          by (eapply operand_ok_mono; [|exact Hl]; unfold vsize; lia).
        assert (Hrv : operand_ok (Program._in_cnt p) (vsize (Program._program p))
                                 (Program.Op.rhs op))
          by (eapply operand_ok_mono; [|exact Hr']; unfold vsize; lia).
        apply IH.
        -- by rewrite length_insert.
        -- destruct (0 <? Program.Op.code op).
           ++ constructor; [exact Hrv|constructor; [exact Hlv|exact Htodo]].
           ++ constructor; [exact Hlv|exact Htodo].
        -- destruct (0 <? Program.Op.code op); simpl; lia.
Qed.

Lemma get_cost_ok (p : Program.t) (slot : Z) :
  valid_program p -> repo_ok (Program._repo p) ->
  0 <= slot -> 0 <= Program._out_cnt p ->
  vsize (Program._program p) <= 2 ^ 31 ->
  slot * Program._out_cnt p + Program._out_cnt p <= vsize (Program._program p) ->
  exists c, Program.get_cost p slot = Ok c.
Proof.
  intros Hvalid Hrepo Hslot Hout Hsz Hr. unfold Program.get_cost.
  assert (Hoff : 0 <= slot * Program._out_cnt p) by nia.
  rewrite (size_t_wrap_small (slot * _)) by lia.
  rewrite (size_t_wrap_small (slot * _ + _)) by lia.
  replace (_ <=? _) with true by lia. simpl assert. rewrite bind_Ok.
  apply get_cost_loop_total; [done|done| | |].
  - by rewrite length_replicate.
  - apply Forall_rev, Forall_map, Forall_forall. intros i Hi.
    apply list_elem_of_In, in_seq in Hi. simpl.
    rewrite size_t_wrap_small by lia.
    apply operand_ok_operation.
    + unfold is_int, INT_MIN, INT_MAX, Program.Ref.op. simpl.
      rewrite int_wrap_small by lia. lia.
    + unfold Program.Ref.op. simpl. rewrite int_wrap_small by lia. lia.
  - rewrite length_rev, length_map, length_seq, count_undone_replicate. lia.
Qed.

(** X10: [get_cost] returns on every well-formed program and every slot that lies
    within it: the walk marks each operation at most once, so it ends, and
    every index it uses is in range.  A slot beyond the program stops on the
    assertion. *)
Theorem get_cost_returns (p : Program.t) (slot : Z) :
  valid_program p -> repo_ok (Program._repo p) ->
  0 <= slot -> 0 <= Program._out_cnt p ->
  vsize (Program._program p) <= 2 ^ 31 ->
  slot * Program._out_cnt p + Program._out_cnt p < 2 ^ 64 ->
  (slot * Program._out_cnt p + Program._out_cnt p <= vsize (Program._program p) ->
     exists c, Program.get_cost p slot = Ok c)
  /\ (vsize (Program._program p) < slot * Program._out_cnt p + Program._out_cnt p ->
        Program.get_cost p slot = AssertFail).
Proof.
  intros Hvalid Hrepo Hslot Hout Hsz Hno. split; intros Hr.
  - by apply get_cost_ok.
  - unfold Program.get_cost.
    assert (Hoff : 0 <= slot * Program._out_cnt p) by nia.
    rewrite (size_t_wrap_small (slot * _)) by lia.
    rewrite (size_t_wrap_small (slot * _ + _)) by lia.
    replace (_ <=? _) with false by lia. reflexivity.
Qed.

Lemma get_cost_returns_witness :
  (3 * Program._out_cnt hand_crafted_program + Program._out_cnt hand_crafted_program
   <= vsize (Program._program hand_crafted_program) ->
     exists c, Program.get_cost hand_crafted_program 3 = Ok c)
  /\ (vsize (Program._program hand_crafted_program)
      < 3 * Program._out_cnt hand_crafted_program + Program._out_cnt hand_crafted_program ->
        Program.get_cost hand_crafted_program 3 = AssertFail).
Proof.
  apply (get_cost_returns hand_crafted_program 3).
  - apply valid_programb_sound. vm_compute. reflexivity.
  - unfold repo_ok. vm_compute. split; discriminate.
  - lia.
  - vm_compute. discriminate.
  - vm_compute. discriminate.
  - vm_compute. reflexivity.
Defined.

Lemma op_cost_nonneg p op : costs_nonneg (Program._repo p) = true -> 0 <= op_cost p op.
Proof.
  unfold costs_nonneg, op_cost. rewrite forallb_forall. intros Hn.
  destruct (OpRepo._list (Program._repo p) !! Z.to_nat (Program.Op.code op)) as [e|] eqn:He;
    [|lia].
  assert (In e (OpRepo._list (Program._repo p)))
    by (apply list_elem_of_In; by eapply list_elem_of_lookup_2).
  specialize (Hn e H). lia.
Qed.

Lemma pending_cost_nonneg p done : forall ops,
  costs_nonneg (Program._repo p) = true -> 0 <= pending_cost p done ops.
Proof.
  induction done as [|d done IH]; intros ops Hn; simpl; [lia|].
  destruct ops as [|op ops]; [lia|].
  specialize (IH ops Hn). pose proof (op_cost_nonneg p op Hn). destruct d; lia.
Qed.

Lemma pending_cost_mark p done : forall ops (k : nat) op,
  done !! k = Some false -> ops !! k = Some op ->
  pending_cost p (<[k := true]> done) ops + op_cost p op = pending_cost p done ops.
Proof.
  induction done as [|d done IH]; intros ops k op Hd Hop.
  - by rewrite lookup_nil in Hd.
  - destruct ops as [|o ops]; [by rewrite lookup_nil in Hop|].
    destruct k as [|k]; simpl in *.
    + injection Hd as ->. injection Hop as ->. lia.
    + specialize (IH ops k op Hd Hop). lia.
Qed.

Lemma cost_of_Ok_op_cost p op c :
  OpRepo.cost_of (Program._repo p) (Program.Op.code op) = Ok c -> c = op_cost p op.
Proof.
  unfold OpRepo.cost_of, op_cost. intros Hc.
  apply bind_Ok_inv in Hc as (e & He & Hc). apply vec_at_Ok in He as [_ He].
  rewrite He. congruence.
Qed.

Lemma get_cost_loop_bound p :
  costs_nonneg (Program._repo p) = true ->
  forall (fuel : nat) todo done cost c,
    0 <= cost ->
    cost + pending_cost p done (Program._program p) < 2 ^ 64 ->
    Program.get_cost_loop fuel p todo done cost = Ok c ->
    cost <= c <= cost + pending_cost p done (Program._program p).
Proof.
  intros Hn. induction fuel as [|fuel IH]; intros todo done cost c Hcost Hno Hg.
  - destruct todo; simpl in Hg; [|discriminate]. injection Hg as <-.
    pose proof (pending_cost_nonneg p done (Program._program p) Hn). lia.
  - destruct todo as [|ref todo].
    + simpl in Hg. injection Hg as <-.
      pose proof (pending_cost_nonneg p done (Program._program p) Hn). lia.
    + rewrite get_cost_loop_unfold in Hg.
      destruct (Program.Ref.is_operation ref); [|by apply (IH todo)].
      apply bind_Ok_inv in Hg as (d & Hd & Hg).
      destruct d; simpl negb in Hg; cbv iota in Hg; [by apply (IH todo)|].
      apply bind_Ok_inv in Hg as (op & Hop & Hg).
      apply bind_Ok_inv in Hg as (cc & Hcc & Hg).
      apply vec_at_Ok in Hd as [_ Hd]. apply vec_at_Ok in Hop as [_ Hop].
      apply cost_of_Ok_op_cost in Hcc. subst cc.
      pose proof (pending_cost_mark p done _ _ _ Hd Hop) as Hmark.
      pose proof (op_cost_nonneg p op Hn) as Hc0.
      pose proof (pending_cost_nonneg p (<[Z.to_nat (Program.Ref.op_idx ref) := true]> done)
                    (Program._program p) Hn) as Hp0.
      rewrite size_t_wrap_small in Hg by lia.
      apply IH in Hg; lia.
Qed.

(** X11: [get_cost] counts every operation at most once: whatever the sharing, the
    cost of a slot is at most the sum of the catalog costs of all operations
    of the program. *)
Theorem get_cost_at_most_total (p : Program.t) (slot c : Z) :
  costs_nonneg (Program._repo p) = true ->
  total_cost p < 2 ^ 64 ->
  Program.get_cost p slot = Ok c ->
  0 <= c <= total_cost p.
Proof.
  intros Hn Htot Hg. unfold Program.get_cost in Hg.
  apply bind_Ok_inv in Hg as (_ & _ & Hg).
  apply (get_cost_loop_bound p Hn) in Hg; [|lia|exact Htot]. exact Hg.
Qed.

Lemma get_cost_at_most_total_witness :
  0 <= 9 <= total_cost hand_crafted_program.
Proof.
  apply (get_cost_at_most_total hand_crafted_program 3 9).
  - vm_compute. reflexivity.
  - vm_compute. reflexivity.
  - vm_compute. reflexivity.
Defined.

(** ** handle_feedback *)

(** X12: With [num_alternatives()] pinned to 1, [handle_feedback] stops on its
    assertion for every feedback that does not hold exactly one weakness,
    whatever the number of slots; given one weakness it selects the last slot
    and stores that weakness, the cost of the last slot and the old birth
    generation, leaving the rest of the program alone. *)
Theorem handle_feedback_takes_last_slot (p : Program.t) (k : Z) :
  valid_program p -> repo_ok (Program._repo p) ->
  1 <= Program._out_cnt p -> 1 <= k ->
  vsize (Program._program p) = k * Program._out_cnt p ->
  vsize (Program._program p) <= 2 ^ 31 ->
  (forall feedback, vsize feedback <> 1 ->
     Program.handle_feedback p feedback = AssertFail)
  /\ (forall w,
        exists c,
          Program.get_cost p (k - 1) = Ok c
          /\ Program.handle_feedback p [w]
             = Ok (Program.with_stats p
                     (Program.Stats.mk w c (Program.Stats.born (Program._stats p)))
                     (k - 1))).
Proof.
  intros Hvalid Hrepo Hout Hk Hn Hsz. split.
  - intros feedback Hfb. unfold Program.handle_feedback.
    change (Program.num_alternatives p) with 1.
    replace (vsize feedback =? 1) with false by lia. reflexivity.
  - intros w.
    destruct (get_cost_ok p (k - 1) Hvalid Hrepo) as [c Hc]; [lia|lia|lia|nia|].
    exists c. split; [exact Hc|]. unfold Program.handle_feedback, udiv.
    change (Program.num_alternatives p) with 1.
    change (vsize [w] =? 1) with true. simpl assert. rewrite bind_Ok.
    change (1 =? 1) with true. cbv iota.
    replace (Program._out_cnt p =? 0) with false by lia.
    rewrite size_t_wrap_small by nia.
    replace ((vsize (Program._program p) - Program._out_cnt p) / Program._out_cnt p)
      with (k - 1).
    + rewrite bind_Ok. change (vec_at [w] 0) with (Ok w). rewrite bind_Ok, Hc, bind_Ok.
      reflexivity.
    + rewrite Hn. replace (k * Program._out_cnt p - Program._out_cnt p)
        with ((k - 1) * Program._out_cnt p) by lia.
      rewrite Z.div_mul by lia. reflexivity.
Qed.

Lemma handle_feedback_takes_last_slot_witness :
  (forall feedback, vsize feedback <> 1 ->
     Program.handle_feedback hand_crafted_program feedback = AssertFail)
  /\ (forall w,
        exists c,
          Program.get_cost hand_crafted_program (4 - 1) = Ok c
          /\ Program.handle_feedback hand_crafted_program [w]
             = Ok (Program.with_stats hand_crafted_program
                     (Program.Stats.mk w c
                        (Program.Stats.born (Program._stats hand_crafted_program)))
                     (4 - 1))).
Proof.
  apply (handle_feedback_takes_last_slot hand_crafted_program 4).
  - apply valid_programb_sound. vm_compute. reflexivity.
  - unfold repo_ok. vm_compute. split; discriminate.
  - vm_compute. discriminate.
  - lia.
  - vm_compute. reflexivity.
  - vm_compute. discriminate.
Defined.

(** ** Individuals stay well-formed *)

Lemma valid_program_same_ops p q :
  Program._program q = Program._program p ->
  Program._in_cnt q = Program._in_cnt p ->
  Program._repo q = Program._repo p ->
  valid_program p -> valid_program q.
Proof.
  intros Hops Hin Hrepo Hvalid i op Hop. rewrite Hops in Hop.
  destruct (Hvalid _ _ Hop) as (Hc & Hl & Hr). unfold op_ok.
  rewrite Hin, Hrepo. done.
Qed.

Lemma find_weakness_individual params repo repo' q q' :
  individual_ok params repo q -> find_weakness repo' q = Ok q' ->
  individual_ok params repo q'.
Proof.
  intros (Hv & Hsz & Hin & Hout & Hrepo) Hf. unfold find_weakness in Hf.
  apply bind_Ok_inv in Hf as (fb & _ & Hf).
  apply handle_feedback_frame in Hf as (_ & Hops & Hin' & Hout' & Hrepo').
  split; [by eapply valid_program_same_ops|].
  rewrite Hops, Hin', Hout', Hrepo'. done.
Qed.

Section Individuals.
Context `{RandomGen}.

Lemma mutate_individual params repo (rnd rnd' : rnd_state) q q' :
  params_ok params repo -> individual_ok params repo q ->
  Program.mutate rnd q = Ok (q', rnd') ->
  individual_ok params repo q' /\ Program._stats q' = Program._stats q.
Proof.
  intros (Hin & Hop & Hrepo) (Hv & Hsz & Hi & Ho & Hr) Hm.
  destruct (mutate_total rnd q Hv) as (k & op & op' & s & Hlk & Hm' & Hok & _);
    [lia|lia|by rewrite Hr|].
  rewrite Hm' in Hm. injection Hm as <- <-. split; [|reflexivity].
  split; [|simpl; unfold vsize in *; rewrite length_insert; done].
  intros i o Hlo. simpl in Hlo.
  destruct (decide (k = i)) as [->|Hne].
  - rewrite list_lookup_insert_eq in Hlo by (by eapply lookup_lt_Some).
    injection Hlo as <-. exact Hok.
  - rewrite list_lookup_insert_ne in Hlo by done. exact (Hv _ _ Hlo).
Qed.

Lemma mutate_loop_individual params repo (fuel : nat) :
  forall (rnd rnd' : rnd_state) q q',
    params_ok params repo -> individual_ok params repo q ->
    Population.mutate_loop fuel rnd q = Ok (q', rnd') ->
    individual_ok params repo q' /\ Program._stats q' = Program._stats q.
Proof.
  induction fuel as [|fuel IH]; intros rnd rnd' q q' Hp Hq Hm; [discriminate|].
  rewrite mutate_loop_unfold in Hm.
  apply bind_Ok_inv in Hm as ([q1 s1] & Hm1 & Hm).
  apply bind_Ok_inv in Hm as ([v s2] & _ & Hm).
  destruct (mutate_individual _ _ _ _ _ _ Hp Hq Hm1) as [Hq1 Hs1].
  destruct (v <? 66).
  - destruct (IH _ _ _ _ Hp Hq1 Hm) as [Hq' Hs']. split; [done|congruence].
  - injection Hm as <- <-. done.
Qed.

Lemma grow_new_individual params repo (rnd rnd' : rnd_state) gen q :
  params_ok params repo ->
  Program.grow rnd (Program.new repo (in_cnt params) (out_cnt params) gen) (op_cnt params)
  = Ok (q, rnd') ->
  individual_ok params repo q /\ Program.Stats.born (Program._stats q) = gen.
Proof.
  intros (Hin & Hop & Hrepo) Hg. unfold Program.grow in Hg.
  apply bind_Ok_inv in Hg as (qt & _ & Hg).
  apply bind_Ok_inv in Hg as (_ & _ & Hg).
  apply bind_Ok_inv in Hg as (m & _ & Hg).
  apply bind_Ok_inv in Hg as (_ & _ & Hg).
  destruct (grow_loop_total (op_cnt params) (Z.to_nat (op_cnt params)) rnd
              (Program.new repo (in_cnt params) (out_cnt params) gen))
    as (q0 & s0 & news & Hg0 & Hv & Hq0 & Hsz); try done.
  - lia.
  - simpl. rewrite vsize_nil. lia.
  - rewrite Hg0 in Hg. injection Hg as <- <-.
    simpl in Hsz. rewrite vsize_nil in Hsz.
    split; [|by rewrite Hq0].
    split; [done|]. split; [lia|]. rewrite Hq0. done.
Qed.

Lemma Population_grow_loop_individuals (n : nat) : forall pop pop',
  params_ok (Population._params pop) (Population._repo pop) ->
  Forall (fun q => individual_ok (Population._params pop) (Population._repo pop) q
                   /\ Program.Stats.born (Program.stats q) = Population._gen pop)
         (Population._programs pop) ->
  Population.grow_loop n pop = Ok pop' ->
  Forall (fun q => individual_ok (Population._params pop) (Population._repo pop) q
                   /\ Program.Stats.born (Program.stats q) = Population._gen pop)
         (Population._programs pop')
  /\ Population._gen pop' = Population._gen pop
  /\ Population._repo pop' = Population._repo pop.
Proof.
  induction n as [|n IH]; intros pop pop' Hp Hall; simpl.
  - destruct (_ <? _); [discriminate|]. intros [= <-]. done.
  - destruct (_ <? _); [|intros [= <-]; done].
    intros Hg.
    apply bind_Ok_inv in Hg as ([prog rnd] & Hgrow & Hg).
    apply bind_Ok_inv in Hg as (prog' & Hfw & Hg).
    apply grow_new_individual in Hgrow as [Hprog Hborn]; [|done].
    pose proof (find_weakness_individual _ _ _ _ _ Hprog Hfw) as Hprog'.
    apply find_weakness_frame in Hfw as [Hborn' _].
    apply IH in Hg; simpl in *; [done|done|].
    apply Forall_app. split; [done|]. constructor; [|done].
    split; [done|]. unfold Program.stats. congruence.
Qed.

Lemma refill_loop_individuals fuel (n : nat) apex_cnt : forall pop pop',
  params_ok (Population._params pop) (Population._repo pop) ->
  Forall (individual_ok (Population._params pop) (Population._repo pop))
         (Population._programs pop) ->
  Population.refill_loop fuel n pop apex_cnt = Ok pop' ->
  Forall (individual_ok (Population._params pop) (Population._repo pop))
         (Population._programs pop').
Proof.
  induction n as [|n IH]; intros pop pop' Hp Hall; simpl.
  - destruct (_ <? _); [discriminate|]. intros [= <-]. done.
  - destruct (_ <? _); [|intros [= <-]; done].
    intros Hr.
    apply bind_Ok_inv in Hr as ([parent pop1] & Hsel & Hr).
    apply bind_Ok_inv in Hr as ([child pop2] & Hmut & Hr).
    apply bind_Ok_inv in Hr as (child' & Hfw & Hr).
    assert (Hparent : individual_ok (Population._params pop) (Population._repo pop) parent).
    { unfold Population.select in Hsel.
      apply bind_Ok_inv in Hsel as ([i s] & _ & Hsel).
      apply bind_Ok_inv in Hsel as (q & Hq & Hsel). injection Hsel as <- _.
      apply vec_at_Ok in Hq as [_ Hq]. rewrite Forall_forall in Hall.
      apply Hall. by eapply list_elem_of_lookup_2. }
    apply select_inv in Hsel as (r1 & ->).
    unfold Population.mutate in Hmut.
    apply bind_Ok_inv in Hmut as ([c rnd'] & Hloop & Hmut). injection Hmut as <- <-.
    apply mutate_loop_individual with (params := Population._params pop)
                                      (repo := Population._repo pop) in Hloop
      as [Hc _]; [|done|done].
    assert (Hchild : individual_ok (Population._params pop) (Population._repo pop)
                       (Program.reborn c (Population._gen pop))).
    { destruct Hc as (Hv & Hrest). split; [|exact Hrest].
      by apply (valid_program_same_ops c). }
    pose proof (find_weakness_individual _ _ _ _ _ Hchild Hfw) as Hchild'.
    apply IH in Hr; simpl in *; [done|done|].
    apply Forall_app. split; [done|]. by constructor.
Qed.

Lemma Population_grow_individuals (params : Params) (repo : OpRepo.t)
    (rnd : rnd_state) pop :
  params_ok params repo -> 0 <= pop_cnt params ->
  Population.grow (Population.mk rnd 0 params repo []) = Ok pop ->
  vsize (Population._programs pop) = pop_cnt params
  /\ Forall (fun q => individual_ok params repo q
                      /\ Program.Stats.born (Program.stats q) = 0)
            (Population._programs pop)
  /\ Population._gen pop = 0
  /\ Population._params pop = params
  /\ Population._repo pop = repo.
Proof.
  intros Hp Hpc Hg. unfold Population.grow in Hg.
  apply bind_Ok_inv in Hg as (pop1 & Hl & Hg).
  apply bind_Ok_inv in Hg as (ps & [_ ->]%std_sort_Ok_inv & Hg).
  injection Hg as <-. simpl.
  pose proof (Population_grow_loop_inv _ _ _ Hl) as (news & Hps & Hpa & Hsz).
  destruct (Population_grow_loop_individuals _ (Population.mk rnd 0 params repo []) pop1
              Hp (List.Forall_nil _) Hl) as (Hall & Hgen & Hrepo).
  simpl in *. split.
  { unfold vsize. rewrite insertion_sort_length. fold (vsize (Population._programs pop1)).
    apply Hsz. rewrite vsize_nil. lia. }
  split; [by rewrite (insertion_sort_perm Program.lt (Population._programs pop1))|].
  done.
Qed.

(** X13: The constructor delivers exactly [pop_cnt] individuals at generation 0,
    each a well-formed program of [op_cnt] operations over the population's
    inputs, outputs and catalog; its closing assertion on the size cannot
    fire. *)
Theorem Population_new_builds_individuals (params : Params) (repo : OpRepo.t)
    (rnd : rnd_state) :
  params_ok params repo -> 0 <= pop_cnt params ->
  (forall pop, Population.grow (Population.mk rnd 0 params repo []) = Ok pop ->
               Population.new params repo rnd = Ok pop)
  /\ (forall pop,
        Population.new params repo rnd = Ok pop ->
        vsize (Population._programs pop) = pop_cnt params
        /\ Forall (fun q => individual_ok params repo q
                            /\ Program.Stats.born (Program.stats q) = 0)
                  (Population._programs pop)
        /\ Population._gen pop = 0
        /\ Population._params pop = params
        /\ Population._repo pop = repo).
Proof.
  intros Hp Hpc. split.
  - intros pop Hg. unfold Population.new. rewrite Hg, bind_Ok.
    destruct (Population_grow_individuals _ _ _ _ Hp Hpc Hg) as (Hsz & _).
    rewrite Hsz, Z.eqb_refl. reflexivity.
  - intros pop Hn. unfold Population.new in Hn.
    apply bind_Ok_inv in Hn as (pop1 & Hg & Hn).
    apply bind_Ok_inv in Hn as (_ & _ & Hn). injection Hn as <-.
    by apply (Population_grow_individuals params repo rnd).
Qed.

(** X14: A tick keeps the individuals well-formed: every program of the new
    population, survivor or mutated child, still has [op_cnt] operations whose
    operands address inputs or earlier operations, and the population's input
    count, output count and catalog. *)
Theorem tick_keeps_individuals (fuel : nat) (pop pop' : Population.t) :
  params_ok (Population._params pop) (Population._repo pop) ->
  0 <= pop_cnt (Population._params pop) ->
  Forall (individual_ok (Population._params pop) (Population._repo pop))
         (Population._programs pop) ->
  Population.tick fuel pop = Ok pop' ->
  Forall (individual_ok (Population._params pop') (Population._repo pop'))
         (Population._programs pop')
  /\ Population._params pop' = Population._params pop
  /\ Population._repo pop' = Population._repo pop
  /\ Population._gen pop' = size_t_wrap (Population._gen pop + 1).
Proof.
  intros Hp Hpc Hall Ht. unfold Population.tick in Ht.
  apply bind_Ok_inv in Ht as (pop1 & Hr & Ht).
  apply bind_Ok_inv in Ht as (ps & [_ ->]%std_sort_Ok_inv & Ht). injection Ht as <-.
  pose proof (refill_loop_inv _ _ _ _ _ Hr) as (news & Hps & Hg & Hpa & Hre & _).
  apply refill_loop_individuals in Hr; simpl in *.
  - rewrite Hpa, Hre. split; [|done].
    by rewrite (insertion_sort_perm Program.lt (Population._programs pop1)).
  - done.
  - rewrite pop_back_loop_take by (try apply Z.div_pos; lia).
    by apply Forall_take.
Qed.

End Individuals.

Lemma small_params_ok : params_ok small_params test_repo.
Proof. unfold params_ok. vm_compute. repeat split; discriminate. Qed.

Lemma small_population_grown : Population.grow small_start = Ok small_population.
Proof. apply from_outcome_is_ok. vm_compute. reflexivity. Qed.

Lemma small_population_individuals :
  Forall (individual_ok small_params test_repo) (Population._programs small_population)
  /\ Population._params small_population = small_params
  /\ Population._repo small_population = test_repo.
Proof.
  destruct (@Population_grow_individuals rand48_gen small_params test_repo Rand48.init
              small_population small_params_ok) as (_ & Hall & _ & Hpa & Hre).
  - vm_compute. discriminate.
  - exact small_population_grown.
  - split; [|split; assumption].
    eapply Forall_impl; [exact Hall|]. intros q [Hq _]. exact Hq.
Qed.

Lemma Population_new_builds_individuals_witness :
  (forall pop, Population.grow (Population.mk Rand48.init 0 small_params test_repo [])
               = Ok pop ->
               Population.new small_params test_repo Rand48.init = Ok pop)
  /\ (forall pop,
        Population.new small_params test_repo Rand48.init = Ok pop ->
        vsize (Population._programs pop) = pop_cnt small_params
        /\ Forall (fun q => individual_ok small_params test_repo q
                            /\ Program.Stats.born (Program.stats q) = 0)
                  (Population._programs pop)
        /\ Population._gen pop = 0
        /\ Population._params pop = small_params
        /\ Population._repo pop = test_repo).
Proof.
  apply (@Population_new_builds_individuals rand48_gen small_params test_repo Rand48.init).
  - unfold params_ok. vm_compute. repeat split; discriminate.
  - vm_compute. discriminate.
Defined.

Lemma tick_keeps_individuals_witness :
  Forall (individual_ok (Population._params small_population_next)
                        (Population._repo small_population_next))
         (Population._programs small_population_next)
  /\ Population._params small_population_next = Population._params small_population
  /\ Population._repo small_population_next = Population._repo small_population
  /\ Population._gen small_population_next
     = size_t_wrap (Population._gen small_population + 1).
Proof.
  destruct small_population_individuals as (Hall & Hpa & Hre).
  apply (@tick_keeps_individuals rand48_gen 64 small_population small_population_next).
  - rewrite Hpa, Hre. unfold params_ok. vm_compute. repeat split; discriminate.
  - vm_compute. discriminate.
  - rewrite Hpa, Hre. exact Hall.
  - apply from_outcome_is_ok. vm_compute. reflexivity.
Defined.

(** ** Population::mutate and elitism *)

(** X15: The mutated copy is a well-formed individual stamped with the current
    generation; it still carries the parent's weakness and cost, which only a
    later fitness evaluation replaces, and the population itself changes in
    nothing but the random stream. *)
Theorem Population_mutate_child `{RandomGen} (fuel : nat) (pop pop' : Population.t)
    (a c : Program.t) :
  params_ok (Population._params pop) (Population._repo pop) ->
  individual_ok (Population._params pop) (Population._repo pop) a ->
  Population.mutate fuel pop a = Ok (c, pop') ->
  individual_ok (Population._params pop) (Population._repo pop) c
  /\ Program.Stats.born (Program.stats c) = Population._gen pop
  /\ Program.Stats.weakness (Program.stats c) = Program.Stats.weakness (Program.stats a)
  /\ Program.Stats.cost (Program.stats c) = Program.Stats.cost (Program.stats a)
  /\ Population._programs pop' = Population._programs pop
  /\ Population._gen pop' = Population._gen pop
  /\ Population._params pop' = Population._params pop
  /\ Population._repo pop' = Population._repo pop.
Proof.
  intros Hp Ha Hm. unfold Population.mutate in Hm.
  apply bind_Ok_inv in Hm as ([q rnd'] & Hloop & Hm). injection Hm as <- <-.
  destruct (mutate_loop_individual _ _ _ _ _ _ _ Hp Ha Hloop) as [(Hv & Hrest) Hstats].
  split.
  - split; [|exact Hrest]. by apply (valid_program_same_ops q).
  - unfold Program.stats. simpl. rewrite Hstats. done.
Qed.

Lemma grown_program_individual : individual_ok small_params test_repo grown_program.
Proof.
  assert (Hok : is_ok (@Program.grow rand48_gen Rand48.init
                         (Program.new test_repo 3 3 0) 6) = true)
    by (vm_compute; reflexivity).
  pose proof (from_outcome_is_ok (Program.new test_repo 3 3 0, Rand48.init) _ Hok) as Hg.
  unfold grown_program.
  set (r := from_outcome (Program.new test_repo 3 3 0, Rand48.init)
              (@Program.grow rand48_gen Rand48.init (Program.new test_repo 3 3 0) 6))
    in *.
  clearbody r. destruct r as [q rnd'].
  exact (proj1 (@grow_new_individual rand48_gen small_params test_repo Rand48.init rnd' 0 q
                  small_params_ok Hg)).
Qed.

Lemma Population_mutate_child_witness :
  exists c pop',
    Population.mutate 64 small_population grown_program = Ok (c, pop')
    /\ individual_ok (Population._params small_population)
                     (Population._repo small_population) c
    /\ Program.Stats.born (Program.stats c) = Population._gen small_population
    /\ Program.Stats.weakness (Program.stats c)
       = Program.Stats.weakness (Program.stats grown_program)
    /\ Program.Stats.cost (Program.stats c)
       = Program.Stats.cost (Program.stats grown_program)
    /\ Population._programs pop' = Population._programs small_population
    /\ Population._gen pop' = Population._gen small_population
    /\ Population._params pop' = Population._params small_population
    /\ Population._repo pop' = Population._repo small_population.
Proof.
  destruct small_population_individuals as (_ & Hpa & Hre).
  assert (Hok : is_ok (@Population.mutate rand48_gen 64 small_population
                         grown_program) = true)
    by (vm_compute; reflexivity).
  pose proof (from_outcome_is_ok (grown_program, small_population) _ Hok) as Hm.
  set (r := from_outcome (grown_program, small_population)
              (@Population.mutate rand48_gen 64 small_population grown_program))
    in *.
  clearbody r. destruct r as [c pop']. exists c, pop'. split; [exact Hm|].
  apply (@Population_mutate_child rand48_gen 64 small_population pop'
           grown_program c).
  - rewrite Hpa, Hre. exact small_params_ok.
  - rewrite Hpa, Hre. exact grown_program_individual.
  - exact Hm.
Defined.

(** X16: Elitism: every one of the first [pop_cnt / 10] programs is still in the
    population after the tick, and the generation counter has advanced by
    one. *)
Theorem tick_keeps_elite `{RandomGen} (fuel : nat) (pop pop' : Population.t) :
  0 <= pop_cnt (Population._params pop) ->
  Population.tick fuel pop = Ok pop' ->
  (forall (i : nat) e,
     Z.of_nat i < pop_cnt (Population._params pop) / 10 ->
     Population._programs pop !! i = Some e ->
     e ∈ Population._programs pop')
  /\ Population._gen pop' = size_t_wrap (Population._gen pop + 1).
Proof.
  intros Hpc Ht. apply tick_inv in Ht as (news & Hps & _ & _ & Hg & _); [|done].
  split; [|done]. intros i e Hi He. rewrite Hps.
  rewrite (insertion_sort_perm Program.lt). apply elem_of_app. left.
  apply list_elem_of_lookup. exists i. rewrite lookup_take_lt by lia. done.
Qed.

Lemma tick_keeps_elite_witness :
  (forall (i : nat) e,
     Z.of_nat i < pop_cnt (Population._params small_population) / 10 ->
     Population._programs small_population !! i = Some e ->
     e ∈ Population._programs small_population_next)
  /\ Population._gen small_population_next
     = size_t_wrap (Population._gen small_population + 1).
Proof.
  apply (@tick_keeps_elite rand48_gen 64 small_population small_population_next).
  - vm_compute. discriminate.
  - apply from_outcome_is_ok. vm_compute. reflexivity.
Defined.

(** ** Rand48 *)

(** X17: [lrand48] returns a value from 0 to 2^31 - 1, as its comment says, and the
    state always stays below 2^48; [srand48] puts the low 32 bits of the seed
    above the constant 0x330e. *)
Theorem lrand48_in_range (s seed : Z) :
  0 <= fst (Rand48.lrand48 s) < 2 ^ 31
  /\ 0 <= snd (Rand48.lrand48 s) < 2 ^ 48
  /\ 0 <= Rand48.srand48 seed < 2 ^ 48
  /\ Rand48.srand48 seed mod 2 ^ 16 = 13070
  /\ Rand48.srand48 seed / 2 ^ 16 = seed mod 2 ^ 32.
Proof.
  unfold Rand48.lrand48, Rand48.iterate, Rand48.srand48. simpl fst. simpl snd.
  change 281474976710655 with (Z.ones 48). change 4294967295 with (Z.ones 32).
  rewrite !Z.land_ones by lia. rewrite Z.shiftr_div_pow2, Z.shiftl_mul_pow2 by lia.
  pose proof (Z.mod_pos_bound ((25214903917 * s + 11) mod 2 ^ 64) (2 ^ 48) ltac:(lia)) as Hs.
  pose proof (Z.mod_pos_bound seed (2 ^ 32) ltac:(lia)) as Hseed.
  assert (Hsmall : 0 <= seed mod 2 ^ 32 * 2 ^ 16 + 13070 < 2 ^ 48) by lia.
  rewrite (Z.mod_small (_ + 13070) (2 ^ 64)) by lia.
  split; [|split; [exact Hs|split; [exact Hsmall|split]]].
  - split; [apply Z.div_pos; lia|]. apply Z.div_lt_upper_bound; lia.
  - rewrite Z.add_comm, Z.mod_add by lia. reflexivity.
  - rewrite Z.add_comm, Z.div_add by lia. reflexivity.
Qed.

(** ** execute without a complete last group *)

Lemma execute_loop_no_group p input :
  (forall k, vsize (Program._program p) <> k * Program._out_cnt p) ->
  forall todo out values vf,
    vsize values + vsize todo = vsize (Program._program p) ->
    (exists q, vsize values = q * Program._out_cnt p + vsize out) ->
    foldM (value_step p input) values todo = Ok vf ->
    exists out', foldM (Program.execute_step p input) ([], out, values) todo
                 = Ok ([], out', vf).
Proof.
  intros Hn.
  induction todo as [|op todo IH]; intros out values vf Hlen Hq Hfold.
  - rewrite foldM_nil in *. injection Hfold as <-. eauto.
  - rewrite foldM_cons, value_step_unfold in Hfold.
    rewrite foldM_cons, execute_step_unfold.
    apply bind_Ok_inv in Hfold as (values' & Hfold & Hrest).
    apply bind_Ok_inv in Hfold as (l & El & Hfold).
    apply bind_Ok_inv in Hfold as (r & Er & Hfold).
    apply bind_Ok_inv in Hfold as (v & Ev & Hfold).
    injection Hfold as <-. rewrite El, bind_Ok, Er, bind_Ok, Ev, bind_Ok.
    destruct Hq as [q Hq]. rewrite vsize_cons in Hlen.
    destruct (Z.eqb_spec (vsize (out ++ [v])) (Program._out_cnt p)) as [Eoc|Eoc].
    + rewrite vsize_app, vsize_cons, vsize_nil in Eoc.
      assert (Hv' : vsize (values ++ [v]) = (q + 1) * Program._out_cnt p).
      { rewrite vsize_app, vsize_cons, vsize_nil. lia. }
      destruct (Z.eqb_spec (vsize (values ++ [v])) (vsize (Program._program p)))
        as [En|En]; [destruct (Hn (q + 1)); lia|].
      rewrite bind_Ok. apply IH; [| |exact Hrest].
      * rewrite vsize_app, vsize_cons, vsize_nil. lia.
      * exists (q + 1). rewrite vsize_nil. lia.
    + rewrite bind_Ok. apply IH; [| |exact Hrest].
      * rewrite vsize_app, vsize_cons, vsize_nil. lia.
      * exists q. rewrite !vsize_app, vsize_cons, vsize_nil. lia.
Qed.

(** X18: [execute] returns no output vector at all when the program is empty or
    its length is not a multiple of [out_cnt] (in particular when [out_cnt]
    is 0), although [num_alternatives()] still announces one. *)
Theorem execute_without_complete_group (p : Program.t) (input : Input) :
  valid_program p -> repo_ok (Program._repo p) ->
  vsize input = Program._in_cnt p ->
  Program._program p = []
  \/ (forall k, vsize (Program._program p) <> k * Program._out_cnt p) ->
  Program.execute p input = Ok []
  /\ MultiFunction.num_alternatives (Program.as_multi p) = 1.
Proof.
  intros Hvalid Hrepo Hin Hcase. split; [|reflexivity].
  unfold Program.execute. destruct Hcase as [He|Hn].
  - rewrite He. reflexivity.
  - destruct (all_values_total p input Hvalid Hrepo Hin (Program._program p) [] [])
      as (vf & Hvf & _); [reflexivity|reflexivity|].
    destruct (execute_loop_no_group p input Hn (Program._program p) [] [] vf)
      as (out' & ->); [rewrite vsize_nil; lia|exists 0; rewrite vsize_nil; lia|exact Hvf|].
    reflexivity.
Qed.

Lemma execute_without_complete_group_witness :
  Program.execute five_output_program hand_crafted_input = Ok []
  /\ MultiFunction.num_alternatives (Program.as_multi five_output_program) = 1.
Proof.
  apply (execute_without_complete_group five_output_program hand_crafted_input).
  - apply valid_programb_sound. vm_compute. reflexivity.
  - exact test_repo_ok.
  - vm_compute. reflexivity.
  - right. intros k.
    replace (vsize (Program._program five_output_program)) with 12
      by (vm_compute; reflexivity).
    change (Program._out_cnt five_output_program) with 5. lia.
Defined.

(** ** Stats order as a strict weak ordering *)

(** X19: On Stats whose weaknesses are numbers, [operator<] is a strict weak
    ordering: irreflexive, asymmetric, transitive, and with a transitive
    incomparability relation, as [std::sort] requires of its comparison. *)
Theorem Stats_lt_strict_weak_order (a b c : Program.Stats.t) :
  PrimFloat.is_nan (Program.Stats.weakness a) = false ->
  PrimFloat.is_nan (Program.Stats.weakness b) = false ->
  PrimFloat.is_nan (Program.Stats.weakness c) = false ->
  Program.Stats.lt a a = false
  /\ (Program.Stats.lt a b = true -> Program.Stats.lt b a = false)
  /\ (Program.Stats.lt a b = true -> Program.Stats.lt b c = true ->
      Program.Stats.lt a c = true)
  /\ (Program.Stats.lt a b = false -> Program.Stats.lt b a = false ->
      Program.Stats.lt b c = false -> Program.Stats.lt c b = false ->
      Program.Stats.lt a c = false /\ Program.Stats.lt c a = false).
Proof.
  intros Ha Hb Hc.
  pose proof (Stats_lt_key a a Ha Ha) as Kaa. pose proof (Stats_lt_key a b Ha Hb) as Kab.
  pose proof (Stats_lt_key b a Hb Ha) as Kba. pose proof (Stats_lt_key b c Hb Hc) as Kbc.
  pose proof (Stats_lt_key c b Hc Hb) as Kcb. pose proof (Stats_lt_key a c Ha Hc) as Kac.
  pose proof (Stats_lt_key c a Hc Ha) as Kca.
  pose proof (stats_key_lt_asym (stats_key a) (stats_key a)) as Iaa.
  pose proof (stats_key_lt_asym (stats_key a) (stats_key b)) as Aab.
  pose proof (stats_key_lt_trans (stats_key a) (stats_key b) (stats_key c)) as Tabc.
  pose proof (stats_key_lt_total (stats_key a) (stats_key b)) as Oab.
  pose proof (stats_key_lt_total (stats_key b) (stats_key c)) as Obc.
  split; [|split; [|split]].
  - destruct (Program.Stats.lt a a); [|done]. destruct Iaa; by apply Kaa.
  - intros Hab. destruct (Program.Stats.lt b a); [|done].
    destruct Aab; [by apply Kab|by apply Kba].
  - intros Hab Hbc. apply Kac, Tabc; [by apply Kab|by apply Kbc].
  - intros Hab Hba Hbc Hcb.
    assert (Eab : stats_key a = stats_key b).
    { destruct Oab as [K|[K|K]]; [apply Kab in K; congruence|done|apply Kba in K; congruence]. }
    assert (Ebc : stats_key b = stats_key c).
    { destruct Obc as [K|[K|K]]; [apply Kbc in K; congruence|done|apply Kcb in K; congruence]. }
    rewrite Eab, Ebc in Kac. rewrite Eab, Ebc in Kca.
    pose proof (stats_key_lt_asym (stats_key c) (stats_key c)) as Icc.
    split.
    + destruct (Program.Stats.lt a c); [|done]. destruct Icc; by apply Kac.
    + destruct (Program.Stats.lt c a); [|done]. destruct Icc; by apply Kca.
Qed.

Lemma Stats_lt_strict_weak_order_witness :
  Program.Stats.lt (Program.Stats.mk 1%float 3 0)
        (Program.Stats.mk 1%float 3 0) = false
  /\ (Program.Stats.lt (Program.Stats.mk 1%float 3 0)
        (Program.Stats.mk 1%float 3 5) = true -> Program.Stats.lt (Program.Stats.mk 1%float 3 5)
        (Program.Stats.mk 1%float 3 0) = false)
  /\ (Program.Stats.lt (Program.Stats.mk 1%float 3 0)
        (Program.Stats.mk 1%float 3 5) = true -> Program.Stats.lt (Program.Stats.mk 1%float 3 5)
        (Program.Stats.mk 2%float 0 0) = true ->
      Program.Stats.lt (Program.Stats.mk 1%float 3 0)
        (Program.Stats.mk 2%float 0 0) = true)
  /\ (Program.Stats.lt (Program.Stats.mk 1%float 3 0)
        (Program.Stats.mk 1%float 3 5) = false -> Program.Stats.lt (Program.Stats.mk 1%float 3 5)
        (Program.Stats.mk 1%float 3 0) = false ->
      Program.Stats.lt (Program.Stats.mk 1%float 3 5)
        (Program.Stats.mk 2%float 0 0) = false -> Program.Stats.lt (Program.Stats.mk 2%float 0 0)
        (Program.Stats.mk 1%float 3 5) = false ->
      Program.Stats.lt (Program.Stats.mk 1%float 3 0)
        (Program.Stats.mk 2%float 0 0) = false /\ Program.Stats.lt (Program.Stats.mk 2%float 0 0)
        (Program.Stats.mk 1%float 3 0) = false).
Proof.
  apply (Stats_lt_strict_weak_order (Program.Stats.mk 1%float 3 0)
           (Program.Stats.mk 1%float 3 5) (Program.Stats.mk 2%float 0 0));
    vm_compute; reflexivity.
Defined.

(** X20: A Stats whose weakness is NaN is neither below nor above any other Stats,
    itself included: [weakness != rhs.weakness] holds and [<] fails in both
    directions, so cost and birth are never looked at. *)
Theorem Stats_lt_nan_incomparable (a b : Program.Stats.t) :
  PrimFloat.is_nan (Program.Stats.weakness a) = true ->
  Program.Stats.lt a b = false /\ Program.Stats.lt b a = false.
Proof.
  intros Ha. rewrite is_nan_spec in Ha. unfold Program.Stats.lt.
  assert (E1 : (Program.Stats.weakness a =? Program.Stats.weakness b)%float = false
               /\ (Program.Stats.weakness a <? Program.Stats.weakness b)%float = false
               /\ (Program.Stats.weakness b =? Program.Stats.weakness a)%float = false
               /\ (Program.Stats.weakness b <? Program.Stats.weakness a)%float = false).
  { rewrite !FloatAxioms.eqb_spec, !FloatAxioms.ltb_spec. unfold SFeqb, SFltb.
    destruct (Prim2SF (Program.Stats.weakness a)); try discriminate.
    destruct (Prim2SF (Program.Stats.weakness b)) as [| | |[] ? ?]; simpl; try destruct s; done. }
  destruct E1 as (-> & -> & -> & ->). done.
Qed.

Lemma Stats_lt_nan_incomparable_witness :
  Program.Stats.lt (Program.Stats.mk nan 0 0) (Program.Stats.mk 0%float 7 1) = false
  /\ Program.Stats.lt (Program.Stats.mk 0%float 7 1) (Program.Stats.mk nan 0 0) = false.
Proof.
  apply (Stats_lt_nan_incomparable (Program.Stats.mk nan 0 0) (Program.Stats.mk 0%float 7 1)).
  vm_compute. reflexivity.
Defined.

(** ** OpRepo: codes follow the order of registration *)

Lemma registered_list_from (ops : list (string * OpRepo.value_op2)) (r : OpRepo.t) :
  OpRepo._list (fold_left (fun r e => OpRepo.add r (fst e) (snd e)) ops r)
  = OpRepo._list r
    ++ map (fun e => {| OpRepo.name := fst e; OpRepo.fun_ := snd e; OpRepo.cost := 1 |}) ops
  /\ OpRepo._find_weakness (fold_left (fun r e => OpRepo.add r (fst e) (snd e)) ops r)
     = OpRepo._find_weakness r.
Proof.
  revert r. induction ops as [|e ops IH]; intros r; simpl.
  - by rewrite app_nil_r.
  - destruct (IH (OpRepo.add r (fst e) (snd e))) as [-> ->]. simpl.
    by rewrite <- app_assoc.
Qed.

(** X21: In a catalog built by the constructor and a chain of [add] calls, code 0
    is the free "forward" operation returning its left operand, the i-th added
    operation has code i + 1 and cost 1, [max_op()] is the number of added
    operations, and the fitness hook is the one given to the constructor. *)
Theorem OpRepo_codes_follow_registration (hook : OpRepo.feedback_fun)
    (ops : list (string * OpRepo.value_op2)) :
  vsize ops < 2 ^ 64 - 1 ->
  let r := registered hook ops in
  OpRepo.max_op r = vsize ops
  /\ OpRepo.name_of r 0 = Ok "forward"%string
  /\ OpRepo.cost_of r 0 = Ok 0
  /\ (forall lhs rhs, OpRepo.perform r 0 lhs rhs = Ok lhs)
  /\ (forall (i : nat) name f,
        ops !! i = Some (name, f) ->
        OpRepo.name_of r (Z.of_nat i + 1) = Ok name
        /\ OpRepo.cost_of r (Z.of_nat i + 1) = Ok 1
        /\ forall lhs rhs, OpRepo.perform r (Z.of_nat i + 1) lhs rhs = Ok (f lhs rhs))
  /\ OpRepo._find_weakness r = hook.
Proof.
  intros Hsz r.
  destruct (registered_list_from ops (OpRepo.new hook)) as [Hl Hh].
  fold (registered hook ops) in Hl, Hh. fold r in Hl, Hh. simpl in Hl, Hh.
  assert (Hmax : OpRepo.max_op r = vsize ops).
  { unfold OpRepo.max_op. rewrite Hl, vsize_cons. unfold vsize at 1.
    rewrite length_map. fold (vsize ops). pose proof (vsize_nonneg ops).
    replace (1 + vsize ops - 1) with (vsize ops) by lia.
    apply size_t_wrap_small. lia. }
  assert (H0 : vec_at (OpRepo._list r) 0
               = Ok {| OpRepo.name := "forward"; OpRepo.fun_ := OpRepo.forward_op;
                       OpRepo.cost := 0 |}).
  { apply vec_at_Ok. rewrite Hl. split; [lia|reflexivity]. }
  split; [exact Hmax|].
  split; [unfold OpRepo.name_of; by rewrite H0|].
  split; [unfold OpRepo.cost_of; by rewrite H0|].
  split; [intros lhs rhs; unfold OpRepo.perform; by rewrite H0|].
  split; [|exact Hh].
  intros i name f Hi.
  assert (Hv : vec_at (OpRepo._list r) (Z.of_nat i + 1)
               = Ok {| OpRepo.name := name; OpRepo.fun_ := f; OpRepo.cost := 1 |}).
  { apply vec_at_Ok. split; [lia|]. rewrite Hl.
    replace (Z.to_nat (Z.of_nat i + 1)) with (S i) by lia.
    rewrite lookup_cons_ne_0 by done. simpl Nat.pred.
    exact (eq_trans (list_lookup_fmap _ ops i) (f_equal (fmap _) Hi)). }
  split; [unfold OpRepo.name_of; by rewrite Hv|].
  split; [unfold OpRepo.cost_of; by rewrite Hv|].
  intros lhs rhs. unfold OpRepo.perform. by rewrite Hv.
Qed.

Lemma OpRepo_codes_follow_registration_witness :
  exists ops : list (string * OpRepo.value_op2),
    registered Ponder.find_weakness ops = test_repo
    /\ OpRepo.max_op (registered Ponder.find_weakness ops) = vsize ops
    /\ OpRepo.name_of (registered Ponder.find_weakness ops) 0 = Ok "forward"%string
    /\ OpRepo.cost_of (registered Ponder.find_weakness ops) 0 = Ok 0
    /\ (forall lhs rhs,
          OpRepo.perform (registered Ponder.find_weakness ops) 0 lhs rhs = Ok lhs)
    /\ (forall (i : nat) name f,
          ops !! i = Some (name, f) ->
          OpRepo.name_of (registered Ponder.find_weakness ops) (Z.of_nat i + 1) = Ok name
          /\ OpRepo.cost_of (registered Ponder.find_weakness ops) (Z.of_nat i + 1) = Ok 1
          /\ forall lhs rhs,
               OpRepo.perform (registered Ponder.find_weakness ops) (Z.of_nat i + 1) lhs rhs
               = Ok (f lhs rhs))
    /\ OpRepo._find_weakness (registered Ponder.find_weakness ops) = Ponder.find_weakness.
Proof.
  exists [("add"%string, Ponder.returned Ponder.my_add);
          ("sub"%string, Ponder.returned Ponder.my_sub);
          ("mul"%string, Ponder.returned Ponder.my_mul); ("div"%string, Ponder.my_div);
          ("mod"%string, Ponder.my_mod); ("pow"%string, int_pow);
          ("and"%string, Ponder.my_and); ("or"%string, Ponder.my_or);
          ("xor"%string, Ponder.my_xor)].
  split; [reflexivity|].
  apply (OpRepo_codes_follow_registration Ponder.find_weakness).
  unfold vsize. simpl. lia.
Defined.

(** ** Dist (ponder_nov2017.cpp) *)

Lemma slot_index pz py px :
  0 <= pz < 6 -> 0 <= py < 2 -> 0 <= px < 2 ->
  Z.lor (Z.lor (Z.shiftl pz 2) (Z.shiftl py 1)) px = 4 * pz + 2 * py + px.
Proof.
  intros Hz Hy Hx.
  assert (Ez : pz = 0 \/ pz = 1 \/ pz = 2 \/ pz = 3 \/ pz = 4 \/ pz = 5) by lia.
  assert (Ey : py = 0 \/ py = 1) by lia.
  assert (Ex : px = 0 \/ px = 1) by lia.
  destruct Ez as [->|[->|[->|[->|[->| ->]]]]], Ey as [->| ->], Ex as [->| ->];
    reflexivity.
Qed.

Lemma sample_slot (slots : Ponder.Dist) (x y z : Z) :
  vsize slots = 24 ->
  exists slot cnt,
    slot = 4 * (size_t_wrap z mod 6) + 2 * (y mod 2) + x mod 2
    /\ 0 <= slot < 24
    /\ slots !! Z.to_nat slot = Some cnt
    /\ Ponder.sample slots x y z = Ok (<[Z.to_nat slot := int_wrap (cnt + 1)]> slots).
Proof.
  intros Hsz. unfold Ponder.sample.
  change 1 with (Z.ones 1). rewrite !Z.land_ones by lia. change (2 ^ 1) with 2.
  change (Z.ones 1) with 1.
  pose proof (Z.mod_pos_bound x 2 ltac:(lia)) as Hx.
  pose proof (Z.mod_pos_bound y 2 ltac:(lia)) as Hy.
  pose proof (Z.mod_pos_bound (size_t_wrap z) 6 ltac:(lia)) as Hz.
  rewrite (int_wrap_small (size_t_wrap z mod 6)) by lia.
  rewrite slot_index by lia.
  set (slot := 4 * (size_t_wrap z mod 6) + 2 * (y mod 2) + x mod 2).
  assert (Hslot : 0 <= slot < 24) by (unfold slot; lia).
  destruct (vec_at_in_range slots slot) as (cnt & Hv & Hl); [lia|].
  exists slot, cnt. split; [reflexivity|]. split; [exact Hslot|]. split; [exact Hl|].
  cbv zeta.
  replace (0 <=? x mod 2) with true by lia.
  replace (0 <=? y mod 2) with true by lia.
  replace (0 <=? size_t_wrap z mod 6) with true by lia.
  replace (x mod 2 <? 2) with true by lia.
  replace (y mod 2 <? 2) with true by lia.
  replace (size_t_wrap z mod 6 <? 6) with true by lia.
  rewrite (size_t_wrap_small slot) by lia.
  replace (slot <? vsize slots) with true by lia.
  rewrite Hv. reflexivity.
Qed.



Lemma error_from (slots : list Z) (acc : Z) :
  Forall (fun cnt => 0 <= cnt <= INT_MAX) slots ->
  0 <= acc -> acc + vsize slots * 2 ^ 31 < 2 ^ 64 ->
  fold_left (fun err cnt => size_t_wrap (err + (Z.max cnt 9 - Z.min cnt 9))) slots acc
  = acc + deviation_sum slots.
Proof.
  revert acc. induction slots as [|c slots IH]; intros acc Hall Hacc Hb; simpl.
  - lia.
  - apply Forall_cons in Hall as [Hc Hall]. unfold INT_MAX in Hc.
    rewrite vsize_cons in Hb. pose proof (vsize_nonneg slots) as Hs.
    assert (Hd : Z.max c 9 - Z.min c 9 = Z.abs (c - 9)) by lia.
    rewrite Hd, size_t_wrap_small by lia.
    rewrite IH; [lia|exact Hall|lia|lia].
Qed.

Lemma deviation_sum_zero (slots : list Z) :
  0 <= deviation_sum slots
  /\ (deviation_sum slots = 0 <-> Forall (fun cnt => cnt = 9) slots).
Proof.
  induction slots as [|c slots [IH0 IH]]; simpl.
  - split; [lia|]. split; [constructor|reflexivity].
  - split; [lia|]. rewrite Forall_cons. split.
    + intros Hz. split; [lia|]. apply IH. lia.
    + intros [-> Hall]. apply IH in Hall. lia.
Qed.

(** X23: For counts that are non-negative [int]s, [error] is the sum of the
    distances of the counts from 9, without wrap-around; it is 0 exactly when
    every slot holds 9. *)
Theorem error_is_total_deviation (slots : Ponder.Dist) :
  Forall (fun cnt => 0 <= cnt <= INT_MAX) slots ->
  vsize slots <= 2 ^ 31 ->
  Ponder.error slots = deviation_sum slots
  /\ (Ponder.error slots = 0 <-> Forall (fun cnt => cnt = 9) slots).
Proof.
  intros Hall Hsz. unfold Ponder.error.
  rewrite error_from by (try done; lia). rewrite Z.add_0_l.
  split; [reflexivity|]. apply deviation_sum_zero.
Qed.

Lemma error_is_total_deviation_witness :
  Ponder.error Ponder.Dist_new = deviation_sum Ponder.Dist_new
  /\ (Ponder.error Ponder.Dist_new = 0 <-> Forall (fun cnt => cnt = 9) Ponder.Dist_new).
Proof.
  apply (error_is_total_deviation Ponder.Dist_new).
  - apply Forall_replicate. unfold INT_MAX. lia.
  - unfold vsize. simpl. lia.
Defined.

(** ** find_weakness (ponder_nov2017.cpp) *)

Lemma execute_one_output p input k :
  valid_program p -> repo_ok (Program._repo p) ->
  vsize input = Program._in_cnt p ->
  1 <= k -> 1 <= Program._out_cnt p ->
  vsize (Program._program p) = k * Program._out_cnt p ->
  exists out, Program.execute p input = Ok [out] /\ vsize out = Program._out_cnt p.
Proof.
  intros Hvalid Hrepo Hin Hk Hoc Hn.
  destruct (all_values_total p input Hvalid Hrepo Hin (Program._program p) [] [])
    as (vf & Hvf & Hsz); [reflexivity|reflexivity|].
  rewrite vsize_nil in Hsz.
  destruct (execute_loop_groups p input k Hoc Hn (Program._program p) [] [] [] [] 0 vf)
    as (out' & Hex); try done.
  - rewrite vsize_nil. lia.
  - rewrite vsize_nil. replace (0 <? _) with true by nia. reflexivity.
  - exists (drop (Z.to_nat (vsize (Program._program p) - Program._out_cnt p)) vf).
    split.
    + unfold Program.execute.
      match goal with |- mbind _ ?m = _ => replace m with
        (Ok ([drop (Z.to_nat (vsize (Program._program p) - Program._out_cnt p)) vf], out', vf))
      end. reflexivity.
    + unfold vsize in *. rewrite length_drop. nia.
Qed.

Lemma handle_feedback_single (p : Program.t) (k : Z) (w : Weakness) :
  valid_program p -> repo_ok (Program._repo p) ->
  1 <= Program._out_cnt p -> 1 <= k ->
  vsize (Program._program p) = k * Program._out_cnt p ->
  vsize (Program._program p) <= 2 ^ 31 ->
  exists c,
    Program.handle_feedback p [w]
    = Ok (Program.with_stats p
            (Program.Stats.mk w c (Program.Stats.born (Program._stats p))) (k - 1)).
Proof.
  intros Hvalid Hrepo Hout Hk Hn Hsz.
  destruct (get_cost_ok p (k - 1) Hvalid Hrepo) as [c Hc]; [lia|lia|lia|nia|].
  exists c. unfold Program.handle_feedback, udiv.
  change (Program.num_alternatives p) with 1.
  change (vsize [w] =? 1) with true. simpl assert. rewrite bind_Ok.
  change (1 =? 1) with true. cbv iota.
  replace (Program._out_cnt p =? 0) with false by lia.
  rewrite size_t_wrap_small by nia.
  replace ((vsize (Program._program p) - Program._out_cnt p) / Program._out_cnt p)
    with (k - 1).
  - rewrite bind_Ok. change (vec_at [w] 0) with (Ok w). rewrite bind_Ok, Hc, bind_Ok.
    reflexivity.
  - rewrite Hn. replace (k * Program._out_cnt p - Program._out_cnt p)
      with ((k - 1) * Program._out_cnt p) by lia.
    rewrite Z.div_mul by lia. reflexivity.
Qed.

Lemma total_count_insert (slots : list Z) (i : nat) (cnt v : Z) :
  slots !! i = Some cnt -> total_count (<[i := v]> slots) = total_count slots - cnt + v.
Proof.
  revert i. induction slots as [|c slots IH]; intros [|i] Hi; simpl in *; try discriminate.
  - injection Hi as ->. lia.
  - rewrite (IH _ Hi). lia.
Qed.

Lemma total_count_bounds (slots : list Z) :
  Forall (fun cnt => 0 <= cnt) slots ->
  0 <= total_count slots /\ Forall (fun cnt => 0 <= cnt <= total_count slots) slots.
Proof.
  induction 1 as [|c slots Hc _ [IH0 IH]]; simpl; [split; [lia|constructor]|].
  split; [lia|]. constructor; [lia|].
  eapply Forall_impl; [exact IH|]. simpl. intros; lia.
Qed.

Lemma deviation_sum_bound (slots : list Z) :
  Forall (fun cnt => 0 <= cnt) slots ->
  0 <= deviation_sum slots <= total_count slots + 9 * vsize slots.
Proof.
  induction 1 as [|c slots Hc _ IH]; [unfold vsize; simpl; lia|].
  rewrite vsize_cons. simpl. lia.
Qed.

Section PonderHook.
Variables (p : Program.t) (k : Z).
Hypothesis Hvalid : valid_program p.
Hypothesis Hrepo : repo_ok (Program._repo p).
Hypothesis Hin : Program._in_cnt p = 3 \/ Program._in_cnt p = 6.
Hypothesis Hout : Program._out_cnt p = 3.
Hypothesis Hk : 1 <= k.
Hypothesis Hn : vsize (Program._program p) = k * 3.

Lemma find_weakness_round_ok (dist : Ponder.Dist) (d : Z * Z * Z) :
  histogram dist -> total_count dist < INT_MAX ->
  exists dist',
    Ponder.find_weakness_round (Program.as_multi p) [dist] d = Ok [dist']
    /\ histogram dist' /\ total_count dist' = total_count dist + 1.
Proof.
  intros [Hsz Hnn] Htot. destruct d as [[d1 d2] d3]. unfold Ponder.find_weakness_round.
  rewrite std_sort_Z_ltb, bind_Ok.
  set (sorted := insertion_sort Z.ltb [d1; d2; d3]).
  assert (Hs : vsize sorted = 3).
  { unfold vsize, sorted. rewrite insertion_sort_length. reflexivity. }
  change (MultiFunction.num_inputs (Program.as_multi p)) with (Program._in_cnt p).
  set (input := if Program._in_cnt p =? 6 then sorted ++ [2; 1502; 70677] else sorted).
  assert (Hi : vsize input = Program._in_cnt p).
  { unfold input. destruct Hin as [E|E]; rewrite E; simpl; [exact Hs|].
    rewrite vsize_app, Hs. reflexivity. }
  destruct (execute_one_output p input k Hvalid Hrepo Hi Hk) as (out & Hex & Ho);
    [lia|lia|].
  change (MultiFunction.execute (Program.as_multi p) input) with (Program.execute p input).
  rewrite Hex, bind_Ok. rewrite Hout in Ho. unfold Output, Value in out, Ho.
  change (vsize [out] =? vsize [dist]) with true.
  change (assert true) with (Ok tt). rewrite bind_Ok.
  change (seq 0 (length [out])) with [0%nat]. rewrite foldM_cons.
  change (vec_at [out] (Z.of_nat 0)) with (Ok out). rewrite bind_Ok.
  rewrite Ho. change (assert (3 =? 3)) with (Ok tt). rewrite bind_Ok.
  destruct (vec_at_in_range out 0) as (o0 & -> & _); [lia|]. rewrite bind_Ok.
  destruct (vec_at_in_range out 1) as (o1 & -> & _); [lia|]. rewrite bind_Ok.
  destruct (vec_at_in_range out 2) as (o2 & -> & _); [lia|]. rewrite bind_Ok.
  change (vec_at [dist] (Z.of_nat 0)) with (Ok dist). rewrite bind_Ok.
  destruct (sample_slot dist o0 o1 o2 Hsz) as (slot & cnt & _ & Hslot & Hl & ->).
  rewrite !bind_Ok, foldM_nil.
  exists (<[Z.to_nat slot := int_wrap (cnt + 1)]> dist). split; [reflexivity|].
  destruct (total_count_bounds dist Hnn) as [_ Hb].
  pose proof (proj1 (Forall_lookup _ _) Hb _ _ Hl) as Hc. simpl in Hc.
  unfold INT_MAX in Htot. rewrite int_wrap_small by lia.
  split; [split|].
  - unfold vsize, Ponder.Dist in *. by rewrite length_insert.
  - apply Forall_insert; [exact Hnn|lia].
  - rewrite (total_count_insert _ _ _ _ Hl). lia.
Qed.

Lemma find_weakness_rounds_ok (ds : list (Z * Z * Z)) :
  forall dist,
    histogram dist -> total_count dist + vsize ds <= INT_MAX ->
    exists dist',
      foldM (Ponder.find_weakness_round (Program.as_multi p)) [dist] ds = Ok [dist']
      /\ histogram dist' /\ total_count dist' = total_count dist + vsize ds.
Proof.
  induction ds as [|d ds IH]; intros dist Hh Htot.
  - exists dist. rewrite vsize_nil. split; [reflexivity|]. split; [exact Hh|lia].
  - rewrite vsize_cons in *. pose proof (vsize_nonneg ds) as Hds.
    destruct (find_weakness_round_ok dist d Hh) as (d1 & Hr & Hh1 & Ht1); [lia|].
    destruct (IH d1 Hh1) as (d2 & Hf & Hh2 & Ht2); [lia|].
    exists d2. rewrite foldM_cons, Hr, bind_Ok. split; [exact Hf|].
    split; [exact Hh2|lia].
Qed.

Lemma find_weakness_hook_ok :
  exists dist,
    Ponder.find_weakness (Program.as_multi p)
    = Ok [PrimFloat.of_uint63 (Uint63.of_Z (Ponder.error dist))]
    /\ histogram dist /\ total_count dist = 216
    /\ Ponder.error dist = deviation_sum dist
    /\ 0 <= Ponder.error dist <= 432.
Proof.
  unfold Ponder.find_weakness.
  change (replicate _ Ponder.Dist_new) with [Ponder.Dist_new].
  set (ds := (d1 ← Ponder.dice; d2 ← Ponder.dice; d3 ← Ponder.dice; [(d1, d2, d3)])).
  assert (Hds : vsize ds = 216) by reflexivity.
  destruct (find_weakness_rounds_ok ds Ponder.Dist_new) as (dist & -> & Hh & Ht).
  - split; [reflexivity|]. apply Forall_replicate. lia.
  - rewrite Hds. unfold INT_MAX. simpl. lia.
  - rewrite Hds in Ht. change (total_count Ponder.Dist_new) with 0 in Ht.
    exists dist. rewrite bind_Ok. split; [reflexivity|]. split; [exact Hh|].
    split; [lia|]. destruct Hh as [Hsz Hnn].
    assert (He : Ponder.error dist = deviation_sum dist).
    { unfold Ponder.error. rewrite error_from; [lia| |lia|lia].
      destruct (total_count_bounds dist Hnn) as [_ Hb].
      eapply Forall_impl; [exact Hb|]. simpl. unfold INT_MAX. intros; lia. }
    split; [exact He|]. rewrite He.
    pose proof (deviation_sum_bound dist Hnn). lia.
Qed.

End PonderHook.

Lemma small_error_is_number (e : Z) :
  0 <= e <= 432 -> PrimFloat.is_nan (PrimFloat.of_uint63 (Uint63.of_Z e)) = false.
Proof.
  intros He.
  assert (Hall : forallb (fun n => negb (PrimFloat.is_nan
                                           (PrimFloat.of_uint63 (Uint63.of_Z (Z.of_nat n)))))
                         (seq 0 433) = true) by (vm_compute; reflexivity).
  rewrite forallb_forall in Hall. specialize (Hall (Z.to_nat e)).
  rewrite Z2Nat.id in Hall by lia. apply negb_true_iff, Hall, in_seq. lia.
Qed.

(** X24: On a well-formed program over the catalog of the test, with three
    outputs per slot and three or six inputs, whose catalog calls all have
    defined behaviour on the 216 rolls (no overflow in add, sub and mul, [pow]
    within its domain), the fitness function passes all its checks: it counts
    216 samples in one 24-slot histogram and returns exactly one weakness, the
    histogram's error, a number between 0 and 432. *)
Theorem ponder_find_weakness_returns_one_number (my_pow : Z -> Z -> Z)
    (pow_ok : Z -> Z -> bool) (p : Program.t) (k : Z) :
  valid_program p -> Program._repo p = Ponder.my_repo my_pow ->
  Program._in_cnt p = 3 \/ Program._in_cnt p = 6 ->
  Program._out_cnt p = 3 -> 1 <= k ->
  vsize (Program._program p) = k * 3 ->
  forallb (run_defined pow_ok p) (ponder_inputs (Program._in_cnt p)) = true ->
  exists dist w,
    Ponder.find_weakness (Program.as_multi p) = Ok [w]
    /\ w = PrimFloat.of_uint63 (Uint63.of_Z (Ponder.error dist))
    /\ vsize dist = 24 /\ total_count dist = 216
    /\ 0 <= Ponder.error dist <= 432
    /\ PrimFloat.is_nan w = false.
Proof.
  intros Hvalid Hr Hin Hout Hk Hn Hdefined.
  assert (Hrepo : repo_ok (Program._repo p)).
  { rewrite Hr. unfold repo_ok. vm_compute. split; discriminate. }
  destruct (find_weakness_hook_ok p k Hvalid Hrepo Hin Hout Hk Hn)
    as (dist & Hf & [Hsz _] & Ht & _ & He).
  exists dist, (PrimFloat.of_uint63 (Uint63.of_Z (Ponder.error dist))).
  split; [exact Hf|]. split; [reflexivity|]. split; [exact Hsz|]. split; [exact Ht|].
  split; [exact He|]. by apply small_error_is_number.
Qed.

(** A program outside that premise: the product of operation 3 leaves [int]
    when the largest die shows 6. *)
Example mul_chain_overflows :
  valid_programb mul_chain_program = true
  /\ Ponder.my_mul 1679616 1679616 = Undefined
  /\ run_defined int_pow_ok mul_chain_program [6; 6; 6] = false
  /\ run_defined int_pow_ok mul_chain_program [1; 2; 3] = true
  /\ forallb (run_defined int_pow_ok mul_chain_program) (ponder_inputs 3) = false.
Proof. split; [|split; [|split; [|split]]]; vm_compute; reflexivity. Qed.

Lemma ponder_find_weakness_returns_one_number_witness :
  exists dist w,
    Ponder.find_weakness (Program.as_multi crafted_program) = Ok [w]
    /\ w = PrimFloat.of_uint63 (Uint63.of_Z (Ponder.error dist))
    /\ vsize dist = 24 /\ total_count dist = 216
    /\ 0 <= Ponder.error dist <= 432
    /\ PrimFloat.is_nan w = false.
Proof.
  apply (ponder_find_weakness_returns_one_number int_pow int_pow_ok crafted_program 4).
  - apply valid_programb_sound. vm_compute. reflexivity.
  - reflexivity.
  - right. reflexivity.
  - reflexivity.
  - lia.
  - vm_compute. reflexivity.
  - vm_compute. reflexivity.
Defined.

(** ** Populations over the catalog of the test *)

Lemma all_numbers_Forall ps :
  all_numbers ps = true <-> Forall (fun q => is_number q = true) ps.
Proof.
  unfold all_numbers. induction ps as [|q ps IH]; simpl; [split; constructor|].
  rewrite andb_true_iff, Forall_cons, IH. done.
Qed.

Section PonderPopulation.
Context `{RandomGen}.
Variable my_pow : Z -> Z -> Z.

Lemma my_repo_ok : repo_ok (Ponder.my_repo my_pow).
Proof. unfold repo_ok. vm_compute. split; discriminate. Qed.

Lemma ponder_params_ok params :
  ponder_params params -> params_ok params (Ponder.my_repo my_pow).
Proof.
  intros (Hin & Hout & (k & Hk & Hop) & Hmax & Hpc). unfold params_ok.
  change (vsize (OpRepo._list (Ponder.my_repo my_pow))) with 10. lia.
Qed.

Lemma ponder_find_weakness_total params q :
  ponder_params params -> individual_ok params (Ponder.my_repo my_pow) q ->
  exists q', find_weakness (Ponder.my_repo my_pow) q = Ok q' /\ is_number q' = true.
Proof.
  intros (Hin & Hout & (k & Hk & Hop) & Hmax & Hpc) (Hv & Hsz & Hi & Ho & Hr).
  assert (Hrepo : repo_ok (Program._repo q)) by (rewrite Hr; apply my_repo_ok).
  unfold find_weakness.
  change (OpRepo._find_weakness (Ponder.my_repo my_pow)) with Ponder.find_weakness.
  destruct (find_weakness_hook_ok q k Hv Hrepo) as (dist & -> & _ & _ & _ & He);
    [by rewrite Hi|by rewrite Ho|exact Hk|by rewrite Hsz| ].
  rewrite bind_Ok.
  destruct (handle_feedback_single q k
              (PrimFloat.of_uint63 (Uint63.of_Z (Ponder.error dist))) Hv Hrepo)
    as [c Hc]; [lia|exact Hk|rewrite Hsz, Ho, Hout; exact Hop|lia| ].
  eexists. split; [exact Hc|]. unfold is_number, Program.stats. simpl.
  by rewrite small_error_is_number.
Qed.

Lemma ponder_find_weakness_number params q q' :
  ponder_params params -> individual_ok params (Ponder.my_repo my_pow) q ->
  find_weakness (Ponder.my_repo my_pow) q = Ok q' ->
  individual_ok params (Ponder.my_repo my_pow) q' /\ is_number q' = true.
Proof.
  intros Hpp Hq Hf. split; [by eapply find_weakness_individual|].
  destruct (ponder_find_weakness_total params q Hpp Hq) as (q'' & Hf' & Hn).
  congruence.
Qed.

Lemma Population_grow_loop_unfold (n : nat) (pop : Population.t) :
  Population.grow_loop (S n) pop
  = if vsize (Population._programs pop) <? pop_cnt (Population._params pop) then
      '(prog, rnd) ← Program.grow (Population._rnd pop)
                       (Program.new (Population._repo pop)
                          (in_cnt (Population._params pop))
                          (out_cnt (Population._params pop)) (Population._gen pop))
                       (op_cnt (Population._params pop));
      prog ← find_weakness (Population._repo pop) prog;
      Population.grow_loop n
        (Population.with_programs (Population.with_rnd pop rnd)
           (Population._programs pop ++ [prog]))
    else Ok pop.
Proof. reflexivity. Qed.

Lemma ponder_grow_loop_total (n : nat) : forall pop,
  ponder_params (Population._params pop) ->
  Population._repo pop = Ponder.my_repo my_pow ->
  Forall (fun q => individual_ok (Population._params pop) (Population._repo pop) q
                   /\ is_number q = true) (Population._programs pop) ->
  pop_cnt (Population._params pop) - vsize (Population._programs pop) <= Z.of_nat n ->
  exists pop',
    Population.grow_loop n pop = Ok pop'
    /\ Forall (fun q => individual_ok (Population._params pop) (Population._repo pop) q
                        /\ is_number q = true) (Population._programs pop')
    /\ vsize (Population._programs pop')
       = Z.max (vsize (Population._programs pop)) (pop_cnt (Population._params pop))
    /\ Population._params pop' = Population._params pop
    /\ Population._repo pop' = Population._repo pop
    /\ Population._gen pop' = Population._gen pop.
Proof.
  induction n as [|n IH]; intros pop Hpp Hrepo Hall Hfuel.
  - exists pop. simpl. replace (_ <? _) with false by lia.
    split; [reflexivity|]. split; [exact Hall|]. split; [lia|done].
  - rewrite Population_grow_loop_unfold.
    destruct (Z.ltb_spec (vsize (Population._programs pop))
                         (pop_cnt (Population._params pop))) as [Hlt|Hge];
      [|exists pop; split; [reflexivity|]; split; [exact Hall|]; split; [lia|done]].
    pose proof (ponder_params_ok _ Hpp) as Hpo. rewrite <- Hrepo in Hpo.
    pose proof Hpp as (Hin & Hout & (k & Hk & Hop) & Hmax & Hpc).
    pose proof Hpo as (Hpi & Hpop & Hpl).
    destruct (grow_total (Population._rnd pop)
                (Program.new (Population._repo pop) (in_cnt (Population._params pop))
                   (out_cnt (Population._params pop)) (Population._gen pop))
                (op_cnt (Population._params pop)))
      as (p' & rnd' & news & Hg & _).
    { intros i op Hl. simpl in Hl. by rewrite lookup_nil in Hl. }
    { exact Hpi. }
    { exact Hpl. }
    { simpl. lia. }
    { exact Hmax. }
    { simpl. rewrite Hout, Hop. apply Z.mod_mul. lia. }
    { simpl. rewrite vsize_nil. lia. }
    rewrite Hg, bind_Ok. cbv beta iota.
    destruct (grow_new_individual _ _ _ _ _ _ Hpo Hg) as [Hind _].
    destruct (ponder_find_weakness_total (Population._params pop) p' Hpp) as (q' & Hf & Hnum);
      [by rewrite <- Hrepo|].
    rewrite <- Hrepo in Hf. rewrite Hf, bind_Ok.
    pose proof (find_weakness_individual _ _ _ _ _ Hind Hf) as Hind'.
    destruct (IH (Population.with_programs (Population.with_rnd pop rnd')
                    (Population._programs pop ++ [q'])))
      as (pop' & Hl & Hall' & Hsz' & Hrest); simpl.
    { exact Hpp. }
    { exact Hrepo. }
    { apply Forall_app. split; [exact Hall|]. by constructor. }
    { rewrite vsize_app, vsize_cons, vsize_nil. lia. }
    exists pop'. split; [exact Hl|]. split; [exact Hall'|]. split; [|exact Hrest].
    rewrite Hsz'. simpl. rewrite vsize_app, vsize_cons, vsize_nil. lia.
Qed.

Lemma ponder_grow params (rnd : rnd_state) :
  ponder_params params ->
  exists pop,
    Population.grow (Population.mk rnd 0 params (Ponder.my_repo my_pow) []) = Ok pop
    /\ ponder_population my_pow params pop /\ Population._gen pop = 0.
Proof.
  intros Hpp. pose proof Hpp as (_ & _ & _ & _ & Hpc).
  destruct (ponder_grow_loop_total (Z.to_nat (pop_cnt params))
              (Population.mk rnd 0 params (Ponder.my_repo my_pow) []))
    as (pop1 & Hl & Hall & Hsz & Hpa & Hre & Hg); simpl in *.
  { exact Hpp. }
  { reflexivity. }
  { constructor. }
  { rewrite vsize_nil. lia. }
  assert (Hnum : all_numbers (Population._programs pop1) = true).
  { apply all_numbers_Forall. eapply Forall_impl; [exact Hall|]. by intros q [_ Hq]. }
  unfold Population.grow. simpl Population._params. rewrite Hl, bind_Ok.
  rewrite (std_sort_of_strict_weak _ _ (strict_weak_numbers _ Hnum)), bind_Ok.
  eexists. split; [reflexivity|]. split; [|exact Hg].
  rewrite vsize_nil in Hsz.
  unfold ponder_population. simpl.
  split; [exact Hpa|]. split; [exact Hre|]. split; [|split; [|split]].
  - unfold vsize. rewrite insertion_sort_length. fold (vsize (Population._programs pop1)). lia.
  - rewrite (insertion_sort_perm Program.lt (Population._programs pop1)).
    eapply Forall_impl; [exact Hall|]. by intros q [Hq _].
  - eapply all_numbers_perm; [|exact Hnum]. symmetry. apply insertion_sort_perm.
  - by apply sorted_after_insertion_sort.
Qed.

Lemma ponder_refill_loop fuel (n : nat) apex_cnt : forall pop pop',
  ponder_params (Population._params pop) ->
  Population._repo pop = Ponder.my_repo my_pow ->
  Forall (fun q => individual_ok (Population._params pop) (Population._repo pop) q
                   /\ is_number q = true) (Population._programs pop) ->
  Population.refill_loop fuel n pop apex_cnt = Ok pop' ->
  Forall (fun q => individual_ok (Population._params pop) (Population._repo pop) q
                   /\ is_number q = true) (Population._programs pop').
Proof.
  induction n as [|n IH]; intros pop pop' Hpp Hrepo Hall; simpl.
  - destruct (_ <? _); [discriminate|]. intros [= <-]. done.
  - destruct (_ <? _); [|intros [= <-]; done].
    intros Hr.
    apply bind_Ok_inv in Hr as ([parent pop1] & Hsel & Hr).
    apply bind_Ok_inv in Hr as ([child pop2] & Hmut & Hr).
    apply bind_Ok_inv in Hr as (child' & Hfw & Hr).
    pose proof (ponder_params_ok _ Hpp) as Hpo. rewrite <- Hrepo in Hpo.
    assert (Hparent : individual_ok (Population._params pop) (Population._repo pop) parent).
    { unfold Population.select in Hsel.
      apply bind_Ok_inv in Hsel as ([i s] & _ & Hsel).
      apply bind_Ok_inv in Hsel as (q & Hq & Hsel). injection Hsel as <- _.
      apply vec_at_Ok in Hq as [_ Hq]. rewrite Forall_forall in Hall.
      apply Hall. by eapply list_elem_of_lookup_2. }
    apply select_inv in Hsel as (r1 & ->).
    unfold Population.mutate in Hmut.
    apply bind_Ok_inv in Hmut as ([c rnd'] & Hloop & Hmut). injection Hmut as <- <-.
    apply mutate_loop_individual with (params := Population._params pop)
                                      (repo := Population._repo pop) in Hloop
      as [Hc _]; [|done|done].
    assert (Hchild : individual_ok (Population._params pop) (Population._repo pop)
                       (Program.reborn c (Population._gen pop))).
    { destruct Hc as (Hv & Hrest). split; [|exact Hrest].
      by apply (valid_program_same_ops c). }
    simpl in Hfw. rewrite Hrepo in Hfw, Hchild.
    destruct (ponder_find_weakness_number _ _ _ Hpp Hchild Hfw) as [Hchild' Hnum].
    rewrite <- Hrepo in Hchild'.
    apply IH in Hr; simpl in *; [done|done|done|].
    apply Forall_app. split; [done|]. by constructor.
Qed.

(** X25: When the [Population] constructor returns, with the catalog and
    fitness function of the test and parameters of its shape (three or six
    inputs, three outputs per slot, a positive multiple of three operations),
    the population holds [pop_cnt] well-formed individuals of generation 0
    whose weaknesses are numbers, sorted best first. *)
Theorem ponder_population_constructed params (rnd : rnd_state) (pop : Population.t) :
  ponder_params params ->
  Population.new params (Ponder.my_repo my_pow) rnd = Ok pop ->
  ponder_population my_pow params pop
  /\ Population._gen pop = 0.
Proof.
  intros Hpp Hnew. destruct (ponder_grow params rnd Hpp) as (pop0 & Hg & Hp & Hgen).
  unfold Population.new in Hnew. rewrite Hg, bind_Ok in Hnew.
  apply bind_Ok_inv in Hnew as (_ & _ & Hnew). apply Ok_inj in Hnew. subst pop0.
  by split.
Qed.

(** X26: A tick that returns keeps such a population in shape: [pop_cnt]
    well-formed individuals over the same catalog, every weakness a number,
    sorted best first, one generation later. *)
Theorem ponder_tick_preserves (fuel : nat) params (pop pop' : Population.t) :
  ponder_params params -> ponder_population my_pow params pop ->
  Population.tick fuel pop = Ok pop' ->
  ponder_population my_pow params pop'
  /\ Population._gen pop' = size_t_wrap (Population._gen pop + 1).
Proof.
  intros Hpp (Hpa & Hre & Hsz & Hall & Hnum & _) Ht. subst params.
  pose proof Hpp as (_ & _ & _ & _ & Hpc).
  assert (Ha : 0 <= pop_cnt (Population._params pop) / 10) by (apply Z.div_pos; lia).
  unfold Population.tick in Ht.
  apply bind_Ok_inv in Ht as (pop1 & Hr & Ht).
  apply bind_Ok_inv in Ht as (ps & [_ ->]%std_sort_Ok_inv & Ht). injection Ht as <-.
  pose proof (refill_loop_inv _ _ _ _ _ Hr) as (news & Hps & Hg & Hpa1 & Hre1 & _ & Hsz1).
  apply ponder_refill_loop in Hr; simpl in *.
  - assert (Hnum1 : all_numbers (Population._programs pop1) = true).
    { apply all_numbers_Forall. eapply Forall_impl; [exact Hr|]. by intros q [_ Hq]. }
    split; [|exact Hg]. unfold ponder_population. simpl.
    split; [exact Hpa1|]. split; [congruence|]. split; [|split; [|split]].
    + unfold vsize. rewrite insertion_sort_length. fold (vsize (Population._programs pop1)).
      apply Hsz1. rewrite pop_back_loop_take by (done || lia).
      unfold vsize. rewrite length_take.
      assert (pop_cnt (Population._params pop) / 10 <= pop_cnt (Population._params pop)).
      { apply Z.div_le_upper_bound; lia. }
      lia.
    + rewrite (insertion_sort_perm Program.lt (Population._programs pop1)).
      eapply Forall_impl; [exact Hr|]. intros q [Hq _]. by rewrite <- Hre.
    + eapply all_numbers_perm; [|exact Hnum1]. symmetry. apply insertion_sort_perm.
    + by apply sorted_after_insertion_sort.
  - exact Hpp.
  - exact Hre.
  - rewrite pop_back_loop_take by (done || lia).
    apply Forall_take. rewrite Hre. apply all_numbers_Forall in Hnum.
    apply Forall_and. by split.
Qed.

End PonderPopulation.

Lemma small_params_ponder : ponder_params small_params.
Proof.
  unfold ponder_params, small_params. simpl.
  split; [by left|]. split; [reflexivity|]. split; [exists 2; lia|lia].
Qed.

Lemma ponder_population_constructed_witness :
  exists pop,
    Population.new small_params (Ponder.my_repo int_pow) Rand48.init = Ok pop
    /\ ponder_population int_pow small_params pop
    /\ Population._gen pop = 0.
Proof.
  assert (Hok : is_ok (@Population.new rand48_gen small_params (Ponder.my_repo int_pow)
                         Rand48.init) = true)
    by (vm_compute; reflexivity).
  pose proof (from_outcome_is_ok small_start _ Hok) as Hnew.
  set (pop := from_outcome small_start
                (@Population.new rand48_gen small_params (Ponder.my_repo int_pow)
                   Rand48.init)) in *.
  clearbody pop. exists pop. split; [exact Hnew|].
  exact (@ponder_population_constructed rand48_gen int_pow small_params Rand48.init pop
           small_params_ponder Hnew).
Defined.

Lemma small_population_ponder : ponder_population int_pow small_params small_population.
Proof.
  destruct (@ponder_grow rand48_gen int_pow small_params Rand48.init small_params_ponder)
    as (pop & Hg & Hp & _).
  pose proof small_population_grown as Hg'.
  change (Population.grow small_start = Ok pop) in Hg.
  rewrite Hg in Hg'. apply Ok_inj in Hg'. subst pop. exact Hp.
Qed.

Lemma ponder_tick_preserves_witness :
  ponder_population int_pow small_params small_population_next
  /\ Population._gen small_population_next
     = size_t_wrap (Population._gen small_population + 1).
Proof.
  apply (@ponder_tick_preserves rand48_gen int_pow 64 small_params small_population
           small_population_next).
  - exact small_params_ponder.
  - exact small_population_ponder.
  - apply from_outcome_is_ok. vm_compute. reflexivity.
Defined.
